(** * Multi-Agent Failure Educator: routing and interaction log

    A shallow embedding of [agent.py] (the taxonomy store and the request
    router), [database.py] (the three SQLite tables and their aggregate
    queries) and the event handlers of [app.py], with the properties the
    specification states about them and further properties of the code.

    Conventions of the embedding.
    - A Python [dict] is an association list in insertion order; the keys of a
      dict are distinct, which theorems that need it assume as [NoDup].
    - A taxonomy record is a JSON object read with [.get]: every key can be
      absent or hold [null], and the empty record is the [{}] default of the
      accessors.  Python's [None] is the [None] of an option type.
    - Methods that read or write [self] are computations of a small state and
      exception monad over the object they belong to.
    - [str.lower] follows Unicode; the agent is parametrised by the case
      folding function, and the examples use the ASCII one.
    - The random generator is an entropy source with a draw counter.
    - A SQLite table is the list of its rows in rowid order; the value of
      [CURRENT_TIMESTAMP] is an argument of each insert. *)

From Stdlib Require Import List String Ascii Bool Arith ZArith QArith Lia.
From Stdlib Require Import Sorted Permutation DecimalString.
Import ListNotations.

Local Open Scope list_scope.
Local Open Scope string_scope.

(* ------------------------------------------------------------------ *)
(** ** Text *)

Module Text.

Definition nl : string := String (ascii_of_nat 10) EmptyString.

(** [p] is an initial segment of [s]. *)
Fixpoint starts_with (p s : string) : bool :=
  match p, s with
  | EmptyString, _ => true
  | String _ _, EmptyString => false
  | String a p', String b s' => Ascii.eqb a b && starts_with p' s'
  end.

(** Python's [needle in hay] on strings: [needle] occurs at some offset. *)
Fixpoint contains (needle hay : string) : bool :=
  starts_with needle hay
  || match hay with
     | EmptyString => false
     | String _ hay' => contains needle hay'
     end.

(** ASCII case folding, the instance of [str.lower] used in the examples. *)
Definition lower_ascii (c : ascii) : ascii :=
  let n := nat_of_ascii c in
  if (65 <=? n)%nat && (n <=? 90)%nat then ascii_of_nat (n + 32) else c.

Fixpoint lower (s : string) : string :=
  match s with
  | EmptyString => EmptyString
  | String c s' => String (lower_ascii c) (lower s')
  end.

(** The characters [str.strip] removes, in the ASCII range. *)
Definition is_space (c : ascii) : bool :=
  let n := nat_of_ascii c in
  ((9 <=? n)%nat && (n <=? 13)%nat) || ((28 <=? n)%nat && (n <=? 32)%nat).

Fixpoint lstrip (s : string) : string :=
  match s with
  | EmptyString => EmptyString
  | String c s' => if is_space c then lstrip s' else s
  end.

Fixpoint rstrip (s : string) : string :=
  match s with
  | EmptyString => EmptyString
  | String c s' =>
      match rstrip s' with
      | EmptyString => if is_space c then EmptyString else String c EmptyString
      | r => String c r
      end
  end.

Definition strip (s : string) : string := rstrip (lstrip s).

(** [str(x)] of an optional string inside an f-string. *)
Definition py_str (x : option string) : string :=
  match x with
  | Some s => s
  | None => "None"
  end.

(** Concatenation of the pieces appended by a loop. *)
Definition join (pieces : list string) : string :=
  fold_right String.append EmptyString pieces.

End Text.

Import Text.

(* ------------------------------------------------------------------ *)
(** ** Dictionaries in insertion order *)

Module Dict.

Section WithKey.
Context {K V : Type}.
Variable eqb : K -> K -> bool.

Fixpoint get (k : K) (d : list (K * V)) : option V :=
  match d with
  | [] => None
  | (k', v) :: d' => if eqb k k' then Some v else get k d'
  end.

Definition mem (k : K) (d : list (K * V)) : bool :=
  match get k d with
  | Some _ => true
  | None => false
  end.

(** [d[k] = v]: an existing key keeps its position, a new key goes last. *)
Fixpoint set (k : K) (v : V) (d : list (K * V)) : list (K * V) :=
  match d with
  | [] => [(k, v)]
  | (k', v') :: d' =>
      if eqb k k' then (k', v) :: d' else (k', v') :: set k v d'
  end.

(** In-place update of the value stored under [k], if any. *)
Fixpoint update (k : K) (f : V -> V) (d : list (K * V)) : list (K * V) :=
  match d with
  | [] => []
  | (k', v') :: d' =>
      if eqb k k' then (k', f v') :: d' else (k', v') :: update k f d'
  end.

Definition keys (d : list (K * V)) : list K := map fst d.

End WithKey.

Definition opt_eqb (a b : option string) : bool :=
  match a, b with
  | Some x, Some y => String.eqb x y
  | None, None => true
  | _, _ => false
  end.

End Dict.

(* ------------------------------------------------------------------ *)
(** ** State and exception monad *)

Module Monad.

Inductive Exn : Type :=
| AttributeError
| TypeError
| TclError.

Inductive Outcome (A : Type) : Type :=
| Return (a : A)
| Raise (e : Exn).

Arguments Return {A} a.
Arguments Raise {A} e.

Definition M (St A : Type) : Type := St -> Outcome A * St.

Definition ret {St A} (a : A) : M St A := fun s => (Return a, s).

Definition raise {St A} (e : Exn) : M St A := fun s => (Raise e, s).

Definition bind {St A B} (m : M St A) (k : A -> M St B) : M St B :=
  fun s =>
    match m s with
    | (Return a, s') => k a s'
    | (Raise e, s') => (Raise e, s')
    end.

Definition gets {St A} (f : St -> A) : M St A := fun s => (Return (f s), s).

Definition modify {St} (f : St -> St) : M St unit := fun s => (Return tt, f s).

(** The accumulating loop [for x in xs: acc = body(acc, x)]. *)
Fixpoint for_each {St A B} (xs : list A) (acc : B) (body : B -> A -> M St B)
  : M St B :=
  match xs with
  | [] => ret acc
  | x :: xs' => bind (body acc x) (fun acc' => for_each xs' acc' body)
  end.

(** The sequence a [for] statement walks: iterating over [None] raises
    [TypeError] before the first pass. *)
Definition iter {St A} (xs : option (list A)) : M St (list A) :=
  match xs with
  | Some items => ret items
  | None => raise TypeError
  end.

Definition result {St A} (m : M St A) (s : St) : Outcome A := fst (m s).
Definition final {St A} (m : M St A) (s : St) : St := snd (m s).

End Monad.

Import Monad.

Notation "x <- m ;; k" := (bind m (fun x => k))
  (at level 61, m at next level, right associativity).

(* ------------------------------------------------------------------ *)
(** ** agent.py: the taxonomy store and the request router *)

Module Agent.

(** A key of a JSON object that the code reads with [.get(key, default)]:
    the key is absent, holds [null], or holds a value. *)
Inductive Field (A : Type) : Type :=
| Absent
| Null
| Value (a : A).

Arguments Absent {A}.
Arguments Null {A}.
Arguments Value {A} a.

(** [d.get(key, default)]: only an absent key takes the default; a [null]
    comes back as [None]. *)
Definition get_default {A} (x : Field A) (default : A) : option A :=
  match x with
  | Absent => Some default
  | Null => None
  | Value a => Some a
  end.

(** One record of [data/failure_modes.json].  [category] is read with
    [.get('category')] and [example_scenarios] with [.get(key, [])] followed
    by a truth test, neither of which tells an absent key from a [null]:
    for these two fields [None] stands for both.  The other fields are read
    with a default, which a [null] does not take. *)
Record FailureMode : Type := {
  category : option string;
  short_description : Field string;
  description : Field string;
  example_scenarios : option (list string);
  phd_level_analysis : Field string;
  tactical_solutions : Field (list string);
  structural_solutions : Field (list string)
}.

(** The [{}] that [get_failure_mode_info] returns for an unknown name. *)
Definition empty_info : FailureMode :=
  {| category := None; short_description := Absent; description := Absent;
     example_scenarios := None; phd_level_analysis := Absent;
     tactical_solutions := Absent; structural_solutions := Absent |}.

Definition Taxonomy : Type := list (string * FailureMode).
Definition CategoryIndex : Type := list (option string * list string).

(** State of the [random] module: an entropy source and the number of
    values drawn from it so far. *)
Record Rng : Type := {
  entropy : nat -> nat;
  draws : nat
}.

Record State : Type := {
  failure_modes : Taxonomy;
  categories : CategoryIndex;
  rng : Rng
}.

Definition get_or {A} (x : option A) (default : A) : A :=
  match x with
  | Some a => a
  | None => default
  end.

(** Body of the loop of [_organize_categories]. *)
Definition organize_step (categories : CategoryIndex)
  (item : string * FailureMode) : CategoryIndex :=
  let '(mode_name, mode_data) := item in
  let category := category mode_data in
  let categories :=
    if Dict.mem Dict.opt_eqb category categories then categories
    else Dict.set Dict.opt_eqb category [] categories in
  Dict.update Dict.opt_eqb category (fun bucket => (bucket ++ [mode_name])%list)
    categories.

Definition _organize_categories (failure_modes : Taxonomy) : CategoryIndex :=
  fold_left organize_step failure_modes [].

(** [__init__], given what [_load_failure_modes] read. *)
Definition init (loaded : Taxonomy) (r : Rng) : State :=
  {| failure_modes := loaded;
     categories := _organize_categories loaded;
     rng := r |}.

Definition get_all_categories : M State (list (option string)) :=
  gets (fun self => Dict.keys (categories self)).

Definition get_failure_modes_in_category (category : option string)
  : M State (list string) :=
  gets (fun self => get_or (Dict.get Dict.opt_eqb category (categories self)) []).

Definition get_failure_mode_info (mode_name : string) : M State FailureMode :=
  gets (fun self =>
          get_or (Dict.get String.eqb mode_name (failure_modes self)) empty_info).

(** [random.choice] on a non-empty sequence: one draw below its length. *)
Definition random_choice (seq : list string) : M State string :=
  fun self =>
    let r := rng self in
    let i := (entropy r (draws r) mod List.length seq)%nat in
    (Return (nth i seq EmptyString),
     {| failure_modes := failure_modes self;
        categories := categories self;
        rng := {| entropy := entropy r; draws := S (draws r) |} |}).

Definition demonstrate_failure_mode (mode_name : string) : M State string :=
  mode_info <- get_failure_mode_info mode_name ;;
  let scenarios := get_or (example_scenarios mode_info) [] in
  match scenarios with
  | [] => ret ("No demonstration scenarios available for " ++ mode_name ++ ".")
  | _ :: _ => random_choice scenarios
  end.

(** The analysis text, or [None] when the field is [null]. *)
Definition analyze_failure_mode (mode_name : string)
  : M State (option string) :=
  mode_info <- get_failure_mode_info mode_name ;;
  ret (get_default (phd_level_analysis mode_info)
         ("No analysis available for " ++ mode_name ++ ".")).

(** The dict [get_solutions] returns: both keys are always present, and a
    [null] list of the record is passed on as [None]. *)
Record Solutions : Type := {
  tactical : option (list string);
  structural : option (list string)
}.

Definition get_solutions (mode_name : string) : M State Solutions :=
  mode_info <- get_failure_mode_info mode_name ;;
  ret {| tactical := get_default (tactical_solutions mode_info) [];
         structural := get_default (structural_solutions mode_info) [] |}.

Definition category_descriptions : list (option string * string) :=
  [ (Some "Communication Failures",
     "Communication failures occur when information exchange between multiple LLM agents is impaired. These failures can result from information withholding, miscommunication, verbosity issues, incomplete exchanges, or signal distortion. They represent fundamental challenges in the transmission and reception of information between autonomous agents.");
    (Some "Alignment Failures",
     "Alignment failures emerge when the goals, values, or world models of multiple agents are not properly synchronized. These include inter-agent misalignment, divergent objectives, conflicting prioritization, inconsistent world models, and value misalignment. Such failures represent deeper architectural and design challenges in multi-agent systems.");
    (Some "Decision/Coordination Failures",
     "Decision and coordination failures manifest when multiple agents cannot effectively reach consensus or coordinate their actions. These include decision paralysis, fragmented consensus, resource misallocation, and coordination overhead. These failures reveal limitations in the collective decision-making capabilities of multi-agent systems.") ].

Definition explain_category (category : option string) : string :=
  get_or (Dict.get Dict.opt_eqb category category_descriptions)
    ("No description available for " ++ py_str category ++ ".").

Definition mode_bullet (mode : string) (mode_info : FailureMode) : string :=
  "- **" ++ mode ++ "**: "
  ++ py_str (get_default (short_description mode_info)
               "No description available.") ++ nl.

Definition _generate_failure_mode_response (mode_name : string)
  : M State string :=
  mode_info <- get_failure_mode_info mode_name ;;
  demonstration <- demonstrate_failure_mode mode_name ;;
  analysis <- analyze_failure_mode mode_name ;;
  solutions <- get_solutions mode_name ;;
  let response :=
    "# " ++ mode_name ++ " (Category: " ++ py_str (category mode_info) ++ ")" in
  let response :=
    response ++ nl ++ nl ++ "## Definition" ++ nl
    ++ py_str (get_default (description mode_info) "No description available.") in
  let response :=
    response ++ nl ++ nl ++ "## Demonstration" ++ nl ++ demonstration in
  let response :=
    response ++ nl ++ nl ++ "## PhD-Level Analysis" ++ nl ++ py_str analysis in
  let response := response ++ nl ++ nl ++ "## Solutions" ++ nl in
  let response := response ++ nl ++ "### Tactical Solutions" ++ nl in
  items <- iter (tactical solutions) ;;
  response <- for_each items response
                (fun response solution =>
                   ret (response ++ "- " ++ solution ++ nl)) ;;
  let response := response ++ nl ++ "### Structural Solutions" ++ nl in
  items <- iter (structural solutions) ;;
  response <- for_each items response
                (fun response solution =>
                   ret (response ++ "- " ++ solution ++ nl)) ;;
  ret response.

(** The loop shared by the category and all-modes documents. *)
Definition append_mode_bullets (modes : list string) (response : string)
  : M State string :=
  for_each modes response
    (fun response mode =>
       mode_info <- get_failure_mode_info mode ;;
       ret (response ++ mode_bullet mode mode_info)).

Definition _generate_category_response (category : option string)
  : M State string :=
  let explanation := explain_category category in
  modes <- get_failure_modes_in_category category ;;
  let response :=
    "# " ++ py_str category ++ nl ++ nl ++ explanation ++ nl ++ nl
    ++ "## Failure Modes in this Category:" ++ nl in
  append_mode_bullets modes response.

Definition _generate_all_failure_modes_response : M State string :=
  let response := "# All Failure Modes" ++ nl ++ nl in
  items <- gets categories ;;
  for_each items response
    (fun response item =>
       let '(category, modes) := item in
       let response := response ++ "## " ++ py_str category ++ nl in
       response <- append_mode_bullets modes response ;;
       ret (response ++ nl)).

Definition _generate_all_categories_response : M State string :=
  let response := "# All Failure Mode Categories" ++ nl ++ nl in
  keys <- gets (fun self => Dict.keys (categories self)) ;;
  for_each keys response
    (fun response category =>
       let explanation := explain_category category in
       ret (response ++ "## " ++ py_str category ++ nl ++ explanation
            ++ nl ++ nl)).

Definition _generate_help_response : M State string :=
  let response := "# Multi-Agent Failure Educator Help" ++ nl ++ nl in
  let response :=
    response ++ "I can help you learn about why multi-agent LLM systems fail. Here are some things you can ask me:" ++ nl ++ nl in
  let response :=
    response ++ "- Ask about a specific failure mode (e.g., 'Show me an example of information withholding')" ++ nl in
  let response :=
    response ++ "- Request explanation of a failure category (e.g., 'Explain inter-agent misalignment')" ++ nl in
  let response :=
    response ++ "- Ask for solutions to a particular failure mode" ++ nl in
  let response :=
    response ++ "- Request a list of all failure modes or categories" ++ nl in
  ret response.

Section Router.

(** [str.lower]. *)
Variable lower : string -> string.

(** First loop of [process_user_request]: the first identifier whose
    lower-cased text occurs in the request returns its document. *)
Fixpoint scan_failure_modes (names : list string) (request_lower : string)
  (otherwise : M State string) : M State string :=
  match names with
  | [] => otherwise
  | mode_name :: rest =>
      if contains (lower mode_name) request_lower
      then _generate_failure_mode_response mode_name
      else scan_failure_modes rest request_lower otherwise
  end.

(** Second loop: [category.lower()] is evaluated for every key reached, and
    [None] has no such attribute. *)
Fixpoint scan_categories (keys : list (option string)) (request_lower : string)
  (otherwise : M State string) : M State string :=
  match keys with
  | [] => otherwise
  | category :: rest =>
      match category with
      | None => raise AttributeError
      | Some name =>
          if contains ("explain " ++ lower name) request_lower
             || contains ("about " ++ lower name) request_lower
          then _generate_category_response category
          else scan_categories rest request_lower otherwise
      end
  end.

Definition general_requests (request_lower : string) : M State string :=
  if contains "list all failure modes" request_lower
     || contains "show all failures" request_lower
  then _generate_all_failure_modes_response
  else if contains "list all categories" request_lower
          || contains "show all categories" request_lower
  then _generate_all_categories_response
  else _generate_help_response.

Definition process_user_request (request : string) : M State string :=
  let request_lower := lower request in
  names <- gets (fun self => Dict.keys (failure_modes self)) ;;
  scan_failure_modes names request_lower
    (keys <- gets (fun self => Dict.keys (categories self)) ;;
     scan_categories keys request_lower
       (general_requests request_lower)).

End Router.

End Agent.

(* ------------------------------------------------------------------ *)
(** ** database.py: the interaction log *)

Module Database.

Record QueryRow : Type := {
  q_id : Z;
  q_query : string;
  q_timestamp : Z
}.

Record ViewRow : Type := {
  v_id : Z;
  v_failure_mode : string;
  v_timestamp : Z
}.

Record FeedbackRow : Type := {
  f_id : Z;
  f_failure_mode : string;
  f_solution_type : string;
  f_solution_text : string;
  f_rating : option Z;
  f_comment : option string;
  f_timestamp : Z
}.

(** The three tables, each in rowid order. *)
Record State : Type := {
  user_queries : list QueryRow;
  viewed_failure_modes : list ViewRow;
  solution_feedback : list FeedbackRow
}.

(** [_create_tables] on a new file. *)
Definition _create_tables : State :=
  {| user_queries := []; viewed_failure_modes := []; solution_feedback := [] |}.

(** [INTEGER PRIMARY KEY AUTOINCREMENT]: one more than the largest rowid. *)
Definition next_rowid (ids : list Z) : Z := (1 + fold_right Z.max 0 ids)%Z.

Definition log_user_query (now : Z) (query : string) : M State Z :=
  fun db =>
    let id := next_rowid (map q_id (user_queries db)) in
    let row := {| q_id := id; q_query := query; q_timestamp := now |} in
    (Return id,
     {| user_queries := (user_queries db ++ [row])%list;
        viewed_failure_modes := viewed_failure_modes db;
        solution_feedback := solution_feedback db |}).

Definition log_viewed_failure_mode (now : Z) (failure_mode : string)
  : M State Z :=
  fun db =>
    let id := next_rowid (map v_id (viewed_failure_modes db)) in
    let row :=
      {| v_id := id; v_failure_mode := failure_mode; v_timestamp := now |} in
    (Return id,
     {| user_queries := user_queries db;
        viewed_failure_modes := (viewed_failure_modes db ++ [row])%list;
        solution_feedback := solution_feedback db |}).

Definition log_solution_feedback (now : Z) (failure_mode solution_type
  solution_text : string) (rating : option Z) (comment : option string)
  : M State Z :=
  fun db =>
    let id := next_rowid (map f_id (solution_feedback db)) in
    let row :=
      {| f_id := id; f_failure_mode := failure_mode;
         f_solution_type := solution_type; f_solution_text := solution_text;
         f_rating := rating; f_comment := comment; f_timestamp := now |} in
    (Return id,
     {| user_queries := user_queries db;
        viewed_failure_modes := viewed_failure_modes db;
        solution_feedback := (solution_feedback db ++ [row])%list |}).

(** *** The SQL operators the queries use *)

Section Sql.
Context {A : Type}.

(** [ORDER BY key DESC] as SQLite runs it: each row of the scan is placed
    behind the rows already sorted whose key is at least its own, so rows
    with equal keys stay in scan order. *)
Fixpoint insert_desc (key : A -> Z) (x : A) (sorted : list A) : list A :=
  match sorted with
  | [] => [x]
  | y :: rest =>
      if (key y <? key x)%Z then x :: y :: rest
      else y :: insert_desc key x rest
  end.

Definition order_by_desc (key : A -> Z) (rows : list A) : list A :=
  fold_left (fun sorted x => insert_desc key x sorted) rows [].

(** [LIMIT n] for a row count [n]. *)
Definition limit_rows (n : nat) (rows : list A) : list A := firstn n rows.

Fixpoint add_to_group (k : string) (x : A) (groups : list (string * list A))
  : list (string * list A) :=
  match groups with
  | [] => [(k, [x])]
  | (k', xs) :: rest =>
      if String.eqb k k' then (k', (xs ++ [x])%list) :: rest
      else (k', xs) :: add_to_group k x rest
  end.

(** The rows of the scan collected by key, each group in scan order and
    the groups in the order in which the scan first meets them. *)
Definition group_by (key : A -> string) (rows : list A)
  : list (string * list A) :=
  fold_left (fun groups x => add_to_group (key x) x groups) rows [].

(** [a] comes before [b] in the direction of the sort; keys are compared
    byte by byte ([BINARY] collation). *)
Definition key_before (descending : bool) (a b : string) : bool :=
  if descending then String.ltb b a else String.ltb a b.

Fixpoint insert_group (descending : bool) (g : string * list A)
  (sorted : list (string * list A)) : list (string * list A) :=
  match sorted with
  | [] => [g]
  | h :: rest =>
      if key_before descending (fst g) (fst h) then g :: h :: rest
      else h :: insert_group descending g rest
  end.

Definition sort_groups (descending : bool) (groups : list (string * list A))
  : list (string * list A) :=
  fold_right (insert_group descending) [] groups.

(** [GROUP BY key] as SQLite runs it on a table without an index on the
    key: the rows go through a sorter on the key, so the groups come out in
    key order.  The order is ascending, unless the statement has an
    [ORDER BY] with as many terms as the [GROUP BY], whose direction the
    sorter then takes. *)
Definition sql_group_by (descending : bool) (key : A -> string)
  (rows : list A) : list (string * list A) :=
  sort_groups descending (group_by key rows).

(** The rows of the scan that fall in the group of [k]. *)
Definition group_rows (key : A -> string) (k : string) (rows : list A)
  : list A :=
  filter (fun x => String.eqb (key x) k) rows.

End Sql.

(** [AVG]: the mean of the non-NULL values, NULL when there is none. *)
Definition non_null (vals : list (option Z)) : list Z :=
  flat_map (fun v => match v with Some z => [z] | None => [] end) vals.

Definition sum_Z (zs : list Z) : Z := fold_right Z.add 0%Z zs.

Definition mean (zs : list Z) : Q :=
  Qred (inject_Z (sum_Z zs) / inject_Z (Z.of_nat (List.length zs))).

Definition sql_avg (vals : list (option Z)) : option Q :=
  match non_null vals with
  | [] => None
  | zs => Some (mean zs)
  end.

Record ViewCount : Type := {
  failure_mode : string;
  view_count : Z
}.

Definition count_views (group : string * list ViewRow) : ViewCount :=
  {| failure_mode := fst group;
     view_count := Z.of_nat (List.length (snd group)) |}.

Definition get_most_viewed_failure_modes (limit : nat)
  : M State (list ViewCount) :=
  gets (fun db =>
          limit_rows limit
            (order_by_desc view_count
               (map count_views
                  (sql_group_by true v_failure_mode
                     (viewed_failure_modes db))))).

Definition get_recent_queries (limit : nat) : M State (list QueryRow) :=
  gets (fun db => limit_rows limit (order_by_desc q_timestamp (user_queries db))).

Record FeedbackStats : Type := {
  avg_ratings_by_type : list (string * option Q);
  feedback_count_by_mode : list (string * Z)
}.

Definition is_rated (row : FeedbackRow) : bool :=
  match f_rating row with
  | Some _ => true
  | None => false
  end.

Definition get_solution_feedback_stats : M State FeedbackStats :=
  rated <- gets (fun db => filter is_rated (solution_feedback db)) ;;
  let avg_ratings_by_type :=
    map (fun group => (fst group, sql_avg (map f_rating (snd group))))
      (sql_group_by false f_solution_type rated) in
  rows <- gets solution_feedback ;;
  let feedback_count_by_mode :=
    map (fun group => (fst group, Z.of_nat (List.length (snd group))))
      (sql_group_by false f_failure_mode rows) in
  ret {| avg_ratings_by_type := avg_ratings_by_type;
         feedback_count_by_mode := feedback_count_by_mode |}.

(** A session: any sequence of logging calls, each with the time at which
    it runs. *)
Inductive Call : Type :=
| LogQuery (now : Z) (query : string)
| LogView (now : Z) (failure_mode : string)
| LogFeedback (now : Z) (failure_mode solution_type solution_text : string)
    (rating : option Z) (comment : option string).

Definition perform (c : Call) : M State Z :=
  match c with
  | LogQuery now query => log_user_query now query
  | LogView now failure_mode => log_viewed_failure_mode now failure_mode
  | LogFeedback now failure_mode solution_type solution_text rating comment =>
      log_solution_feedback now failure_mode solution_type solution_text
        rating comment
  end.

Fixpoint run (calls : list Call) (db : State) : State :=
  match calls with
  | [] => db
  | c :: rest => run rest (final (perform c) db)
  end.

End Database.

(* ------------------------------------------------------------------ *)
(** ** app.py: the query handler *)

Module App.

(** The part of the window the handler touches, with the two objects the
    application owns. *)
Record State : Type := {
  agent : Agent.State;
  db : Database.State;
  query_entry : string;
  response_text : string
}.

Definition on_agent {A} (m : M Agent.State A) : M State A :=
  fun self =>
    let '(r, agent') := m (agent self) in
    (r, {| agent := agent'; db := db self;
           query_entry := query_entry self;
           response_text := response_text self |}).

Definition on_db {A} (m : M Database.State A) : M State A :=
  fun self =>
    let '(r, db') := m (db self) in
    (r, {| agent := agent self; db := db';
           query_entry := query_entry self;
           response_text := response_text self |}).

Definition set_response_text (text : string) : M State unit :=
  modify (fun self =>
            {| agent := agent self; db := db self;
               query_entry := query_entry self; response_text := text |}).

Definition clear_query_entry : M State unit :=
  modify (fun self =>
            {| agent := agent self; db := db self;
               query_entry := EmptyString;
               response_text := response_text self |}).

Section Handler.

Variable lower : string -> string.
Variable strip : string -> string.

Definition _process_query (now : Z) : M State unit :=
  entry <- gets query_entry ;;
  let query := strip entry in
  match query with
  | EmptyString => ret tt
  | String _ _ =>
      _ <- on_db (Database.log_user_query now query) ;;
      response <- on_agent (Agent.process_user_request lower query) ;;
      _ <- set_response_text response ;;
      clear_query_entry
  end.

End Handler.

End App.

(* ------------------------------------------------------------------ *)
(** ** The documents as functions of the taxonomy store

    What each generator of [agent.py] returns, written as a function of the
    two dictionaries of the store alone.  The failure-mode document takes
    the text of its Demonstration section as an argument. *)

Module Documents.

Import Agent.

Definition info (fm : Taxonomy) (mode_name : string) : FailureMode :=
  get_or (Dict.get String.eqb mode_name fm) empty_info.

Definition modes_in (cats : CategoryIndex) (c : option string) : list string :=
  get_or (Dict.get Dict.opt_eqb c cats) [].

Definition scenarios_of (fm : Taxonomy) (mode_name : string) : list string :=
  get_or (example_scenarios (info fm mode_name)) [].

Definition no_demonstration (mode_name : string) : string :=
  "No demonstration scenarios available for " ++ mode_name ++ ".".

(** The values the generators read from a record: [None] for a [null]. *)
Definition description_of (fm : Taxonomy) (mode_name : string)
  : option string :=
  get_default (description (info fm mode_name)) "No description available.".

Definition analysis_of (fm : Taxonomy) (mode_name : string) : option string :=
  get_default (phd_level_analysis (info fm mode_name))
    ("No analysis available for " ++ mode_name ++ ".").

Definition tactical_of (fm : Taxonomy) (mode_name : string)
  : option (list string) :=
  get_default (tactical_solutions (info fm mode_name)) [].

Definition structural_of (fm : Taxonomy) (mode_name : string)
  : option (list string) :=
  get_default (structural_solutions (info fm mode_name)) [].

(** One line per solution: a dash, a space, the solution, a line break. *)
Definition bullets (solutions : list string) : string :=
  join (map (fun solution => "- " ++ solution ++ nl) solutions).

(** Everything of the failure-mode document before the two subsections. *)
Definition failure_mode_sections (fm : Taxonomy) (mode_name demonstration
  : string) : string :=
  "# " ++ mode_name ++ " (Category: "
  ++ py_str (category (info fm mode_name)) ++ ")"
  ++ nl ++ nl ++ "## Definition" ++ nl
  ++ py_str (description_of fm mode_name)
  ++ nl ++ nl ++ "## Demonstration" ++ nl ++ demonstration
  ++ nl ++ nl ++ "## PhD-Level Analysis" ++ nl
  ++ py_str (analysis_of fm mode_name)
  ++ nl ++ nl ++ "## Solutions" ++ nl.

Definition tactical_heading : string := nl ++ "### Tactical Solutions" ++ nl.
Definition structural_heading : string := nl ++ "### Structural Solutions" ++ nl.

(** The failure-mode document of a record with the given two lists. *)
Definition failure_mode_document (fm : Taxonomy) (mode_name demonstration
  : string) (tactical structural : list string) : string :=
  failure_mode_sections fm mode_name demonstration
  ++ tactical_heading ++ bullets tactical
  ++ structural_heading ++ bullets structural.

(** No record of the taxonomy holds [null] for a solution list. *)
Definition solutions_listed (fm : Taxonomy) : Prop :=
  Forall (fun item : string * FailureMode =>
            tactical_solutions (snd item) <> Null
            /\ structural_solutions (snd item) <> Null) fm.

(** What the failure-mode generator ends with: the document, or the
    [TypeError] of a loop over a [null] list. *)
Definition failure_mode_outcome (fm : Taxonomy) (mode_name demonstration
  : string) : Outcome string :=
  match tactical_of fm mode_name, structural_of fm mode_name with
  | Some tactical, Some structural =>
      Return (failure_mode_document fm mode_name demonstration
                tactical structural)
  | _, _ => Raise TypeError
  end.

Definition mode_bullets (fm : Taxonomy) (modes : list string) : string :=
  join (map (fun mode => mode_bullet mode (info fm mode)) modes).

Definition category_document (fm : Taxonomy) (cats : CategoryIndex)
  (c : option string) : string :=
  "# " ++ py_str c ++ nl ++ nl ++ explain_category c ++ nl ++ nl
  ++ "## Failure Modes in this Category:" ++ nl
  ++ mode_bullets fm (modes_in cats c).

Definition all_modes_document (fm : Taxonomy) (cats : CategoryIndex) : string :=
  "# All Failure Modes" ++ nl ++ nl
  ++ join (map (fun item : option string * list string =>
                  "## " ++ py_str (fst item) ++ nl
                  ++ mode_bullets fm (snd item) ++ nl) cats).

Definition all_categories_document (cats : CategoryIndex) : string :=
  "# All Failure Mode Categories" ++ nl ++ nl
  ++ join (map (fun c => "## " ++ py_str c ++ nl ++ explain_category c
                         ++ nl ++ nl) (Dict.keys cats)).

Definition help_document : string :=
  "# Multi-Agent Failure Educator Help" ++ nl ++ nl
  ++ "I can help you learn about why multi-agent LLM systems fail. Here are some things you can ask me:" ++ nl ++ nl
  ++ "- Ask about a specific failure mode (e.g., 'Show me an example of information withholding')" ++ nl
  ++ "- Request explanation of a failure category (e.g., 'Explain inter-agent misalignment')" ++ nl
  ++ "- Ask for solutions to a particular failure mode" ++ nl
  ++ "- Request a list of all failure modes or categories" ++ nl.

(** The scenario [random.choice] picks with generator state [r]. *)
Definition drawn (r : Rng) (seq : list string) : string :=
  nth (entropy r (draws r) mod List.length seq)%nat seq EmptyString.

(** The agent after one draw. *)
Definition advance (self : State) : State :=
  {| failure_modes := failure_modes self;
     categories := categories self;
     rng := {| entropy := entropy (rng self); draws := S (draws (rng self)) |} |}.

Definition demonstration_of (fm : Taxonomy) (r : Rng) (mode_name : string)
  : string :=
  match scenarios_of fm mode_name with
  | [] => no_demonstration mode_name
  | _ :: _ => drawn r (scenarios_of fm mode_name)
  end.

Definition after_demonstration (self : State) (mode_name : string) : State :=
  match scenarios_of (failure_modes self) mode_name with
  | [] => self
  | _ :: _ => advance self
  end.

End Documents.

(* ------------------------------------------------------------------ *)
(** ** The routing rule in the words of the specification *)

Module RouterSpec.

Import Agent.

Inductive Choice : Type :=
| FailureModeDoc (mode_name : string)
| CategoryDoc (name : string)
| AllModesDoc
| AllCategoriesDoc
| HelpDoc.

(** The names of the categories, in [categories()] order. *)
Definition category_names (cats : CategoryIndex) : list string :=
  flat_map (fun k : option string =>
              match k with Some name => [name] | None => [] end)
    (Dict.keys cats).

Section Rule.

Variable lower : string -> string.

Definition names_mode (request mode_name : string) : bool :=
  contains (lower mode_name) (lower request).

Definition asks_category (request name : string) : bool :=
  contains ("explain " ++ lower name) (lower request)
  || contains ("about " ++ lower name) (lower request).

Definition asks_all_modes (request : string) : bool :=
  contains "list all failure modes" (lower request)
  || contains "show all failures" (lower request).

Definition asks_all_categories (request : string) : bool :=
  contains "list all categories" (lower request)
  || contains "show all categories" (lower request).

(** Strict priority: mode, category, the two listings, help; within the
    first two rules the first match in store order. *)
Definition choose (fm : Taxonomy) (cats : CategoryIndex) (request : string)
  : Choice :=
  match find (names_mode request) (Dict.keys fm) with
  | Some mode_name => FailureModeDoc mode_name
  | None =>
      match find (asks_category request) (category_names cats) with
      | Some name => CategoryDoc name
      | None =>
          if asks_all_modes request then AllModesDoc
          else if asks_all_categories request then AllCategoriesDoc
          else HelpDoc
      end
  end.

End Rule.

Definition document (c : Choice) : M State string :=
  match c with
  | FailureModeDoc mode_name => _generate_failure_mode_response mode_name
  | CategoryDoc name => _generate_category_response (Some name)
  | AllModesDoc => _generate_all_failure_modes_response
  | AllCategoriesDoc => _generate_all_categories_response
  | HelpDoc => _generate_help_response
  end.

(** Every bucket of the index is keyed by a category name. *)
Definition categories_named (cats : CategoryIndex) : Prop :=
  Forall (fun k : option string => k <> None) (Dict.keys cats).

End RouterSpec.

(* ------------------------------------------------------------------ *)
(** ** The category index in the words of the specification *)

Module IndexSpec.

Import Agent.

(** The identifiers of the records of category [c], in store order. *)
Definition members (c : option string) (fm : Taxonomy) : list string :=
  map fst (filter (fun item : string * FailureMode =>
                     Dict.opt_eqb (category (snd item)) c) fm).

Definition category_dec (a b : option string) : {a = b} + {a <> b}.
Proof. decide equality. apply string_dec. Defined.

End IndexSpec.

(* ------------------------------------------------------------------ *)
(** ** The log queries in the words of the specification *)

Module LogSpec.

Import Database.

(** [a] is listed before [b]: its key is larger, or the keys are equal and
    its position is smaller. *)
Definition ranked_before {A} (key pos : A -> Z) (a b : A) : Prop :=
  (key b < key a)%Z \/ (key a = key b /\ (pos a < pos b)%Z).

(** Newest first, equal timestamps in insertion order. *)
Definition newest_first : QueryRow -> QueryRow -> Prop :=
  ranked_before q_timestamp q_id.

(** Newest first, equal timestamps with the larger id first. *)
Definition newest_first_id_descending : QueryRow -> QueryRow -> Prop :=
  ranked_before q_timestamp (fun row => (- q_id row)%Z).

(** The rowids grow along the table. *)
Definition ids_increasing (rows : list QueryRow) : Prop :=
  StronglySorted (fun a b => (q_id a < q_id b)%Z) rows.

(** What a session has logged, in call order. *)
Definition queries_of (calls : list Call) : list (Z * string) :=
  flat_map (fun c => match c with
                     | LogQuery now query => [(now, query)]
                     | _ => []
                     end) calls.

Definition views_of (calls : list Call) : list string :=
  flat_map (fun c => match c with
                     | LogView _ failure_mode => [failure_mode]
                     | _ => []
                     end) calls.

Record Feedback : Type := {
  on_mode : string;
  of_type : string;
  rated : option Z
}.

Definition feedback_of (calls : list Call) : list Feedback :=
  flat_map (fun c => match c with
                     | LogFeedback _ failure_mode solution_type _ rating _ =>
                         [{| on_mode := failure_mode; of_type := solution_type;
                             rated := rating |}]
                     | _ => []
                     end) calls.

(** What a stored feedback row records of its call. *)
Definition feedback_row (row : FeedbackRow) : Feedback :=
  {| on_mode := f_failure_mode row; of_type := f_solution_type row;
     rated := f_rating row |}.

Definition query_row (row : QueryRow) : Z * string :=
  (q_timestamp row, q_query row).

(** The non-null ratings given to solutions of type [t]. *)
Definition ratings_of (t : string) (fb : list Feedback) : list Z :=
  non_null (map rated (filter (fun f => String.eqb (of_type f) t) fb)).

(** The number of feedback entries on mode [m], rated or not. *)
Definition entries_on (m : string) (fb : list Feedback) : nat :=
  List.length (filter (fun f => String.eqb (on_mode f) m) fb).

End LogSpec.

(* ------------------------------------------------------------------ *)
(** ** Sample data *)

Module Examples.

Import Agent.

Definition withholding : FailureMode :=
  {| category := Some "Communication Failures";
     short_description := Value "Agents keep facts to themselves.";
     description := Value "An agent does not pass on what the others need.";
     example_scenarios :=
       Some ["A planner never forwards the deadline.";
             "A tester hides a failing test."];
     phd_level_analysis := Value "Sharing has a cost and no reward.";
     tactical_solutions :=
       Value ["Require status reports."; "Log every message."];
     structural_solutions := Value [] |}.

Definition misalignment : FailureMode :=
  {| category := Some "Alignment Failures";
     short_description := Value "Agents pull in different directions.";
     description := Absent;
     example_scenarios := None;
     phd_level_analysis := Absent;
     tactical_solutions := Value [];
     structural_solutions := Value ["Share one objective."] |}.

Definition paralysis : FailureMode :=
  {| category := Some "Communication Failures";
     short_description := Absent;
     description := Absent;
     example_scenarios := Some [];
     phd_level_analysis := Absent;
     tactical_solutions := Absent;
     structural_solutions := Absent |}.

(** A record whose fields hold JSON [null], but for one empty list. *)
Definition nulled : FailureMode :=
  {| category := None;
     short_description := Null;
     description := Null;
     example_scenarios := None;
     phd_level_analysis := Null;
     tactical_solutions := Null;
     structural_solutions := Value [] |}.

Definition taxonomy : Taxonomy :=
  [ ("Information Withholding", withholding);
    ("Inter-Agent Misalignment", misalignment);
    ("Decision Paralysis", paralysis) ].

(** A taxonomy with a record that has no [category] field. *)
Definition uncategorised : Taxonomy :=
  [ ("Signal Distortion", empty_info);
    ("Inter-Agent Misalignment", misalignment) ].

(** A taxonomy with such a record. *)
Definition with_null : Taxonomy :=
  [ ("Information Withholding", withholding);
    ("Value Misalignment", nulled) ].

Definition counting : Rng := {| entropy := fun n => n; draws := 0 |}.
Definition constant (k : nat) : Rng := {| entropy := fun _ => k; draws := 0 |}.

End Examples.

(* ------------------------------------------------------------------ *)
(** ** agent.py: loading the taxonomy *)

Module Loader.

Import Agent.

Definition _create_default_failure_modes : Taxonomy := [].

(** [_load_failure_modes]: [file] is what [json.load] returned for
    [data/failure_modes.json], or [None] when opening or parsing it raised
    and the [except] branch ran. *)
Definition _load_failure_modes (file : option Taxonomy) : Taxonomy :=
  match file with
  | Some data => data
  | None => _create_default_failure_modes
  end.

(** [MultiAgentFailureEducator()]. *)
Definition new_agent (file : option Taxonomy) (r : Rng) : State :=
  init (_load_failure_modes file) r.

End Loader.

(* ------------------------------------------------------------------ *)
(** ** Order of first occurrence *)

Module FirstSeen.

(** The elements of [l] not in [seen], each at its first occurrence. *)
Fixpoint first_seen (seen l : list (option string)) : list (option string) :=
  match l with
  | [] => []
  | x :: rest =>
      if in_dec IndexSpec.category_dec x seen then first_seen seen rest
      else x :: first_seen (x :: seen) rest
  end.

(** The records of category [c], in store order. *)
Definition records_of (c : option string) (fm : Agent.Taxonomy)
  : Agent.Taxonomy :=
  filter (fun item : string * Agent.FailureMode =>
            Dict.opt_eqb (Agent.category (snd item)) c) fm.

(** The bullet of a record in a category or all-modes document. *)
Definition record_bullet (item : string * Agent.FailureMode) : string :=
  Agent.mode_bullet (fst item) (snd item).

End FirstSeen.

(* ------------------------------------------------------------------ *)
(** ** Row numbering *)

Module Rowid.

Import Database.

(** The rowids [1 .. n] of a table that has only ever been appended to. *)
Definition rowids (n : nat) : list Z :=
  map (fun i => (1 + Z.of_nat i)%Z) (seq 0 n).

(** The number of rows a session has put in the table that [c] writes. *)
Definition rows_before (c : Call) (calls : list Call) : nat :=
  match c with
  | LogQuery _ _ => List.length (LogSpec.queries_of calls)
  | LogView _ _ => List.length (LogSpec.views_of calls)
  | LogFeedback _ _ _ _ _ _ => List.length (LogSpec.feedback_of calls)
  end.

(** All three tables number their rows [1 .. n]. *)
Definition numbered (db : State) : Prop :=
  map q_id (user_queries db) = rowids (List.length (user_queries db))
  /\ map v_id (viewed_failure_modes db)
     = rowids (List.length (viewed_failure_modes db))
  /\ map f_id (solution_feedback db)
     = rowids (List.length (solution_feedback db)).

End Rowid.

(* ------------------------------------------------------------------ *)
(** ** app.py: the other handlers

    The window is modelled by what the handlers read and write: the text
    areas and the dropdown variables by their content, the listbox by its
    items and its selection. *)

Module Window.

Inductive TextArea : Type :=
| category_details_text
| description_text
| demo_text
| analysis_text
| solutions_text
| stats_text.

Inductive StringVar : Type :=
| category_var
| mode_var.

Definition text_area_eqb (a b : TextArea) : bool :=
  match a, b with
  | category_details_text, category_details_text
  | description_text, description_text
  | demo_text, demo_text
  | analysis_text, analysis_text
  | solutions_text, solutions_text
  | stats_text, stats_text => true
  | _, _ => false
  end.

Definition variable_eqb (a b : StringVar) : bool :=
  match a, b with
  | category_var, category_var
  | mode_var, mode_var => true
  | _, _ => false
  end.

Record State : Type := {
  app : App.State;
  texts : TextArea -> string;
  vars : StringVar -> string;
  category_listbox : list string;
  category_selection : option nat;
  mode_values : list string;
  has_description_text : bool
}.

Definition on_app {A} (m : M App.State A) : M State A :=
  fun self =>
    let '(r, app') := m (app self) in
    (r, {| app := app'; texts := texts self; vars := vars self;
           category_listbox := category_listbox self;
           category_selection := category_selection self;
           mode_values := mode_values self;
           has_description_text := has_description_text self |}).

(** [delete(1.0, END)] followed by the inserts that make up [text]. *)
Definition set_text (area : TextArea) (text : string) : M State unit :=
  modify (fun self =>
            {| app := app self;
               texts := fun a => if text_area_eqb a area then text
                                 else texts self a;
               vars := vars self;
               category_listbox := category_listbox self;
               category_selection := category_selection self;
               mode_values := mode_values self;
               has_description_text := has_description_text self |}).

(** [area.delete(1.0, END)]. *)
Definition delete (area : TextArea) : M State unit :=
  set_text area EmptyString.

(** [area.insert(END, chars)].  [tkinter] ends the arguments of a Tcl
    command at the first [None], so with [None] for [chars] the widget
    command lacks its text and fails with [TclError]. *)
Definition insert (area : TextArea) (chars : option string) : M State unit :=
  match chars with
  | Some text => fun self => set_text area (texts self area ++ text) self
  | None => raise TclError
  end.

Definition set_var (v : StringVar) (value : string) : M State unit :=
  modify (fun self =>
            {| app := app self; texts := texts self;
               vars := fun w => if variable_eqb w v then value else vars self w;
               category_listbox := category_listbox self;
               category_selection := category_selection self;
               mode_values := mode_values self;
               has_description_text := has_description_text self |}).

Definition set_mode_values (values : list string) : M State unit :=
  modify (fun self =>
            {| app := app self; texts := texts self; vars := vars self;
               category_listbox := category_listbox self;
               category_selection := category_selection self;
               mode_values := values;
               has_description_text := has_description_text self |}).

Definition set_category_selection (selection : option nat) : M State unit :=
  modify (fun self =>
            {| app := app self; texts := texts self; vars := vars self;
               category_listbox := category_listbox self;
               category_selection := selection;
               mode_values := mode_values self;
               has_description_text := has_description_text self |}).

Definition set_query_entry (text : string) : M App.State unit :=
  modify (fun self =>
            {| App.agent := App.agent self; App.db := App.db self;
               App.query_entry := text;
               App.response_text := App.response_text self |}).

(** [str(n)] of an integer inside an f-string. *)
Definition py_int (n : Z) : string := NilZero.string_of_int (Z.to_int n).

(** The four example buttons of the query tab. *)
Definition examples : list string :=
  [ "Show me an example of information withholding";
    "Explain inter-agent misalignment";
    "What are solutions to miscommunication?";
    "List all failure categories" ].

Section Handlers.

Variable lower : string -> string.
Variable strip : string -> string.

Definition _set_example_query (now : Z) (example : string) : M State unit :=
  _ <- on_app (set_query_entry example) ;;
  on_app (App._process_query lower strip now).

Definition _on_category_select : M State unit :=
  selection <- gets category_selection ;;
  match selection with
  | None => ret tt
  | Some index =>
      items <- gets category_listbox ;;
      let category := nth index items EmptyString in
      explanation <-
        on_app (App.on_agent (Agent._generate_category_response (Some category))) ;;
      set_text category_details_text explanation
  end.

Definition _on_failure_mode_select (now : Z) : M State unit :=
  mode <- gets (fun self => vars self mode_var) ;;
  match mode with
  | EmptyString => ret tt
  | String _ _ =>
      _ <- on_app (App.on_db (Database.log_viewed_failure_mode now mode)) ;;
      mode_info <- on_app (App.on_agent (Agent.get_failure_mode_info mode)) ;;
      _ <- delete description_text ;;
      _ <- insert description_text
             (Agent.get_default (Agent.description mode_info)
                "No description available.") ;;
      _ <- delete demo_text ;;
      demonstration <-
        on_app (App.on_agent (Agent.demonstrate_failure_mode mode)) ;;
      _ <- insert demo_text (Some demonstration) ;;
      _ <- delete analysis_text ;;
      analysis <- on_app (App.on_agent (Agent.analyze_failure_mode mode)) ;;
      _ <- insert analysis_text analysis ;;
      solutions <- on_app (App.on_agent (Agent.get_solutions mode)) ;;
      _ <- delete solutions_text ;;
      _ <- insert solutions_text (Some ("# Tactical Solutions" ++ nl ++ nl)) ;;
      items <- iter (Agent.tactical solutions) ;;
      _ <- for_each items tt
             (fun _ solution =>
                insert solutions_text (Some ("- " ++ solution ++ nl))) ;;
      _ <- insert solutions_text
             (Some (nl ++ "# Structural Solutions" ++ nl ++ nl)) ;;
      items <- iter (Agent.structural solutions) ;;
      for_each items tt
        (fun _ solution =>
           insert solutions_text (Some ("- " ++ solution ++ nl)))
  end.

Definition _update_failure_mode_dropdown (now : Z) : M State unit :=
  category <- gets (fun self => vars self category_var) ;;
  match category with
  | EmptyString => ret tt
  | String _ _ =>
      modes <-
        on_app (App.on_agent
                  (Agent.get_failure_modes_in_category (Some category))) ;;
      _ <- set_mode_values modes ;;
      match modes with
      | [] => ret tt
      | first :: _ =>
          _ <- set_var mode_var first ;;
          created <- gets has_description_text ;;
          if created then _on_failure_mode_select now else ret tt
      end
  end.

Definition _on_category_dropdown_select (now : Z) : M State unit :=
  _update_failure_mode_dropdown now.

Definition _update_stats : M State unit :=
  most_viewed <- on_app (App.on_db (Database.get_most_viewed_failure_modes 5)) ;;
  recent_queries <- on_app (App.on_db (Database.get_recent_queries 5)) ;;
  solution_stats <- on_app (App.on_db Database.get_solution_feedback_stats) ;;
  let text := "Most Viewed Failure Modes:" ++ nl in
  text <- match most_viewed with
          | [] => ret (text ++ "No failure modes have been viewed yet." ++ nl)
          | _ :: _ =>
              for_each most_viewed text
                (fun text item =>
                   ret (text ++ "• " ++ Database.failure_mode item
                        ++ " (viewed " ++ py_int (Database.view_count item)
                        ++ " times)" ++ nl))
          end ;;
  let text := text ++ nl in
  let text := text ++ "Recent User Queries:" ++ nl in
  text <- match recent_queries with
          | [] => ret (text ++ "No queries have been made yet." ++ nl)
          | _ :: _ =>
              for_each recent_queries text
                (fun text query =>
                   ret (text ++ "• " ++ Database.q_query query ++ nl))
          end ;;
  set_text stats_text text.

(** What the user does, with the time at which a handler that logs runs. *)
Inductive Event : Type :=
| Submit (now : Z) (typed : string)
| PressExample (now : Z) (example : string)
| SelectCategory (index : option nat)
| ChooseCategory (now : Z) (category : string)
| ChooseMode (now : Z) (mode : string)
| RefreshStats.

Definition handle (e : Event) : M State unit :=
  match e with
  | Submit now typed =>
      _ <- on_app (set_query_entry typed) ;;
      on_app (App._process_query lower strip now)
  | PressExample now example => _set_example_query now example
  | SelectCategory index =>
      _ <- set_category_selection index ;;
      _on_category_select
  | ChooseCategory now category =>
      _ <- set_var category_var category ;;
      _on_category_dropdown_select now
  | ChooseMode now mode =>
      _ <- set_var mode_var mode ;;
      _on_failure_mode_select now
  | RefreshStats => _update_stats
  end.

(** The main loop: an exception of a handler is reported and the loop goes
    on with the window as the handler left it. *)
Fixpoint play (events : list Event) (self : State) : State :=
  match events with
  | [] => self
  | e :: rest => play rest (final (handle e) self)
  end.

End Handlers.

(** A string made of white space only. *)
Fixpoint blank (s : string) : bool :=
  match s with
  | EmptyString => true
  | String c s' => is_space c && blank s'
  end.

End Window.

(* ------------------------------------------------------------------ *)
(** ** What a handler may change *)

Module Frames.

(** The taxonomy store of the agent is the same. *)
Definition same_store (a a' : Agent.State) : Prop :=
  Agent.failure_modes a' = Agent.failure_modes a
  /\ Agent.categories a' = Agent.categories a.

(** The feedback table is the same and the two other tables have only
    gained rows at their end. *)
Definition log_grows (d d' : Database.State) : Prop :=
  Database.solution_feedback d' = Database.solution_feedback d
  /\ (exists queries,
         Database.user_queries d'
         = (Database.user_queries d ++ queries)%list)
  /\ (exists views,
         Database.viewed_failure_modes d'
         = (Database.viewed_failure_modes d ++ views)%list).

Definition app_step (s s' : App.State) : Prop :=
  same_store (App.agent s) (App.agent s')
  /\ log_grows (App.db s) (App.db s').

Definition window_step (s s' : Window.State) : Prop :=
  app_step (Window.app s) (Window.app s').

(** Only the four panes of the failure-mode tab and the state of the
    random generator have changed. *)
Definition pane_step (s s' : Window.State) : Prop :=
  same_store (App.agent (Window.app s)) (App.agent (Window.app s'))
  /\ App.db (Window.app s') = App.db (Window.app s)
  /\ Window.vars s' = Window.vars s
  /\ Window.mode_values s' = Window.mode_values s
  /\ Window.texts s' Window.category_details_text
     = Window.texts s Window.category_details_text
  /\ Window.texts s' Window.stats_text = Window.texts s Window.stats_text.

(** The four panes. *)
Definition is_pane (area : Window.TextArea) : Prop :=
  area = Window.description_text \/ area = Window.demo_text
  \/ area = Window.analysis_text \/ area = Window.solutions_text.

(** The computation relates every state to the state it ends in. *)
Definition keeps {St A} (R : St -> St -> Prop) (m : M St A) : Prop :=
  forall s, R s (snd (m s)).

End Frames.

(* ================================================================== *)
(** * Properties *)

(* ------------------------------------------------------------------ *)
(** ** Substring containment *)

Module TextFacts.

Lemma append_assoc (a b c : string) : (a ++ b) ++ c = a ++ (b ++ c).
Proof.
  induction a as [|x a IH]; simpl.
  - reflexivity.
  - now rewrite IH.
Qed.

Lemma append_nil_r (a : string) : a ++ EmptyString = a.
Proof.
  induction a as [|x a IH]; simpl; [reflexivity | now rewrite IH].
Qed.

Lemma starts_with_iff (p s : string) :
  starts_with p s = true <-> exists post, s = p ++ post.
Proof.
  revert s; induction p as [|a p IH]; intros s; simpl.
  - split; [intros _; now exists s | reflexivity].
  - destruct s as [|b s].
    + split; [discriminate | intros [post H]; discriminate].
    + rewrite andb_true_iff, Ascii.eqb_eq, IH.
      split.
      * intros [-> [post ->]]. now exists post.
      * intros [post H]. injection H as -> ->. split; [reflexivity | now exists post].
Qed.

(** [contains] is Python's substring test: the needle sits between some
    prefix and some suffix of the haystack. *)
Lemma contains_iff (needle hay : string) :
  contains needle hay = true <-> exists pre post, hay = pre ++ needle ++ post.
Proof.
  induction hay as [|c hay IH].
  - simpl. rewrite orb_false_r, starts_with_iff. split.
    + intros [post H]. now exists EmptyString, post.
    + intros [pre [post H]]. destruct pre; [now exists post | discriminate].
  - cbn [contains]. rewrite orb_true_iff, starts_with_iff, IH. split.
    + intros [[post H] | [pre [post H]]].
      * now exists EmptyString, post.
      * exists (String c pre), post. simpl. now rewrite H.
    + intros [pre [post H]]. destruct pre as [|d pre].
      * left. now exists post.
      * right. simpl in H. injection H as _ H. now exists pre, post.
Qed.

Lemma join_app (xs ys : list string) :
  join (xs ++ ys)%list = join xs ++ join ys.
Proof.
  induction xs as [|x xs IH]; simpl.
  - reflexivity.
  - now rewrite IH, append_assoc.
Qed.

(** A loop that appends one piece per item builds the join of the pieces. *)
Lemma fold_left_append {A} (piece : A -> string) (xs : list A) (acc : string) :
  fold_left (fun acc x => acc ++ piece x) xs acc = acc ++ join (map piece xs).
Proof.
  revert acc; induction xs as [|x xs IH]; intros acc; simpl.
  - now rewrite append_nil_r.
  - now rewrite IH, append_assoc.
Qed.

End TextFacts.

(* ------------------------------------------------------------------ *)
(** ** Loops of the monad *)

Module MonadFacts.

(** A loop whose body neither raises nor writes is a left fold. *)
Lemma for_each_pure {St A B} (f : St -> B -> A -> B) (body : B -> A -> M St B)
  (xs : list A) :
  (forall acc x s, body acc x s = (Return (f s acc x), s)) ->
  forall acc s, for_each xs acc body s = (Return (fold_left (f s) xs acc), s).
Proof.
  intros Hbody. induction xs as [|x xs IH]; intros acc s; simpl.
  - reflexivity.
  - unfold bind. rewrite Hbody. apply IH.
Qed.

End MonadFacts.

(* ------------------------------------------------------------------ *)
(** ** What the generators return *)

Module AgentFacts.

Import Agent Documents TextFacts MonadFacts.

Lemma append_mode_bullets_eq (modes : list string) (response : string)
  (self : State) :
  append_mode_bullets modes response self
  = (Return (response ++ mode_bullets (failure_modes self) modes), self).
Proof.
  unfold append_mode_bullets.
  rewrite (for_each_pure
             (fun s acc mode => acc ++ mode_bullet mode (info (failure_modes s) mode)))
    by reflexivity.
  now rewrite fold_left_append.
Qed.

Lemma category_response_eq (c : option string) (self : State) :
  _generate_category_response c self
  = (Return (category_document (failure_modes self) (categories self) c), self).
Proof.
  unfold _generate_category_response, get_failure_modes_in_category, bind, gets.
  rewrite append_mode_bullets_eq. unfold category_document, modes_in.
  now rewrite ?append_assoc.
Qed.

Lemma all_failure_modes_response_eq (self : State) :
  _generate_all_failure_modes_response self
  = (Return (all_modes_document (failure_modes self) (categories self)), self).
Proof.
  unfold _generate_all_failure_modes_response, bind, gets.
  rewrite (for_each_pure
             (fun s acc (item : option string * list string) =>
                acc ++ ("## " ++ py_str (fst item) ++ nl
                        ++ mode_bullets (failure_modes s) (snd item) ++ nl))).
  - now rewrite fold_left_append.
  - intros acc [c modes] s. unfold bind. rewrite append_mode_bullets_eq.
    unfold ret. simpl fst; simpl snd. now rewrite ?append_assoc.
Qed.

Lemma all_categories_response_eq (self : State) :
  _generate_all_categories_response self
  = (Return (all_categories_document (categories self)), self).
Proof.
  unfold _generate_all_categories_response, bind, gets.
  rewrite (for_each_pure
             (fun (_ : State) acc c =>
                acc ++ ("## " ++ py_str c ++ nl ++ explain_category c ++ nl ++ nl))).
  - now rewrite fold_left_append.
  - intros acc c s. unfold ret. now rewrite ?append_assoc.
Qed.

Lemma help_response_eq (self : State) :
  _generate_help_response self = (Return help_document, self).
Proof. reflexivity. Qed.

Lemma demonstrate_eq (mode_name : string) (self : State) :
  demonstrate_failure_mode mode_name self
  = (Return (demonstration_of (failure_modes self) (rng self) mode_name),
     after_demonstration self mode_name).
Proof.
  unfold demonstrate_failure_mode, get_failure_mode_info, bind, gets.
  unfold demonstration_of, after_demonstration, scenarios_of, info.
  destruct (get_or (example_scenarios _) []); reflexivity.
Qed.

(** Without scenarios (an empty list, a missing field or an unknown mode)
    the demonstration is the placeholder and nothing is drawn. *)
Lemma demonstrate_placeholder (mode_name : string) (self : State) :
  scenarios_of (failure_modes self) mode_name = [] ->
  demonstrate_failure_mode mode_name self
  = (Return (no_demonstration mode_name), self).
Proof.
  intros H. rewrite demonstrate_eq.
  unfold demonstration_of, after_demonstration. now rewrite H.
Qed.

Lemma after_demonstration_store (self : State) (mode_name : string) :
  failure_modes (after_demonstration self mode_name) = failure_modes self
  /\ categories (after_demonstration self mode_name) = categories self.
Proof.
  unfold after_demonstration.
  destruct (scenarios_of _ _); split; reflexivity.
Qed.

(** The failure-mode generator draws the demonstration, then builds the
    document, and stops with [TypeError] at a solution list that is [null]. *)
Lemma failure_mode_response_eq (mode_name : string) (self : State) :
  _generate_failure_mode_response mode_name self
  = (failure_mode_outcome (failure_modes self) mode_name
       (demonstration_of (failure_modes self) (rng self) mode_name),
     after_demonstration self mode_name).
Proof.
  unfold _generate_failure_mode_response.
  unfold bind at 1. unfold get_failure_mode_info at 1. unfold gets at 1.
  unfold bind at 1. rewrite demonstrate_eq.
  destruct (after_demonstration_store self mode_name) as [Hfm _].
  unfold analyze_failure_mode, get_solutions, get_failure_mode_info, bind, gets, ret.
  rewrite Hfm. cbn [tactical structural].
  unfold failure_mode_outcome, tactical_of, structural_of.
  fold (info (failure_modes self) mode_name).
  destruct (get_default (tactical_solutions _) []) as [tactical|];
    [|reflexivity].
  cbn [iter]. unfold ret.
  rewrite (for_each_pure
             (fun (_ : State) acc solution => acc ++ ("- " ++ solution ++ nl)))
    by reflexivity.
  destruct (get_default (structural_solutions _) []) as [structural|];
    [|reflexivity].
  cbn [iter]. unfold ret.
  rewrite (for_each_pure
             (fun (_ : State) acc solution => acc ++ ("- " ++ solution ++ nl)))
    by reflexivity.
  rewrite !fold_left_append.
  unfold failure_mode_document, failure_mode_sections, tactical_heading,
    structural_heading, bullets, analysis_of, description_of.
  now rewrite ?append_assoc.
Qed.

Lemma info_In (fm : Taxonomy) (mode_name : string) :
  info fm mode_name = empty_info \/ In (mode_name, info fm mode_name) fm.
Proof.
  unfold info. induction fm as [|[k m] fm IH]; cbn [Dict.get].
  - now left.
  - destruct (String.eqb mode_name k) eqn:Hk.
    + apply String.eqb_eq in Hk. subst k. right. now left.
    + destruct IH as [IH|IH]; [now left | right; now right].
Qed.

Lemma get_default_not_null {A} (x : Field A) (default : A) :
  x <> Null -> exists a, get_default x default = Some a.
Proof.
  destruct x as [| |a]; intros H; cbn [get_default].
  - now exists default.
  - contradiction.
  - now exists a.
Qed.

Lemma solutions_listed_lists (fm : Taxonomy) (mode_name : string) :
  solutions_listed fm ->
  exists tactical structural,
    tactical_of fm mode_name = Some tactical
    /\ structural_of fm mode_name = Some structural.
Proof.
  intros Hall. unfold tactical_of, structural_of.
  destruct (info_In fm mode_name) as [-> | Hin].
  - exists [], []. split; reflexivity.
  - unfold solutions_listed in Hall. rewrite Forall_forall in Hall.
    destruct (Hall _ Hin) as [Ht Hs]. cbn [snd] in Ht, Hs.
    destruct (get_default_not_null _ [] Ht) as [t Ht'].
    destruct (get_default_not_null _ [] Hs) as [st Hs'].
    now exists t, st.
Qed.

(** With both solution lists present or absent, the generator returns. *)
Lemma failure_mode_outcome_lists (fm : Taxonomy) (mode_name demonstration
  : string) (tactical structural : list string) :
  tactical_of fm mode_name = Some tactical ->
  structural_of fm mode_name = Some structural ->
  failure_mode_outcome fm mode_name demonstration
  = Return (failure_mode_document fm mode_name demonstration
              tactical structural).
Proof. intros Ht Hs. unfold failure_mode_outcome. now rewrite Ht, Hs. Qed.

(** With [null] for a solution list, it raises. *)
Lemma failure_mode_outcome_null (fm : Taxonomy) (mode_name demonstration
  : string) :
  tactical_solutions (info fm mode_name) = Null
  \/ structural_solutions (info fm mode_name) = Null ->
  failure_mode_outcome fm mode_name demonstration = Raise TypeError.
Proof.
  unfold failure_mode_outcome, tactical_of, structural_of.
  intros [-> | ->]; cbn [get_default]; [reflexivity|].
  destruct (get_default (tactical_solutions _) []); reflexivity.
Qed.

End AgentFacts.

(* ------------------------------------------------------------------ *)
(** ** The router *)

Module RouterFacts.

Import Agent Documents RouterSpec TextFacts AgentFacts.

Local Arguments String.append : simpl never.

Section Router.

Variable lower : string -> string.

Lemma scan_failure_modes_find (names : list string) (request : string)
  (otherwise : M State string) (self : State) :
  scan_failure_modes lower names (lower request) otherwise self
  = match find (names_mode lower request) names with
    | Some mode_name => _generate_failure_mode_response mode_name self
    | None => otherwise self
    end.
Proof.
  induction names as [|n names IH]; simpl.
  - reflexivity.
  - unfold names_mode at 1.
    destruct (contains (lower n) (lower request)); [reflexivity | apply IH].
Qed.

Lemma scan_categories_find (keys : list (option string)) (request : string)
  (otherwise : M State string) (self : State) :
  Forall (fun k : option string => k <> None) keys ->
  scan_categories lower keys (lower request) otherwise self
  = match find (asks_category lower request)
            (flat_map (fun k : option string =>
                         match k with Some name => [name] | None => [] end) keys)
    with
    | Some name => _generate_category_response (Some name) self
    | None => otherwise self
    end.
Proof.
  induction 1 as [|k keys Hk _ IH]; simpl.
  - reflexivity.
  - destruct k as [name|]; [|contradiction]. simpl.
    unfold asks_category at 1.
    destruct (contains ("explain " ++ lower name) (lower request)
              || contains ("about " ++ lower name) (lower request));
      [reflexivity | apply IH].
Qed.

(** The second loop stops with [AttributeError] at a [None] key that no
    earlier bucket has answered. *)
Lemma scan_categories_raises (pre post : list (option string))
  (request : string) (otherwise : M State string) (self : State) :
  Forall (fun k : option string =>
            exists name, k = Some name /\ asks_category lower request name = false)
    pre ->
  scan_categories lower (pre ++ None :: post)%list (lower request) otherwise self
  = (Raise AttributeError, self).
Proof.
  induction 1 as [|k pre [name [-> Hask]] _ IH]; simpl.
  - reflexivity.
  - unfold asks_category in Hask. rewrite Hask. apply IH.
Qed.

Lemma general_requests_eq (request : string) (self : State) :
  general_requests (lower request) self
  = if asks_all_modes lower request then _generate_all_failure_modes_response self
    else if asks_all_categories lower request
         then _generate_all_categories_response self
         else _generate_help_response self.
Proof.
  unfold general_requests, asks_all_modes, asks_all_categories.
  destruct (_ || _); [reflexivity|]. destruct (_ || _); reflexivity.
Qed.

Lemma process_user_request_eq (request : string) (self : State) :
  process_user_request lower request self
  = match find (names_mode lower request) (Dict.keys (failure_modes self)) with
    | Some mode_name => _generate_failure_mode_response mode_name self
    | None =>
        scan_categories lower (Dict.keys (categories self)) (lower request)
          (general_requests (lower request)) self
    end.
Proof.
  unfold process_user_request, bind at 1, gets at 1.
  rewrite scan_failure_modes_find. reflexivity.
Qed.

(** With every bucket keyed by a name, the router is the rule of the
    specification. *)
Lemma process_user_request_named (request : string) (self : State) :
  categories_named (categories self) ->
  process_user_request lower request self
  = document (choose lower (failure_modes self) (categories self) request) self.
Proof.
  intros Hnamed. rewrite process_user_request_eq. unfold choose.
  destruct (find (names_mode lower request) _) as [n|]; [reflexivity|].
  rewrite (scan_categories_find _ _ _ _ Hnamed). unfold category_names.
  destruct (find (asks_category lower request) _) as [c|]; [reflexivity|].
  rewrite general_requests_eq.
  destruct (asks_all_modes lower request); [reflexivity|].
  destruct (asks_all_categories lower request); reflexivity.
Qed.

Lemma document_returns (c : Choice) (self : State) :
  solutions_listed (failure_modes self) ->
  exists doc self', document c self = (Return doc, self').
Proof.
  intros Hlisted. destruct c; simpl.
  - rewrite failure_mode_response_eq.
    destruct (solutions_listed_lists _ mode_name Hlisted) as [t [st [Ht Hs]]].
    rewrite (failure_mode_outcome_lists _ _ _ _ _ Ht Hs). eauto.
  - rewrite category_response_eq. eauto.
  - rewrite all_failure_modes_response_eq. eauto.
  - rewrite all_categories_response_eq. eauto.
  - rewrite help_response_eq. eauto.
Qed.

(** On an index without a [None] bucket and a taxonomy without a [null]
    solution list every request is answered. *)
Lemma process_user_request_returns (request : string) (self : State) :
  categories_named (categories self) ->
  solutions_listed (failure_modes self) ->
  exists doc self', process_user_request lower request self = (Return doc, self').
Proof.
  intros H Hlisted. rewrite (process_user_request_named _ _ H).
  now apply document_returns.
Qed.

Lemma scan_categories_state (keys : list (option string)) (request : string)
  (self : State) :
  snd (scan_categories lower keys (lower request)
         (general_requests (lower request)) self) = self.
Proof.
  induction keys as [|[name|] keys IH]; simpl.
  - rewrite general_requests_eq.
    destruct (asks_all_modes lower request);
      [now rewrite all_failure_modes_response_eq|].
    destruct (asks_all_categories lower request);
      [now rewrite all_categories_response_eq | now rewrite help_response_eq].
  - destruct (_ || _); [now rewrite category_response_eq | apply IH].
  - reflexivity.
Qed.

(** The only thing a request can change is the state of the generator, and
    only through the Demonstration section of a failure-mode document. *)
Lemma process_user_request_state (request : string) (self : State) :
  snd (process_user_request lower request self)
  = match find (names_mode lower request) (Dict.keys (failure_modes self)) with
    | Some mode_name => after_demonstration self mode_name
    | None => self
    end.
Proof.
  rewrite process_user_request_eq.
  destruct (find (names_mode lower request) _) as [n|].
  - now rewrite failure_mode_response_eq.
  - apply scan_categories_state.
Qed.

(** [find] returns the first match in list order. *)
Lemma find_first {A} (f : A -> bool) (pre post : list A) (x : A) :
  (forall y, In y pre -> f y = false) -> f x = true ->
  find f (pre ++ x :: post)%list = Some x.
Proof.
  induction pre as [|y pre IH]; intros Hpre Hx; simpl.
  - now rewrite Hx.
  - rewrite (Hpre y) by now left. apply IH; [|exact Hx].
    intros z Hz. apply Hpre. now right.
Qed.

Lemma find_split {A} (f : A -> bool) (l : list A) (x : A) :
  find f l = Some x ->
  exists pre post, l = (pre ++ x :: post)%list
                   /\ (forall y, In y pre -> f y = false) /\ f x = true.
Proof.
  induction l as [|y l IH]; simpl; [discriminate|].
  destruct (f y) eqn:Hy.
  - intros [= ->]. exists [], l. repeat split; [intros ? []|exact Hy].
  - intros H. destruct (IH H) as [pre [post [-> [Hpre Hx]]]].
    exists (y :: pre), post. repeat split; [|exact Hx].
    intros z [<-|Hz]; [exact Hy | now apply Hpre].
Qed.

Lemma scan_categories_first (pre post : list (option string)) (name : string)
  (request : string) (otherwise : M State string) (self : State) :
  Forall (fun k : option string =>
            exists n, k = Some n /\ asks_category lower request n = false)
    pre ->
  asks_category lower request name = true ->
  scan_categories lower (pre ++ Some name :: post)%list (lower request)
    otherwise self
  = _generate_category_response (Some name) self.
Proof.
  intros Hpre Hname.
  induction Hpre as [|k pre [n [-> Hask]] _ IH]; simpl.
  - unfold asks_category in Hname. now rewrite Hname.
  - unfold asks_category in Hask. rewrite Hask. apply IH.
Qed.

Lemma choose_mode_iff (fm : Taxonomy) (cats : CategoryIndex) (request : string)
  (mode_name : string) :
  choose lower fm cats request = FailureModeDoc mode_name
  <-> find (names_mode lower request) (Dict.keys fm) = Some mode_name.
Proof.
  unfold choose. destruct (find (names_mode lower request) _) as [n|].
  - split; [intros [= ->] | intros [= ->]]; reflexivity.
  - split; [|discriminate].
    destruct (find _ _); [discriminate|].
    destruct (asks_all_modes _ _); [discriminate|].
    destruct (asks_all_categories _ _); discriminate.
Qed.

(** A request that names a mode is answered by the failure-mode generator
    of that mode, with the Demonstration drawn by the generator. *)
Lemma process_user_request_mode (request : string) (self : State)
  (mode_name : string) :
  find (names_mode lower request) (Dict.keys (failure_modes self)) = Some mode_name ->
  process_user_request lower request self
  = (failure_mode_outcome (failure_modes self) mode_name
       (demonstration_of (failure_modes self) (rng self) mode_name),
     after_demonstration self mode_name).
Proof.
  intros H. rewrite process_user_request_eq, H. apply failure_mode_response_eq.
Qed.

(** Without a mode match the answer does not depend on the generator. *)
Lemma process_user_request_no_mode (request : string) (fm : Taxonomy)
  (cats : CategoryIndex) (r1 r2 : Rng) :
  find (names_mode lower request) (Dict.keys fm) = None ->
  fst (process_user_request lower request
         {| failure_modes := fm; categories := cats; rng := r1 |})
  = fst (process_user_request lower request
           {| failure_modes := fm; categories := cats; rng := r2 |}).
Proof.
  intros H. rewrite !process_user_request_eq. cbn [failure_modes categories].
  rewrite H. induction (Dict.keys cats) as [|[name|] keys IH]; simpl.
  - rewrite !general_requests_eq.
    destruct (asks_all_modes lower request);
      [now rewrite !all_failure_modes_response_eq|].
    destruct (asks_all_categories lower request);
      [now rewrite !all_categories_response_eq | now rewrite !help_response_eq].
  - destruct (_ || _); [now rewrite !category_response_eq | apply IH].
  - reflexivity.
Qed.

(** When the router raises: no identifier is named and the category loop
    reaches a [None] key before any category answers. *)
Lemma process_user_request_raises (request : string) (self : State)
  (pre post : list (option string)) :
  find (names_mode lower request) (Dict.keys (failure_modes self)) = None ->
  Dict.keys (categories self) = (pre ++ None :: post)%list ->
  Forall (fun k : option string =>
            exists name, k = Some name /\ asks_category lower request name = false)
    pre ->
  process_user_request lower request self = (Raise AttributeError, self).
Proof.
  intros Hfind Hkeys Hpre.
  rewrite process_user_request_eq, Hfind, Hkeys.
  now apply scan_categories_raises.
Qed.

End Router.

End RouterFacts.

(* ------------------------------------------------------------------ *)
(** ** Routing theorems *)

Module Routing.

Import Agent Documents RouterSpec TextFacts AgentFacts RouterFacts.

Local Arguments String.append : simpl never.

(** X29. Routing on a store whose index has no [None] bucket follows the
    strict priority order of the specification.
    (1) If a failure-mode identifier matches (its lower-cased text occurs in
    the lower-cased request) and no identifier before it in store order
    does, the request is answered by the failure-mode generator of that
    identifier, whatever the rest of the store is.
    (2) If no identifier matches, a category whose name follows "explain "
    or "about " in the request, and which no earlier category of
    [categories()] matched, returns its category document, provided the
    buckets before it are keyed by names.
    (3) On a store whose buckets are all keyed by a category name, the
    router is exactly [choose]: mode, else category, else the all-modes
    document, else the all-categories document, else the help document. *)
Theorem route_priority_order (lower : string -> string) (self : State)
  (request : string) :
  (forall pre mode_name post,
      Dict.keys (failure_modes self) = (pre ++ mode_name :: post)%list ->
      (forall m, In m pre -> names_mode lower request m = false) ->
      names_mode lower request mode_name = true ->
      process_user_request lower request self
      = _generate_failure_mode_response mode_name self)
  /\ (forall pre name post,
         (forall m, In m (Dict.keys (failure_modes self)) ->
                    names_mode lower request m = false) ->
         Dict.keys (categories self) = (pre ++ Some name :: post)%list ->
         Forall (fun k : option string =>
                   exists n, k = Some n /\ asks_category lower request n = false)
           pre ->
         asks_category lower request name = true ->
         process_user_request lower request self
         = _generate_category_response (Some name) self)
  /\ (categories_named (categories self) ->
      process_user_request lower request self
      = document (choose lower (failure_modes self) (categories self) request)
          self).
Proof.
  split; [|split].
  - intros pre n post Hkeys Hpre Hn.
    rewrite process_user_request_eq, Hkeys, (find_first _ _ _ _ Hpre Hn).
    reflexivity.
  - intros pre name post Hnone Hkeys Hpre Hname.
    rewrite process_user_request_eq.
    destruct (find (names_mode lower request) _) as [n|] eqn:Hfind.
    + apply find_some in Hfind. destruct Hfind as [Hin Hn].
      rewrite (Hnone n Hin) in Hn. discriminate.
    + rewrite Hkeys. now apply scan_categories_first.
  - apply process_user_request_named.
Qed.

Lemma route_priority_order_witness :
  categories_named (categories (init Examples.taxonomy Examples.counting))
  /\ process_user_request Text.lower "Tell me ABOUT alignment failures"
       (init Examples.taxonomy Examples.counting)
     = _generate_category_response (Some "Alignment Failures")
         (init Examples.taxonomy Examples.counting).
Proof.
  assert (H : categories_named
                (categories (init Examples.taxonomy Examples.counting))).
  { repeat constructor; discriminate. }
  split; [exact H|].
  exact (proj2 (proj2 (route_priority_order Text.lower
                         (init Examples.taxonomy Examples.counting)
                         "Tell me ABOUT alignment failures")) H).
Defined.

(** C1. The priority order does not hold on every store. On a taxonomy in
    which a record has no [category] field the index has a [None] bucket,
    and a request that names no failure mode stops with [AttributeError] in
    the category loop: a request for a category listed behind that bucket
    gets no category document, and the two listing requests and an
    unrecognised request get neither listing nor the help document, where
    the rule of the specification ([choose]) selects them. A request that
    names a failure mode is answered before the loop is reached. *)
Theorem route_priority_lost_at_none_bucket :
  let self := init Examples.uncategorised Examples.counting in
  let rule := choose Text.lower (failure_modes self) (categories self) in
  let answer request := result (process_user_request Text.lower request) self in
  Dict.keys (categories self) = [None; Some "Alignment Failures"]
  /\ rule "tell me about alignment failures" = CategoryDoc "Alignment Failures"
  /\ answer "tell me about alignment failures" = Raise AttributeError
  /\ rule "list all failure modes" = AllModesDoc
  /\ answer "list all failure modes" = Raise AttributeError
  /\ rule "list all categories" = AllCategoriesDoc
  /\ answer "list all categories" = Raise AttributeError
  /\ rule "what can you do?" = HelpDoc
  /\ answer "what can you do?" = Raise AttributeError
  /\ rule "signal distortion" = FailureModeDoc "Signal Distortion"
  /\ answer "signal distortion"
     = result (_generate_failure_mode_response "Signal Distortion") self.
Proof. repeat split. Qed.

(** C2. The router is not total. On a taxonomy in which a record has no
    [category] field the index has a [None] bucket; a request that names no
    failure mode reaches [category.lower()] on that key and the call raises
    [AttributeError] where the specification promises the help document. *)
Theorem route_raises_without_category :
  result (process_user_request Text.lower "hello")
    (init Examples.uncategorised Examples.counting)
  = Raise AttributeError.
Proof. reflexivity. Qed.

(** C7. A request that selects a failure mode whose two solution lists are
    lists (or are absent, which reads as the empty list) returns a document
    that ends with a blank line, the line [### Tactical Solutions], one line
    "- solution" per tactical solution in list order, a blank line, the line
    [### Structural Solutions] and one line "- solution" per structural
    solution in list order. When the structural list is empty the document
    ends with the Structural Solutions heading itself, and when the tactical
    list is empty the Structural heading follows the Tactical heading
    directly: the subsection stays, with no bullet under it. A record that
    holds [null] for one of the lists has no list to render: the loop over
    it raises [TypeError] and no document is returned. *)
Theorem solutions_subsections_rendered (lower : string -> string)
  (self : State) (request mode_name : string) :
  choose lower (failure_modes self) (categories self) request
  = FailureModeDoc mode_name ->
  let fm := failure_modes self in
  let record := info fm mode_name in
  let sections :=
    failure_mode_sections fm mode_name
      (demonstration_of fm (rng self) mode_name) in
  let answer := result (process_user_request lower request) self in
  (forall tactical structural,
      get_default (tactical_solutions record) [] = Some tactical ->
      get_default (structural_solutions record) [] = Some structural ->
      answer
      = Return (sections
                ++ nl ++ "### Tactical Solutions" ++ nl
                ++ join (map (fun solution => "- " ++ solution ++ nl) tactical)
                ++ nl ++ "### Structural Solutions" ++ nl
                ++ join (map (fun solution => "- " ++ solution ++ nl)
                           structural)))
  /\ (forall tactical,
         get_default (tactical_solutions record) [] = Some tactical ->
         get_default (structural_solutions record) [] = Some [] ->
         answer
         = Return (sections
                   ++ nl ++ "### Tactical Solutions" ++ nl
                   ++ join (map (fun solution => "- " ++ solution ++ nl)
                              tactical)
                   ++ nl ++ "### Structural Solutions" ++ nl))
  /\ (forall structural,
         get_default (tactical_solutions record) [] = Some [] ->
         get_default (structural_solutions record) [] = Some structural ->
         answer
         = Return (sections
                   ++ nl ++ "### Tactical Solutions" ++ nl
                   ++ nl ++ "### Structural Solutions" ++ nl
                   ++ join (map (fun solution => "- " ++ solution ++ nl)
                              structural)))
  /\ (tactical_solutions record = Null \/ structural_solutions record = Null ->
      answer = Raise TypeError).
Proof.
  intros Hchoose fm record sections answer.
  apply choose_mode_iff in Hchoose.
  assert (Hanswer : answer
                    = failure_mode_outcome fm mode_name
                        (demonstration_of fm (rng self) mode_name)).
  { unfold answer, result.
    now rewrite (process_user_request_mode _ _ _ _ Hchoose). }
  assert (Hlists : forall tactical structural,
             get_default (tactical_solutions record) [] = Some tactical ->
             get_default (structural_solutions record) [] = Some structural ->
             answer
             = Return (sections
                       ++ nl ++ "### Tactical Solutions" ++ nl
                       ++ join (map (fun solution => "- " ++ solution ++ nl)
                                  tactical)
                       ++ nl ++ "### Structural Solutions" ++ nl
                       ++ join (map (fun solution => "- " ++ solution ++ nl)
                                  structural))).
  { intros tactical structural Ht Hs. rewrite Hanswer.
    rewrite (failure_mode_outcome_lists fm mode_name _ tactical structural Ht Hs).
    unfold failure_mode_document, tactical_heading, structural_heading, bullets.
    fold sections. now rewrite ?append_assoc. }
  split; [exact Hlists | split; [|split]].
  - intros tactical Ht Hs. rewrite (Hlists tactical [] Ht Hs).
    cbn [map join]. now rewrite ?append_nil_r.
  - intros structural Ht Hs. rewrite (Hlists [] structural Ht Hs).
    reflexivity.
  - intros Hnull. rewrite Hanswer. now apply failure_mode_outcome_null.
Qed.

Lemma solutions_subsections_rendered_witness :
  result (process_user_request Text.lower "what is information withholding?")
    (init Examples.taxonomy (Examples.constant 1))
  = Return ("# Information Withholding (Category: Communication Failures)"
            ++ nl ++ nl ++ "## Definition" ++ nl
            ++ "An agent does not pass on what the others need."
            ++ nl ++ nl ++ "## Demonstration" ++ nl
            ++ "A tester hides a failing test."
            ++ nl ++ nl ++ "## PhD-Level Analysis" ++ nl
            ++ "Sharing has a cost and no reward."
            ++ nl ++ nl ++ "## Solutions" ++ nl
            ++ nl ++ "### Tactical Solutions" ++ nl
            ++ "- Require status reports." ++ nl
            ++ "- Log every message." ++ nl
            ++ nl ++ "### Structural Solutions" ++ nl).
Proof.
  exact (proj1 (proj2 (solutions_subsections_rendered Text.lower
                         (init Examples.taxonomy (Examples.constant 1))
                         "what is information withholding?"
                         "Information Withholding" eq_refl))
           ["Require status reports."; "Log every message."]
           eq_refl eq_refl).
Defined.

Lemma drawn_In (r : Rng) (seq : list string) :
  seq <> [] -> In (drawn r seq) seq.
Proof.
  intros Hseq. unfold drawn. apply nth_In. apply Nat.mod_upper_bound.
  destruct seq; [contradiction | discriminate].
Qed.

(** Every scenario is the outcome of some draw: the value [i] below the
    length of the list selects the scenario at position [i]. *)
Lemma drawn_at (e : nat -> nat) (d : nat) (seq : list string) (i : nat) :
  (i < List.length seq)%nat -> e d = i ->
  drawn {| entropy := e; draws := d |} seq = nth i seq EmptyString.
Proof.
  intros Hi He. unfold drawn. cbn [entropy draws].
  now rewrite He, Nat.mod_small.
Qed.

(** C8. A call of the router leaves the taxonomy store as it was: the
    failure-mode dictionary and the category index of the agent after the
    call are those before it, whether the call returns or raises. The
    router runs on the agent alone, so the interaction log of the
    application is the same before and after routing. The log entry of a
    query is written by the caller, [_process_query], which appends the
    stripped query text before it calls the router, and writes nothing for a
    blank entry. *)
Theorem route_leaves_state_unchanged (lower strip : string -> string)
  (request : string) :
  (forall self,
      failure_modes (final (process_user_request lower request) self)
      = failure_modes self
      /\ categories (final (process_user_request lower request) self)
         = categories self)
  /\ (forall app,
         App.db (final (App.on_agent (process_user_request lower request)) app)
         = App.db app)
  /\ (forall now app,
         App.db (final (App._process_query lower strip now) app)
         = match strip (App.query_entry app) with
           | EmptyString => App.db app
           | String _ _ as query =>
               final (Database.log_user_query now query) (App.db app)
           end).
Proof.
  split; [|split].
  - intros self. unfold final. rewrite process_user_request_state.
    destruct (find _ _); [apply after_demonstration_store | now split].
  - intros app. unfold final, App.on_agent.
    destruct (process_user_request lower request (App.agent app)). reflexivity.
  - intros now app. unfold final, App._process_query, bind at 1, gets at 1.
    destruct (strip (App.query_entry app)) as [|c q] eqn:Hq; [reflexivity|].
    unfold bind, App.on_db, App.on_agent, App.set_response_text,
      App.clear_query_entry, modify.
    destruct (Database.log_user_query now (String c q) (App.db app))
      as [[id|e] db'] eqn:Hlog; cbn [App.agent App.db snd].
    + destruct (process_user_request lower (String c q) (App.agent app))
        as [[doc|e] agent']; reflexivity.
    + reflexivity.
Qed.

Lemma map_nth_seq {A} (l : list A) (d : A) :
  map (fun i => nth i l d) (seq 0 (List.length l)) = l.
Proof.
  apply (nth_ext _ _ d d).
  - now rewrite length_map, length_seq.
  - intros n Hn. rewrite length_map, length_seq in Hn.
    rewrite (nth_indep _ d (nth 0 l d)) by now rewrite length_map, length_seq.
    rewrite (map_nth (fun i => nth i l d) (seq 0 (List.length l)) 0%nat n).
    now rewrite seq_nth.
Qed.

(** C9. For a fixed store and a fixed request the branch the router takes,
    and the failure mode it selects, are a function of the store and the
    request alone: the first identifier in store order that the request
    names, found before anything is drawn. Runs that differ in the state of
    the random generator differ at most in the Demonstration text.
    - When no identifier is named, any two runs end alike and the generator
      is not used.
    - When the selected mode has no scenarios, every run shows the
      placeholder and the generator is not used.
    - Otherwise every run shows the scenario of [example_scenarios] at the
      position given by the one value it draws, reduced modulo the number
      of scenarios, and leaves the generator one draw further, so that a
      second call on the same agent draws the next value. As the drawn
      value runs through one period, the answers run through the documents
      of all scenarios, each once: a generator with equally likely values
      selects every scenario equally often.
    The outcome of a run is the failure-mode document around that
    Demonstration text, or [TypeError] when the record holds [null] for a
    solution list, in every run alike. *)
Theorem route_choice_independent_of_draw (lower : string -> string)
  (fm : Taxonomy) (cats : CategoryIndex) (request : string) :
  let agent r := {| failure_modes := fm; categories := cats; rng := r |} in
  let route := process_user_request lower request in
  match find (names_mode lower request) (Dict.keys fm) with
  | None =>
      forall r1 r2,
        result route (agent r1) = result route (agent r2)
        /\ final route (agent r1) = agent r1
  | Some mode_name =>
      match get_or (example_scenarios (info fm mode_name)) [] with
      | [] =>
          forall r,
            result route (agent r)
            = failure_mode_outcome fm mode_name
                ("No demonstration scenarios available for " ++ mode_name
                 ++ ".")
            /\ final route (agent r) = agent r
      | first :: rest =>
          let scenarios := first :: rest in
          let size := List.length scenarios in
          (forall r,
              result route (agent r)
              = failure_mode_outcome fm mode_name
                  (nth (entropy r (draws r) mod size) scenarios EmptyString)
              /\ final route (agent r)
                 = agent {| entropy := entropy r; draws := S (draws r) |})
          /\ (forall r,
                 result (_ <- route ;; route) (agent r)
                 = failure_mode_outcome fm mode_name
                     (nth (entropy r (S (draws r)) mod size) scenarios
                        EmptyString))
          /\ (forall d,
                 map (fun value =>
                        result route
                          (agent {| entropy := fun _ => value; draws := d |}))
                   (seq 0 size)
                 = map (failure_mode_outcome fm mode_name) scenarios)
      end
  end.
Proof.
  intros agent route.
  destruct (find (names_mode lower request) (Dict.keys fm)) as [n|] eqn:Hfind.
  - assert (Hrun : forall r,
               route (agent r)
               = (failure_mode_outcome fm n (demonstration_of fm r n),
                  after_demonstration (agent r) n)).
    { intros r. unfold route.
      now rewrite (process_user_request_mode lower request (agent r) n Hfind). }
    unfold demonstration_of, after_demonstration, scenarios_of in Hrun.
    cbn [failure_modes agent] in Hrun.
    destruct (get_or (example_scenarios (info fm n)) []) as [|first rest].
    + intros r. unfold result, final. rewrite Hrun. now split.
    + cbv zeta.
      assert (Hone : forall r,
                 result route (agent r)
                 = failure_mode_outcome fm n
                     (nth (entropy r (draws r) mod List.length (first :: rest))
                        (first :: rest) EmptyString)
                 /\ final route (agent r)
                    = agent {| entropy := entropy r; draws := S (draws r) |}).
      { intros r. unfold result, final. rewrite Hrun. now split. }
      split; [exact Hone | split].
      * intros r. unfold result, bind. rewrite Hrun. unfold drawn, advance.
        cbn [failure_modes categories rng agent entropy draws].
        unfold failure_mode_outcome at 1.
        destruct (tactical_of fm n) as [t|] eqn:Ht;
          [|unfold failure_mode_outcome; now rewrite Ht].
        destruct (structural_of fm n) as [st|] eqn:Hs;
          [|unfold failure_mode_outcome; now rewrite Ht, Hs].
        fold (agent {| entropy := entropy r; draws := S (draws r) |}).
        rewrite Hrun. reflexivity.
      * intros d.
        rewrite <- (map_nth_seq (first :: rest) EmptyString) at 2.
        rewrite map_map. apply map_ext_in. intros value Hin.
        apply in_seq in Hin. destruct (Hone {| entropy := fun _ => value;
                                               draws := d |}) as [-> _].
        cbn [entropy draws]. rewrite Nat.mod_small by lia. reflexivity.
  - intros r1 r2. split.
    + now apply process_user_request_no_mode.
    + unfold final, route. rewrite process_user_request_state.
      cbn [failure_modes agent]. now rewrite Hfind.
Qed.

(** Two generators, two scenarios, and the same document around them. *)
Example two_runs_differ_in_the_scenario_only :
  let route := process_user_request Text.lower "information withholding" in
  let answer value :=
    result route (init Examples.taxonomy (Examples.constant value)) in
  let document demonstration :=
    Return ("# Information Withholding (Category: Communication Failures)"
            ++ nl ++ nl ++ "## Definition" ++ nl
            ++ "An agent does not pass on what the others need."
            ++ nl ++ nl ++ "## Demonstration" ++ nl ++ demonstration
            ++ nl ++ nl ++ "## PhD-Level Analysis" ++ nl
            ++ "Sharing has a cost and no reward."
            ++ nl ++ nl ++ "## Solutions" ++ nl
            ++ nl ++ "### Tactical Solutions" ++ nl
            ++ "- Require status reports." ++ nl
            ++ "- Log every message." ++ nl
            ++ nl ++ "### Structural Solutions" ++ nl) in
  answer 0%nat = document "A planner never forwards the deadline."
  /\ answer 1%nat = document "A tester hides a failing test."
  /\ answer 2%nat = document "A planner never forwards the deadline.".
Proof. repeat split. Qed.

(** The handler on a sample window: the entry is stripped, logged at the
    time of the call and then routed; the entry field is cleared. *)
Example process_query_logs_then_routes :
  let app :=
    {| App.agent := init Examples.taxonomy Examples.counting;
       App.db := Database._create_tables;
       App.query_entry := "  list all categories ";
       App.response_text := EmptyString |} in
  let app' := final (App._process_query Text.lower Text.strip 1700000000) app in
  Database.user_queries (App.db app')
  = [ {| Database.q_id := 1; Database.q_query := "list all categories";
         Database.q_timestamp := 1700000000 |} ]
  /\ App.response_text app'
     = all_categories_document (categories (App.agent app))
  /\ App.query_entry app' = EmptyString
  /\ App.agent app' = App.agent app.
Proof. repeat split. Qed.

End Routing.

(* ------------------------------------------------------------------ *)
(** ** The category index *)

Module IndexFacts.

Import Agent Documents IndexSpec.

Lemma opt_eqb_eq (a b : option string) : Dict.opt_eqb a b = true <-> a = b.
Proof.
  destruct a as [x|], b as [y|]; simpl; try (split; congruence).
  rewrite String.eqb_eq. split; congruence.
Qed.

Lemma opt_eqb_refl (a : option string) : Dict.opt_eqb a a = true.
Proof. now apply opt_eqb_eq. Qed.

Lemma opt_eqb_neq (a b : option string) : Dict.opt_eqb a b = false <-> a <> b.
Proof.
  rewrite <- opt_eqb_eq. destruct (Dict.opt_eqb a b); split; congruence.
Qed.

Section Buckets.

Local Abbreviation get :=
  (@Dict.get (option string) (list string) Dict.opt_eqb).
Local Abbreviation mem :=
  (@Dict.mem (option string) (list string) Dict.opt_eqb).
Local Abbreviation set :=
  (@Dict.set (option string) (list string) Dict.opt_eqb).
Local Abbreviation update :=
  (@Dict.update (option string) (list string) Dict.opt_eqb).

Lemma get_None_iff (c : option string) (d : CategoryIndex) :
  get c d = None <-> ~ In c (Dict.keys d).
Proof.
  induction d as [|[k v] d IH]; simpl.
  - tauto.
  - destruct (Dict.opt_eqb c k) eqn:E.
    + apply opt_eqb_eq in E. subst. split; [discriminate | tauto].
    + apply opt_eqb_neq in E. rewrite IH. split.
      * intros H [H'|H']; [congruence | tauto].
      * tauto.
Qed.

Lemma keys_update (c : option string) (f : list string -> list string)
  (d : CategoryIndex) :
  Dict.keys (update c f d) = Dict.keys d.
Proof.
  induction d as [|[k v] d IH]; simpl; [reflexivity|].
  destruct (Dict.opt_eqb c k); simpl; [reflexivity | now rewrite IH].
Qed.

Lemma keys_set_new (c : option string) (v : list string) (d : CategoryIndex) :
  get c d = None -> Dict.keys (set c v d) = (Dict.keys d ++ [c])%list.
Proof.
  induction d as [|[k w] d IH]; simpl; [reflexivity|].
  destruct (Dict.opt_eqb c k); [discriminate|].
  intros H. simpl. now rewrite IH.
Qed.

Lemma get_update (c k : option string) (f : list string -> list string)
  (d : CategoryIndex) :
  get c (update k f d)
  = if Dict.opt_eqb k c then option_map f (get c d) else get c d.
Proof.
  induction d as [|[k' v] d IH]; simpl.
  - now destruct (Dict.opt_eqb k c).
  - destruct (Dict.opt_eqb k k') eqn:Ekk'; simpl.
    + apply opt_eqb_eq in Ekk'. subst k'.
      destruct (Dict.opt_eqb c k) eqn:Eck.
      * apply opt_eqb_eq in Eck. subst c. now rewrite opt_eqb_refl.
      * assert (Dict.opt_eqb k c = false) as ->; [|reflexivity].
        apply opt_eqb_neq. apply opt_eqb_neq in Eck. congruence.
    + destruct (Dict.opt_eqb c k') eqn:Eck'.
      * apply opt_eqb_eq in Eck'. subst k'. now rewrite Ekk'.
      * apply IH.
Qed.

Lemma get_set_new (c k : option string) (v : list string) (d : CategoryIndex) :
  get k d = None ->
  get c (set k v d) = if Dict.opt_eqb k c then Some v else get c d.
Proof.
  induction d as [|[k' w] d IH]; simpl.
  - intros _. destruct (Dict.opt_eqb c k) eqn:E.
    + apply opt_eqb_eq in E. subst. now rewrite opt_eqb_refl.
    + assert (Dict.opt_eqb k c = false) as ->; [|reflexivity].
      apply opt_eqb_neq. apply opt_eqb_neq in E. congruence.
  - destruct (Dict.opt_eqb k k') eqn:Ekk'; [discriminate|]. intros Hk. simpl.
    destruct (Dict.opt_eqb c k') eqn:Eck'.
    + apply opt_eqb_eq in Eck'. subst k'. now rewrite Ekk'.
    + now apply IH.
Qed.

(** One turn of the loop: the bucket of the record's category gains the
    identifier at its end, the other buckets stay. *)
Lemma get_organize_step (c : option string) (acc : CategoryIndex)
  (name : string) (m : FailureMode) :
  get c (organize_step acc (name, m))
  = if Dict.opt_eqb (category m) c
    then Some (get_or (get c acc) [] ++ [name])%list
    else get c acc.
Proof.
  unfold organize_step, Dict.mem.
  destruct (get (category m) acc) as [b|] eqn:Hcat.
  - rewrite get_update. destruct (Dict.opt_eqb (category m) c) eqn:E.
    + apply opt_eqb_eq in E. subst c. now rewrite Hcat.
    + reflexivity.
  - rewrite get_update, (get_set_new _ _ _ _ Hcat).
    destruct (Dict.opt_eqb (category m) c) eqn:E.
    + apply opt_eqb_eq in E. subst c. now rewrite Hcat.
    + reflexivity.
Qed.

Lemma keys_organize_step (acc : CategoryIndex) (name : string)
  (m : FailureMode) :
  Dict.keys (organize_step acc (name, m))
  = if mem (category m) acc then Dict.keys acc
    else (Dict.keys acc ++ [category m])%list.
Proof.
  unfold organize_step, Dict.mem. rewrite keys_update.
  destruct (get (category m) acc) eqn:Hcat; [reflexivity|].
  now apply keys_set_new.
Qed.

Lemma NoDup_snoc {A} (l : list A) (x : A) :
  NoDup l -> ~ In x l -> NoDup (l ++ [x])%list.
Proof.
  induction 1 as [|y l Hy Hl IH]; intros Hx; simpl.
  - constructor; [intros [] | constructor].
  - constructor.
    + rewrite in_app_iff. intros [H|[H|[]]]; [contradiction|].
      subst. apply Hx. now left.
    + apply IH. intros H. apply Hx. now right.
Qed.

Lemma NoDup_keys_organize_step (acc : CategoryIndex)
  (item : string * FailureMode) :
  NoDup (Dict.keys acc) -> NoDup (Dict.keys (organize_step acc item)).
Proof.
  destruct item as [name m]. intros Hacc. rewrite keys_organize_step.
  unfold Dict.mem. destruct (get (category m) acc) eqn:Hcat; [exact Hacc|].
  apply get_None_iff in Hcat. now apply NoDup_snoc.
Qed.

Lemma NoDup_keys_fold (fm : Taxonomy) (acc : CategoryIndex) :
  NoDup (Dict.keys acc) -> NoDup (Dict.keys (fold_left organize_step fm acc)).
Proof.
  revert acc; induction fm as [|item fm IH]; intros acc Hacc; simpl.
  - exact Hacc.
  - apply IH. now apply NoDup_keys_organize_step.
Qed.

(** The bucket of [c] after the loop: what it held, then the members of
    [c] in store order. *)
Lemma get_fold (c : option string) (fm : Taxonomy) (acc : CategoryIndex) :
  get c (fold_left organize_step fm acc)
  = match get c acc, members c fm with
    | None, [] => None
    | b, ms => Some (get_or b [] ++ ms)%list
    end.
Proof.
  revert acc; induction fm as [|[name m] fm IH]; intros acc; cbn [fold_left].
  - unfold members. simpl. destruct (get c acc); [now rewrite app_nil_r | reflexivity].
  - rewrite IH, get_organize_step. unfold members. cbn [filter snd].
    destruct (Dict.opt_eqb (category m) c); cbn [map fst get_or].
    + destruct (get c acc); cbn [get_or]; now rewrite <- app_assoc.
    + reflexivity.
Qed.

End Buckets.

Lemma modes_in_organize (c : option string) (fm : Taxonomy) :
  modes_in (_organize_categories fm) c = members c fm.
Proof.
  unfold modes_in, _organize_categories. rewrite get_fold. simpl.
  now destruct (members c fm).
Qed.

Lemma NoDup_categories (fm : Taxonomy) :
  NoDup (Dict.keys (_organize_categories fm)).
Proof. apply NoDup_keys_fold. constructor. Qed.

Lemma category_in_keys (fm : Taxonomy) (name : string) (m : FailureMode) :
  In (name, m) fm -> In (category m) (Dict.keys (_organize_categories fm)).
Proof.
  intros Hin.
  destruct (in_dec category_dec (category m) (Dict.keys (_organize_categories fm)))
    as [H|H]; [exact H|].
  apply get_None_iff in H. unfold _organize_categories in H.
  rewrite get_fold in H. simpl in H.
  destruct (members (category m) fm) eqn:Hm; [|discriminate].
  exfalso. unfold members in Hm.
  assert (Hf : In (name, m)
                 (filter (fun item : string * FailureMode =>
                            Dict.opt_eqb (category (snd item)) (category m)) fm)).
  { apply filter_In. split; [exact Hin | apply opt_eqb_refl]. }
  apply (in_map fst) in Hf. rewrite Hm in Hf. exact Hf.
Qed.

(** With distinct identifiers, an identifier is listed once among the
    members of its record's category and nowhere else. *)
Lemma count_members (c : option string) (fm : Taxonomy) (name : string)
  (m : FailureMode) :
  NoDup (Dict.keys fm) -> In (name, m) fm ->
  count_occ string_dec (members c fm) name
  = if Dict.opt_eqb (category m) c then 1%nat else 0%nat.
Proof.
  induction fm as [|[n' m'] fm IH]; intros Hnd Hin; [contradiction|].
  simpl in Hnd. inversion Hnd as [|? ? Hnotin Hnd']; subst.
  assert (Hother : forall l : Taxonomy,
             (forall x, In x l -> In (fst x) (Dict.keys fm)) ->
             ~ In n' (Dict.keys fm) ->
             count_occ string_dec
               (map fst (filter (fun item : string * FailureMode =>
                                   Dict.opt_eqb (category (snd item)) c) l)) n'
             = 0%nat).
  { intros l Hl Hn. apply count_occ_not_In. intros Hc.
    apply in_map_iff in Hc. destruct Hc as [x [Hx Hxin]].
    apply filter_In in Hxin. destruct Hxin as [Hxin _].
    apply Hn. rewrite <- Hx. now apply Hl. }
  destruct Hin as [Heq|Hin].
  - injection Heq as -> ->. unfold members. simpl.
    destruct (Dict.opt_eqb (category m) c); simpl.
    + destruct (string_dec name name) as [_|Hne]; [|contradiction].
      f_equal. apply Hother; [|exact Hnotin].
      intros x Hx. now apply in_map.
    + apply Hother; [|exact Hnotin]. intros x Hx. now apply in_map.
  - assert (Hne : n' <> name).
    { intros ->. apply Hnotin. apply (in_map fst) in Hin. exact Hin. }
    unfold members. simpl.
    destruct (Dict.opt_eqb (category m') c); simpl.
    + destruct (string_dec n' name) as [He|_]; [contradiction|].
      now apply IH.
    + now apply IH.
Qed.

End IndexFacts.

(* ------------------------------------------------------------------ *)
(** ** Index theorems *)

Module Index.

Import Agent Documents IndexSpec IndexFacts.

(** C6. After construction of the store from a collection with distinct
    identifiers, the category of every record (in particular every
    non-empty category) occurs exactly once in [categories()], and the
    identifier of the record occurs exactly once in [modesIn] of that
    category; that bucket lists the identifiers of the category in the order
    of the collection. *)
Theorem category_and_mode_indexed_once (fm : Taxonomy) (r : Rng)
  (name : string) (m : FailureMode) :
  NoDup (Dict.keys fm) -> In (name, m) fm ->
  exists cs ms,
    result get_all_categories (init fm r) = Return cs
    /\ result (get_failure_modes_in_category (category m)) (init fm r)
       = Return ms
    /\ count_occ category_dec cs (category m) = 1%nat
    /\ count_occ string_dec ms name = 1%nat
    /\ ms = members (category m) fm.
Proof.
  intros Hnd Hin.
  exists (Dict.keys (_organize_categories fm)), (members (category m) fm).
  repeat split.
  - unfold result, get_failure_modes_in_category, gets, init. cbn [fst categories].
    f_equal. apply modes_in_organize.
  - apply NoDup_count_occ'; [apply NoDup_categories|].
    now apply category_in_keys with (name := name).
  - rewrite (count_members _ _ _ _ Hnd Hin). now rewrite opt_eqb_refl.
Qed.

Lemma category_and_mode_indexed_once_witness :
  exists cs ms,
    result get_all_categories (init Examples.taxonomy Examples.counting)
    = Return cs
    /\ result (get_failure_modes_in_category (Some "Communication Failures"))
         (init Examples.taxonomy Examples.counting)
       = Return ms
    /\ count_occ category_dec cs (Some "Communication Failures") = 1%nat
    /\ count_occ string_dec ms "Decision Paralysis" = 1%nat
    /\ ms = members (Some "Communication Failures") Examples.taxonomy.
Proof.
  apply (category_and_mode_indexed_once Examples.taxonomy Examples.counting
           "Decision Paralysis" Examples.paralysis).
  - repeat constructor; simpl; intuition discriminate.
  - right; right; left; reflexivity.
Defined.

(** C10. A collection (with distinct identifiers) that holds a record
    without a [category] field is indexed all the same: [None] is a key of
    the index, once, the bucket of [None] holds the identifier of that
    record, and every identifier of the collection is listed once in the
    bucket of its record's category and in no other bucket. *)
Theorem record_without_category_indexed (fm : Taxonomy) (r : Rng)
  (name : string) (m : FailureMode) :
  NoDup (Dict.keys fm) -> In (name, m) fm -> category m = None ->
  exists cs ms,
    result get_all_categories (init fm r) = Return cs
    /\ result (get_failure_modes_in_category None) (init fm r) = Return ms
    /\ count_occ category_dec cs None = 1%nat
    /\ In name ms
    /\ forall name' m' c,
         In (name', m') fm ->
         count_occ string_dec (modes_in (categories (init fm r)) c) name'
         = if Dict.opt_eqb (category m') c then 1%nat else 0%nat.
Proof.
  intros Hnd Hin Hcat.
  exists (Dict.keys (_organize_categories fm)), (members None fm).
  repeat split.
  - unfold result, get_failure_modes_in_category, gets, init. cbn [fst categories].
    f_equal. apply modes_in_organize.
  - apply NoDup_count_occ'; [apply NoDup_categories|].
    rewrite <- Hcat. now apply category_in_keys with (name := name).
  - apply (count_occ_In string_dec).
    rewrite (count_members _ _ _ _ Hnd Hin), Hcat. simpl. lia.
  - intros name' m' c Hin'. cbn [init categories].
    rewrite modes_in_organize. now apply count_members.
Qed.

Lemma record_without_category_indexed_witness :
  exists cs ms,
    result get_all_categories (init Examples.uncategorised Examples.counting)
    = Return cs
    /\ result (get_failure_modes_in_category None)
         (init Examples.uncategorised Examples.counting)
       = Return ms
    /\ count_occ category_dec cs None = 1%nat
    /\ In "Signal Distortion" ms
    /\ forall name' m' c,
         In (name', m') Examples.uncategorised ->
         count_occ string_dec
           (modes_in (categories (init Examples.uncategorised Examples.counting))
              c) name'
         = if Dict.opt_eqb (category m') c then 1%nat else 0%nat.
Proof.
  apply (record_without_category_indexed Examples.uncategorised
           Examples.counting "Signal Distortion" empty_info).
  - repeat constructor; simpl; intuition discriminate.
  - left; reflexivity.
  - reflexivity.
Defined.

End Index.

(* ------------------------------------------------------------------ *)
(** ** The SQL operators *)

Module SqlFacts.

Import Database LogSpec.

Local Open Scope Z_scope.

Section Ordering.

Context {A : Type}.
Variable key : A -> Z.

Lemma insert_desc_In (x y : A) (sorted : list A) :
  In y (insert_desc key x sorted) <-> y = x \/ In y sorted.
Proof.
  induction sorted as [|z rest IH]; simpl.
  - intuition.
  - destruct (key z <? key x); simpl; [intuition | rewrite IH; intuition].
Qed.

Lemma insert_desc_perm (x : A) (sorted : list A) :
  Permutation (insert_desc key x sorted) (x :: sorted).
Proof.
  induction sorted as [|z rest IH]; simpl.
  - reflexivity.
  - destruct (key z <? key x); [reflexivity|].
    rewrite IH. apply perm_swap.
Qed.

Lemma fold_insert_perm (rows acc : list A) :
  Permutation (fold_left (fun sorted x => insert_desc key x sorted) rows acc)
    (acc ++ rows).
Proof.
  revert acc; induction rows as [|x rows IH]; intros acc; simpl.
  - now rewrite app_nil_r.
  - rewrite IH, insert_desc_perm. apply Permutation_middle.
Qed.

(** [ORDER BY] rearranges the rows and neither drops nor invents one. *)
Lemma order_by_desc_perm (rows : list A) :
  Permutation (order_by_desc key rows) rows.
Proof. apply (fold_insert_perm rows []). Qed.

Section Insert.

Variable R : A -> A -> Prop.
Hypothesis R_key : forall a b, R a b -> key b <= key a.

Lemma insert_desc_sorted (x : A) (sorted : list A) :
  (forall y, In y sorted -> key x <= key y -> R y x) ->
  (forall y, In y sorted -> key y < key x -> R x y) ->
  StronglySorted R sorted -> StronglySorted R (insert_desc key x sorted).
Proof.
  induction sorted as [|y rest IH]; intros Hge Hlt Hs; simpl.
  - repeat constructor.
  - inversion Hs as [|? ? Hrest Hall]; subst.
    rewrite Forall_forall in Hall.
    destruct (key y <? key x) eqn:E.
    + apply Z.ltb_lt in E. constructor; [exact Hs|].
      apply Forall_forall. intros z [<-|Hz].
      * apply Hlt; [now left | exact E].
      * apply Hlt; [now right|]. specialize (R_key _ _ (Hall z Hz)). lia.
    + apply Z.ltb_ge in E. constructor.
      * apply IH; [| |exact Hrest].
        -- intros z Hz. apply Hge. now right.
        -- intros z Hz. apply Hlt. now right.
      * apply Forall_forall. intros z Hz. apply insert_desc_In in Hz.
        destruct Hz as [->|Hz]; [|now apply Hall].
        apply Hge; [now left | exact E].
Qed.

End Insert.

(** The result is in descending key order. *)
Lemma order_by_desc_descending (rows : list A) :
  StronglySorted (fun a b => key b <= key a) (order_by_desc key rows).
Proof.
  unfold order_by_desc.
  assert (H : forall acc,
             StronglySorted (fun a b => key b <= key a) acc ->
             StronglySorted (fun a b => key b <= key a)
               (fold_left (fun sorted x => insert_desc key x sorted) rows acc)).
  { induction rows as [|x rows IH]; intros acc Hacc; simpl; [exact Hacc|].
    apply IH. apply insert_desc_sorted; [auto | auto | intros; lia | exact Hacc]. }
  apply H. constructor.
Qed.

(** Rows with equal keys keep the order of the scan: when [pos] grows along
    the scan, the result is ranked by key and then by [pos]. *)
Lemma order_by_desc_stable (pos : A -> Z) (rows : list A) :
  StronglySorted (fun a b => pos a < pos b) rows ->
  StronglySorted (ranked_before key pos) (order_by_desc key rows).
Proof.
  unfold order_by_desc.
  assert (H : forall acc,
             StronglySorted (ranked_before key pos) acc ->
             (forall y x, In y acc -> In x rows -> pos y < pos x) ->
             StronglySorted (fun a b => pos a < pos b) rows ->
             StronglySorted (ranked_before key pos)
               (fold_left (fun sorted x => insert_desc key x sorted) rows acc)).
  { induction rows as [|x rows IH]; intros acc Hacc Hpos Hrows; simpl;
      [exact Hacc|].
    inversion Hrows as [|? ? Hrows' Hx]; subst. rewrite Forall_forall in Hx.
    apply IH; [| |exact Hrows'].
    - apply insert_desc_sorted; [| | |exact Hacc].
      + intros a b [Hab|[Hab _]]; lia.
      + intros y Hy Hk. unfold ranked_before.
        assert (pos y < pos x) by (apply Hpos; [exact Hy | now left]). lia.
      + intros y Hy Hk. now left.
    - intros y x' Hy Hx'. apply insert_desc_In in Hy. destruct Hy as [->|Hy].
      + now apply Hx.
      + apply Hpos; [exact Hy | now right]. }
  intros Hrows. apply H; [constructor | intros y x [] | exact Hrows].
Qed.

Lemma firstn_In (n : nat) (l : list A) (y : A) :
  In y (firstn n l) -> In y l.
Proof.
  intros H. rewrite <- (firstn_skipn n l). apply in_or_app. now left.
Qed.

Lemma StronglySorted_firstn (R : A -> A -> Prop) (n : nat) (l : list A) :
  StronglySorted R l -> StronglySorted R (firstn n l).
Proof.
  intros Hl. revert n. induction Hl as [|x l Hl IH Hx]; intros [|n]; simpl;
    try constructor.
  - apply IH.
  - rewrite Forall_forall in *. intros y Hy. apply Hx.
    now apply (firstn_In n l).
Qed.

Lemma StronglySorted_snoc (R : A -> A -> Prop) (l : list A) (x : A) :
  StronglySorted R l -> Forall (fun y => R y x) l ->
  StronglySorted R (l ++ [x]).
Proof.
  induction 1 as [|y l Hl IH Hy]; intros Hx; simpl.
  - repeat constructor.
  - inversion Hx; subst. constructor; [now apply IH|].
    apply Forall_app. split; [exact Hy | now constructor].
Qed.

End Ordering.

Section Grouping.

Context {A : Type}.
Variable key : A -> string.

Local Abbreviation get := (@Dict.get string (list A) String.eqb).

Lemma group_get_None_iff (k : string) (d : list (string * list A)) :
  get k d = None <-> ~ In k (map fst d).
Proof.
  induction d as [|[k' v] d IH]; simpl.
  - tauto.
  - destruct (String.eqb_spec k k') as [->|Hne].
    + split; [discriminate | tauto].
    + rewrite IH. split; [intros H [H'|H']; [congruence | tauto] | tauto].
Qed.

Lemma get_Some_In (k : string) (v : list A) (d : list (string * list A)) :
  get k d = Some v -> In (k, v) d.
Proof.
  induction d as [|[k' v'] d IH]; simpl; [discriminate|].
  destruct (String.eqb_spec k k') as [->|Hne].
  - intros [= ->]. now left.
  - intros H. right. now apply IH.
Qed.

Lemma get_In (k : string) (v : list A) (d : list (string * list A)) :
  NoDup (map fst d) -> In (k, v) d -> get k d = Some v.
Proof.
  induction d as [|[k' v'] d IH]; simpl; [contradiction|].
  intros Hnd [Heq|Hin].
  - injection Heq as -> ->. now rewrite String.eqb_refl.
  - inversion Hnd as [|? ? Hnotin Hnd']; subst.
    destruct (String.eqb_spec k k') as [->|Hne].
    + exfalso. apply Hnotin. now apply (in_map fst) in Hin.
    + now apply IH.
Qed.

Lemma get_add_to_group (k k' : string) (x : A) (groups : list (string * list A)) :
  get k (add_to_group k' x groups)
  = if String.eqb k' k
    then Some (Agent.get_or (get k groups) [] ++ [x])%list
    else get k groups.
Proof.
  induction groups as [|[k0 xs] groups IH]; simpl.
  - rewrite (String.eqb_sym k k'). now destruct (String.eqb k' k).
  - destruct (String.eqb_spec k' k0) as [->|Hne]; simpl.
    + rewrite (String.eqb_sym k0 k). now destruct (String.eqb k k0).
    + destruct (String.eqb_spec k k0) as [->|Hne'].
      * destruct (String.eqb_spec k' k0); [contradiction | reflexivity].
      * apply IH.
Qed.

Lemma keys_add_to_group (k : string) (x : A) (groups : list (string * list A)) :
  map fst (add_to_group k x groups)
  = match get k groups with
    | Some _ => map fst groups
    | None => (map fst groups ++ [k])%list
    end.
Proof.
  induction groups as [|[k0 xs] groups IH]; simpl; [reflexivity|].
  destruct (String.eqb k k0); simpl; [reflexivity|].
  rewrite IH. now destruct (get k groups).
Qed.

Lemma NoDup_keys_group_fold (rows : list A) (acc : list (string * list A)) :
  NoDup (map fst acc) ->
  NoDup (map fst (fold_left (fun groups x => add_to_group (key x) x groups)
                    rows acc)).
Proof.
  revert acc; induction rows as [|x rows IH]; intros acc Hacc; simpl;
    [exact Hacc|].
  apply IH. rewrite keys_add_to_group.
  destruct (get (key x) acc) eqn:Hget; [exact Hacc|].
  apply IndexFacts.NoDup_snoc; [exact Hacc | now apply group_get_None_iff].
Qed.

Lemma get_group_fold (k : string) (rows : list A)
  (acc : list (string * list A)) :
  get k (fold_left (fun groups x => add_to_group (key x) x groups) rows acc)
  = match get k acc, group_rows key k rows with
    | None, [] => None
    | b, l => Some (Agent.get_or b [] ++ l)%list
    end.
Proof.
  revert acc; induction rows as [|x rows IH]; intros acc; cbn [fold_left].
  - unfold group_rows. simpl.
    destruct (get k acc); [now rewrite app_nil_r | reflexivity].
  - rewrite IH, get_add_to_group. unfold group_rows. cbn [filter].
    destruct (String.eqb (key x) k); cbn [Agent.get_or].
    + destruct (get k acc); cbn [Agent.get_or]; now rewrite <- app_assoc.
    + reflexivity.
Qed.

(** The groups have distinct keys. *)
Lemma group_by_NoDup (rows : list A) : NoDup (map fst (group_by key rows)).
Proof. apply NoDup_keys_group_fold. constructor. Qed.

(** The group of [k] holds the rows with key [k], in scan order; a key
    without rows has no group. *)
Lemma group_by_get (k : string) (rows : list A) :
  get k (group_by key rows)
  = match group_rows key k rows with
    | [] => None
    | l => Some l
    end.
Proof.
  unfold group_by. rewrite get_group_fold. simpl.
  now destruct (group_rows key k rows).
Qed.

Lemma group_by_In (k : string) (xs : list A) (rows : list A) :
  In (k, xs) (group_by key rows) -> xs = group_rows key k rows /\ xs <> [].
Proof.
  intros Hin. apply (get_In _ _ _ (group_by_NoDup rows)) in Hin.
  rewrite group_by_get in Hin.
  destruct (group_rows key k rows) eqn:Hm; [discriminate|].
  injection Hin as <-. split; [reflexivity | discriminate].
Qed.

Lemma group_by_keys (k : string) (rows : list A) :
  In k (map fst (group_by key rows)) <-> In k (map key rows).
Proof.
  split.
  - intros Hin. apply in_map_iff in Hin. destruct Hin as [[k' xs] [<- Hin]].
    apply group_by_In in Hin. destruct Hin as [-> Hne]. simpl.
    destruct (group_rows key k' rows) as [|x l] eqn:Hm; [contradiction|].
    assert (Hx : In x (group_rows key k' rows)) by (rewrite Hm; now left).
    apply filter_In in Hx. destruct Hx as [Hx Hk].
    apply String.eqb_eq in Hk. rewrite <- Hk. now apply in_map.
  - intros Hin. apply in_map_iff in Hin. destruct Hin as [x [<- Hx]].
    destruct (in_dec string_dec (key x) (map fst (group_by key rows)))
      as [H|H]; [exact H|].
    apply group_get_None_iff in H. rewrite group_by_get in H.
    destruct (group_rows key (key x) rows) eqn:Hm; [|discriminate].
    assert (Hf : In x (group_rows key (key x) rows)).
    { apply filter_In. split; [exact Hx | apply String.eqb_refl]. }
    rewrite Hm in Hf. contradiction.
Qed.

Lemma length_group_rows (k : string) (rows : list A) :
  List.length (group_rows key k rows) = count_occ string_dec (map key rows) k.
Proof.
  induction rows as [|x rows IH]; simpl; [reflexivity|].
  destruct (String.eqb_spec (key x) k) as [Heq|Hne];
    destruct (string_dec (key x) k); try contradiction; simpl; now rewrite ?IH.
Qed.

(** Sorting the groups permutes them. *)
Lemma insert_group_perm (descending : bool) (g : string * list A)
  (groups : list (string * list A)) :
  Permutation (insert_group descending g groups) (g :: groups).
Proof.
  induction groups as [|h groups IH]; cbn [insert_group].
  - apply Permutation_refl.
  - destruct (key_before descending (fst g) (fst h)).
    + apply Permutation_refl.
    + apply (perm_trans (perm_skip h IH)). apply perm_swap.
Qed.

Lemma sort_groups_perm (descending : bool) (groups : list (string * list A)) :
  Permutation (sort_groups descending groups) groups.
Proof.
  induction groups as [|g groups IH]; cbn [sort_groups fold_right].
  - apply Permutation_refl.
  - apply (perm_trans (insert_group_perm _ _ _)). now apply perm_skip.
Qed.

Lemma get_insert_group (descending : bool) (k : string) (g : string * list A)
  (groups : list (string * list A)) :
  ~ In (fst g) (map fst groups) ->
  get k (insert_group descending g groups) = get k (g :: groups).
Proof.
  induction groups as [|h groups IH]; intros Hnew; cbn [insert_group].
  - reflexivity.
  - destruct (key_before descending (fst g) (fst h)); [reflexivity|].
    destruct g as [kg vg], h as [kh vh]. cbn [fst map] in *.
    cbn [Dict.get]. rewrite IH by (intros Hin; apply Hnew; now right).
    cbn [Dict.get].
    destruct (String.eqb_spec k kh) as [->|Hh]; [|reflexivity].
    destruct (String.eqb_spec kh kg) as [->|Hg]; [|reflexivity].
    exfalso. apply Hnew. now left.
Qed.

(** Looking a key up does not depend on the order of the groups. *)
Lemma get_sort_groups (descending : bool) (k : string)
  (groups : list (string * list A)) :
  NoDup (map fst groups) ->
  get k (sort_groups descending groups) = get k groups.
Proof.
  induction groups as [|g groups IH]; intros Hnd; cbn [sort_groups fold_right].
  - reflexivity.
  - cbn [map] in Hnd. apply NoDup_cons_iff in Hnd. destruct Hnd as [Hnew Hnd].
    fold (sort_groups descending groups).
    rewrite get_insert_group.
    + destruct g as [kg vg]. cbn [Dict.get]. now rewrite IH.
    + intros Hin. apply Hnew.
      exact (Permutation_in _ (Permutation_map fst (sort_groups_perm _ _)) Hin).
Qed.

Lemma sql_group_by_perm (descending : bool) (rows : list A) :
  Permutation (sql_group_by descending key rows) (group_by key rows).
Proof. apply sort_groups_perm. Qed.

Lemma sql_group_by_NoDup (descending : bool) (rows : list A) :
  NoDup (map fst (sql_group_by descending key rows)).
Proof.
  apply (Permutation_NoDup
           (Permutation_sym (Permutation_map fst (sql_group_by_perm _ rows)))).
  apply group_by_NoDup.
Qed.

(** The group of [k] holds the rows with key [k], in scan order; a key
    without rows has no group. *)
Lemma sql_group_by_get (descending : bool) (k : string) (rows : list A) :
  get k (sql_group_by descending key rows)
  = match group_rows key k rows with
    | [] => None
    | l => Some l
    end.
Proof.
  unfold sql_group_by. rewrite get_sort_groups by apply group_by_NoDup.
  apply group_by_get.
Qed.

Lemma sql_group_by_In (descending : bool) (k : string) (xs : list A)
  (rows : list A) :
  In (k, xs) (sql_group_by descending key rows) ->
  xs = group_rows key k rows /\ xs <> [].
Proof.
  intros Hin. apply group_by_In.
  exact (Permutation_in _ (sql_group_by_perm _ rows) Hin).
Qed.

Lemma sql_group_by_keys (descending : bool) (k : string) (rows : list A) :
  In k (map fst (sql_group_by descending key rows)) <-> In k (map key rows).
Proof.
  rewrite <- group_by_keys. split; intros Hin.
  - exact (Permutation_in _ (Permutation_map fst (sql_group_by_perm _ rows)) Hin).
  - exact (Permutation_in _
             (Permutation_sym (Permutation_map fst (sql_group_by_perm _ rows)))
             Hin).
Qed.

End Grouping.

(** Looking a key up after an aggregate has been computed per group. *)
Lemma get_map_snd {V W : Type} (f : V -> W) (k : string)
  (d : list (string * V)) :
  Dict.get String.eqb k (map (fun g => (fst g, f (snd g))) d)
  = option_map f (Dict.get String.eqb k d).
Proof.
  induction d as [|[k' v] d IH]; simpl; [reflexivity|].
  destruct (String.eqb k k'); [reflexivity | apply IH].
Qed.

End SqlFacts.

(* ------------------------------------------------------------------ *)
(** ** The tables during a session *)

Module LogFacts.

Import Database LogSpec SqlFacts.

Local Open Scope Z_scope.

Lemma next_rowid_above (ids : list Z) :
  Forall (fun z => z < next_rowid ids) ids.
Proof.
  unfold next_rowid. induction ids as [|z ids IH]; constructor;
    cbn [fold_right].
  - lia.
  - eapply Forall_impl; [|exact IH]. intros y Hy. cbn beta in Hy. lia.
Qed.

Lemma log_user_query_increasing (now : Z) (query : string) (db : State) :
  ids_increasing (user_queries db) ->
  ids_increasing (user_queries (final (log_user_query now query) db)).
Proof.
  intros Hdb. unfold final, log_user_query. cbn [snd user_queries].
  apply StronglySorted_snoc; [exact Hdb|].
  cbn [q_id]. apply Forall_forall. intros row Hrow.
  pose proof (next_rowid_above (map q_id (user_queries db))) as H.
  rewrite Forall_forall in H. apply H. now apply in_map.
Qed.

Lemma run_user_queries (calls : list Call) (db : State) :
  ids_increasing (user_queries db) ->
  ids_increasing (user_queries (run calls db))
  /\ map query_row (user_queries (run calls db))
     = (map query_row (user_queries db) ++ queries_of calls)%list.
Proof.
  revert db; induction calls as [|c calls IH]; intros db Hdb; simpl.
  - split; [exact Hdb | now rewrite app_nil_r].
  - destruct c as [now query | now name | now m t s r cm]; cbn [perform].
    + destruct (IH _ (log_user_query_increasing now query db Hdb)) as [H1 H2].
      split; [exact H1|]. rewrite H2. unfold final, log_user_query.
      cbn [snd user_queries]. rewrite map_app, <- app_assoc. reflexivity.
    + apply (IH (final (log_viewed_failure_mode now name) db)). exact Hdb.
    + apply (IH (final (log_solution_feedback now m t s r cm) db)). exact Hdb.
Qed.

Lemma run_viewed (calls : list Call) (db : State) :
  map v_failure_mode (viewed_failure_modes (run calls db))
  = (map v_failure_mode (viewed_failure_modes db) ++ views_of calls)%list.
Proof.
  revert db; induction calls as [|c calls IH]; intros db; simpl.
  - now rewrite app_nil_r.
  - rewrite IH. destruct c as [now query | now name | now m t s r cm];
      cbn [perform final snd log_user_query log_viewed_failure_mode
             log_solution_feedback viewed_failure_modes]; try reflexivity.
    rewrite map_app, <- app_assoc. reflexivity.
Qed.

Lemma run_feedback (calls : list Call) (db : State) :
  map feedback_row (solution_feedback (run calls db))
  = (map feedback_row (solution_feedback db) ++ feedback_of calls)%list.
Proof.
  revert db; induction calls as [|c calls IH]; intros db; simpl.
  - now rewrite app_nil_r.
  - rewrite IH. destruct c as [now query | now name | now m t s r cm];
      cbn [perform final snd log_user_query log_viewed_failure_mode
             log_solution_feedback solution_feedback]; try reflexivity.
    rewrite map_app, <- app_assoc. reflexivity.
Qed.

(** *** Aggregates over the feedback table *)

Lemma ratings_rated_only (t : string) (rows : list FeedbackRow) :
  non_null (map f_rating (group_rows f_solution_type t (filter is_rated rows)))
  = non_null (map f_rating (group_rows f_solution_type t rows)).
Proof.
  unfold group_rows. induction rows as [|row rows IH]; simpl; [reflexivity|].
  unfold is_rated at 1. destruct (f_rating row) as [z|] eqn:Hr; simpl.
  - destruct (String.eqb (f_solution_type row) t); simpl; now rewrite ?Hr, IH.
  - destruct (String.eqb (f_solution_type row) t); simpl; now rewrite ?Hr, IH.
Qed.

Lemma length_non_null_rated (rows : list FeedbackRow) :
  Forall (fun row => is_rated row = true) rows ->
  List.length (non_null (map f_rating rows)) = List.length rows.
Proof.
  induction 1 as [|row rows Hrow _ IH]; simpl; [reflexivity|].
  unfold is_rated in Hrow. destruct (f_rating row); [|discriminate].
  simpl. now rewrite IH.
Qed.

Lemma ratings_of_rows (t : string) (rows : list FeedbackRow) :
  ratings_of t (map feedback_row rows)
  = non_null (map f_rating (group_rows f_solution_type t rows)).
Proof.
  unfold ratings_of, group_rows. f_equal.
  induction rows as [|row rows IH]; simpl; [reflexivity|].
  destruct (String.eqb (f_solution_type row) t); simpl; now rewrite IH.
Qed.

Lemma entries_on_rows (m : string) (rows : list FeedbackRow) :
  entries_on m (map feedback_row rows)
  = List.length (group_rows f_failure_mode m rows).
Proof.
  unfold entries_on, group_rows.
  induction rows as [|row rows IH]; simpl; [reflexivity|].
  destruct (String.eqb (f_failure_mode row) m); simpl; now rewrite IH.
Qed.

(** The two mappings of [get_solution_feedback_stats], key by key. *)
Lemma feedback_stats_eq (db : State) :
  exists stats,
    get_solution_feedback_stats db = (Return stats, db)
    /\ (forall t,
           Dict.get String.eqb t (avg_ratings_by_type stats)
           = match ratings_of t (map feedback_row (solution_feedback db)) with
             | [] => None
             | zs => Some (Some (mean zs))
             end)
    /\ (forall m,
           Dict.get String.eqb m (feedback_count_by_mode stats)
           = match entries_on m (map feedback_row (solution_feedback db)) with
             | O => None
             | n => Some (Z.of_nat n)
             end).
Proof.
  unfold get_solution_feedback_stats, bind, gets, ret. cbv beta iota zeta.
  eexists. split; [reflexivity|].
  cbn [avg_ratings_by_type feedback_count_by_mode].
  split.
  - intros t.
    rewrite (get_map_snd (fun xs : list FeedbackRow => sql_avg (map f_rating xs))).
    rewrite sql_group_by_get, ratings_of_rows, <- ratings_rated_only.
    set (l := group_rows f_solution_type t (filter is_rated (solution_feedback db))).
    assert (Hlen : List.length (non_null (map f_rating l)) = List.length l).
    { apply length_non_null_rated. apply Forall_forall. intros row Hrow.
      unfold l, group_rows in Hrow. apply filter_In in Hrow.
      destruct Hrow as [Hrow _]. apply filter_In in Hrow. tauto. }
    unfold sql_avg. destruct l as [|row l']; cbn [option_map].
    + reflexivity.
    + destruct (non_null (map f_rating (row :: l'))); [discriminate|reflexivity].
  - intros m.
    rewrite (get_map_snd (fun xs : list FeedbackRow => Z.of_nat (List.length xs))).
    rewrite sql_group_by_get, entries_on_rows.
    now destruct (group_rows f_failure_mode m (solution_feedback db)).
Qed.

Lemma mean_is_quotient (zs : list Z) :
  Qeq (mean zs) (inject_Z (sum_Z zs) / inject_Z (Z.of_nat (List.length zs))).
Proof. unfold mean. apply Qred_correct. Qed.

End LogFacts.

(* ------------------------------------------------------------------ *)
(** ** Log theorems *)

Module Log.

Import Database LogSpec SqlFacts LogFacts.

Local Open Scope Z_scope.

(** C3, as the code has it. After any session, [recentQueries(limit)]
    returns the first [limit] rows of a ranking of the whole query table,
    so at most [limit] rows; the ranking is newest first by timestamp, and
    rows with equal timestamps stay in insertion order, the smaller id
    first. The table holds the logged queries in call order. After
    [logQuery("foo")] on an empty log, [recentQueries(1)] is the one entry
    with query text "foo". *)
Theorem recent_queries_newest_first (calls : list Call) (limit : nat) :
  let db := run calls _create_tables in
  (exists rows ranking,
      result (get_recent_queries limit) db = Return rows
      /\ rows = firstn limit ranking
      /\ (List.length rows <= limit)%nat
      /\ StronglySorted newest_first rows
      /\ StronglySorted newest_first ranking
      /\ Permutation ranking (user_queries db)
      /\ map query_row (user_queries db) = queries_of calls)
  /\ (forall now,
         result (get_recent_queries 1) (run [LogQuery now "foo"] _create_tables)
         = Return [{| q_id := 1; q_query := "foo"; q_timestamp := now |}]).
Proof.
  intros db. split.
  - destruct (run_user_queries calls _create_tables) as [Hinc Hrows];
      [constructor|].
    fold db in Hinc, Hrows.
    assert (Hsorted : StronglySorted newest_first
                        (order_by_desc q_timestamp (user_queries db))).
    { apply order_by_desc_stable. exact Hinc. }
    exists (firstn limit (order_by_desc q_timestamp (user_queries db))),
      (order_by_desc q_timestamp (user_queries db)).
    repeat split.
    + apply firstn_le_length.
    + now apply StronglySorted_firstn.
    + exact Hsorted.
    + apply order_by_desc_perm.
    + exact Hrows.
  - intros now. reflexivity.
Qed.

(** C3, as the specification words it, fails: two queries logged within
    the same second come back with the smaller id first. *)
Lemma recent_queries_ties_not_id_descending :
  ~ (forall (calls : list Call) (limit : nat),
        exists rows,
          result (get_recent_queries limit) (run calls _create_tables)
          = Return rows
          /\ (List.length rows <= limit)%nat
          /\ StronglySorted newest_first_id_descending rows).
Proof.
  intros H.
  destruct (H [LogQuery 0 "first"; LogQuery 0 "second"] 2%nat)
    as [rows [Hrows [_ Hsorted]]].
  vm_compute in Hrows. injection Hrows as <-.
  inversion Hsorted as [|? ? _ Hall]; subst.
  inversion Hall as [|? ? Hrank _]; subst.
  unfold newest_first_id_descending, ranked_before in Hrank.
  cbn [q_id q_timestamp] in Hrank. lia.
Qed.

(** C4. After any session, [mostViewed(limit)] is the first [limit]
    entries of a ranking that has one entry per distinct viewed name, each
    with the number of views logged for that name, in descending order of
    that number. After three views of "X" and one of "Y", in whatever
    position, [mostViewed(5)] lists X with 3 before Y with 1. *)
Theorem most_viewed_counts_and_ranks (calls : list Call) (limit : nat) :
  let db := run calls _create_tables in
  let viewed := views_of calls in
  (exists ranking,
      result (get_most_viewed_failure_modes limit) db
      = Return (firstn limit ranking)
      /\ NoDup (map failure_mode ranking)
      /\ (forall name, In name (map failure_mode ranking) <-> In name viewed)
      /\ (forall entry,
             In entry ranking ->
             view_count entry
             = Z.of_nat (count_occ string_dec viewed (failure_mode entry)))
      /\ StronglySorted (fun a b => view_count b <= view_count a) ranking)
  /\ (forall t1 t2 t3 t4 views,
         In views [ [LogView t1 "X"; LogView t2 "X"; LogView t3 "X"; LogView t4 "Y"];
                    [LogView t1 "X"; LogView t2 "X"; LogView t3 "Y"; LogView t4 "X"];
                    [LogView t1 "X"; LogView t2 "Y"; LogView t3 "X"; LogView t4 "X"];
                    [LogView t1 "Y"; LogView t2 "X"; LogView t3 "X"; LogView t4 "X"] ] ->
         result (get_most_viewed_failure_modes 5) (run views _create_tables)
         = Return [ {| failure_mode := "X"; view_count := 3 |};
                    {| failure_mode := "Y"; view_count := 1 |} ]).
Proof.
  intros db viewed. split.
  - pose proof (run_viewed calls _create_tables) as Hviews.
    cbn [_create_tables viewed_failure_modes map app] in Hviews.
    fold db viewed in Hviews.
    set (groups := sql_group_by true v_failure_mode (viewed_failure_modes db)).
    assert (Hperm : Permutation
                      (order_by_desc view_count (map count_views groups))
                      (map count_views groups))
      by apply order_by_desc_perm.
    assert (Hnames : map failure_mode (map count_views groups) = map fst groups).
    { rewrite map_map. apply map_ext. reflexivity. }
    exists (order_by_desc view_count (map count_views groups)).
    split; [reflexivity|]. split; [|split; [|split]].
    + apply (Permutation_NoDup (Permutation_sym (Permutation_map failure_mode Hperm))).
      rewrite Hnames. apply sql_group_by_NoDup.
    + intros name. rewrite <- Hviews, <- (sql_group_by_keys v_failure_mode true).
      fold groups. rewrite <- Hnames. split; intros Hin.
      * exact (Permutation_in _ (Permutation_map failure_mode Hperm) Hin).
      * exact (Permutation_in _ (Permutation_sym (Permutation_map failure_mode Hperm)) Hin).
    + intros entry Hin. apply (Permutation_in _ Hperm) in Hin.
      apply in_map_iff in Hin. destruct Hin as [[k xs] [<- Hin]].
      apply sql_group_by_In in Hin. destruct Hin as [-> _].
      unfold count_views. cbn [fst snd failure_mode view_count].
      now rewrite length_group_rows, Hviews.
    + apply order_by_desc_descending.
  - intros t1 t2 t3 t4 views Hin. simpl in Hin.
    destruct Hin as [<-|[<-|[<-|[<-|[]]]]]; reflexivity.
Qed.

(** C5. After any session, [feedbackStats()] maps every solution type that
    has a non-null rating to the mean of its non-null ratings (their sum
    divided by their number) and has no key for a solution type without
    one; it maps every failure mode with feedback to the number of its
    feedback entries, rated or not. With the entries {tactical, 4},
    {tactical, 2}, {structural, no rating} the tactical average is 3 and
    the averages have no structural key. *)
Theorem feedback_stats_means_and_counts (calls : list Call) :
  let db := run calls _create_tables in
  let fb := feedback_of calls in
  (exists stats,
      result get_solution_feedback_stats db = Return stats
      /\ (forall t,
             Dict.get String.eqb t (avg_ratings_by_type stats)
             = match ratings_of t fb with
               | [] => None
               | zs => Some (Some (mean zs))
               end)
      /\ (forall m,
             Dict.get String.eqb m (feedback_count_by_mode stats)
             = match entries_on m fb with
               | O => None
               | n => Some (Z.of_nat n)
               end))
  /\ (forall zs,
         Qeq (mean zs)
           (inject_Z (sum_Z zs) / inject_Z (Z.of_nat (List.length zs))))
  /\ (forall t1 t2 t3 m1 m2 m3 s1 s2 s3 c1 c2 c3,
         exists stats,
           result get_solution_feedback_stats
             (run [LogFeedback t1 m1 "tactical" s1 (Some 4) c1;
                   LogFeedback t2 m2 "tactical" s2 (Some 2) c2;
                   LogFeedback t3 m3 "structural" s3 None c3] _create_tables)
           = Return stats
           /\ Dict.get String.eqb "tactical" (avg_ratings_by_type stats)
              = Some (Some (3 # 1))
           /\ Dict.get String.eqb "structural" (avg_ratings_by_type stats)
              = None).
Proof.
  intros db fb. split; [|split].
  - destruct (feedback_stats_eq db) as [stats [Hrun [Havg Hcount]]].
    pose proof (run_feedback calls _create_tables) as Hfb.
    cbn [_create_tables solution_feedback map app] in Hfb.
    fold db fb in Hfb. rewrite Hfb in Havg, Hcount.
    exists stats. unfold result. rewrite Hrun. auto.
  - apply mean_is_quotient.
  - intros t1 t2 t3 m1 m2 m3 s1 s2 s3 c1 c2 c3.
    set (session := [LogFeedback t1 m1 "tactical" s1 (Some 4) c1;
                     LogFeedback t2 m2 "tactical" s2 (Some 2) c2;
                     LogFeedback t3 m3 "structural" s3 None c3]).
    destruct (feedback_stats_eq (run session _create_tables))
      as [stats [Hrun [Havg _]]].
    exists stats. unfold result. rewrite Hrun. split; [reflexivity|].
    rewrite !Havg. split; reflexivity.
Qed.

End Log.

(* ------------------------------------------------------------------ *)
(** ** More on the taxonomy store *)

Module StoreFacts.

Import Agent Documents IndexSpec IndexFacts FirstSeen.

Local Abbreviation get :=
  (@Dict.get (option string) (list string) Dict.opt_eqb).
Local Abbreviation update :=
  (@Dict.update (option string) (list string) Dict.opt_eqb).
Local Abbreviation set :=
  (@Dict.set (option string) (list string) Dict.opt_eqb).

Lemma members_nil_iff (c : option string) (fm : Taxonomy) :
  members c fm = [] <-> forall name m, In (name, m) fm -> category m <> c.
Proof.
  unfold members. induction fm as [|[n m] fm IH]; simpl.
  - split; [intros _ ? ? [] | reflexivity].
  - destruct (Dict.opt_eqb (category m) c) eqn:E; simpl.
    + apply opt_eqb_eq in E. split; [discriminate|].
      intros H. exfalso. apply (H n m); [now left | exact E].
    + apply opt_eqb_neq in E. rewrite IH. split.
      * intros H name m' [Heq|Hin]; [injection Heq as <- <-; exact E | eauto].
      * intros H name m' Hin. apply (H name m'). now right.
Qed.

Lemma index_get_In (c : option string) (b : list string) (d : CategoryIndex) :
  NoDup (Dict.keys d) -> In (c, b) d -> get c d = Some b.
Proof.
  induction d as [|[k v] d IH]; simpl; [contradiction|].
  intros Hnd [Heq|Hin].
  - injection Heq as -> ->. now rewrite opt_eqb_refl.
  - inversion Hnd as [|? ? Hnotin Hnd']; subst.
    destruct (Dict.opt_eqb c k) eqn:E.
    + apply opt_eqb_eq in E. subst k. exfalso. apply Hnotin.
      now apply (in_map fst) in Hin.
    + now apply IH.
Qed.

Lemma concat_update (k : option string) (x : string) (b : list string)
  (d : CategoryIndex) :
  get k d = Some b ->
  Permutation (List.concat (map snd (update k (fun b => (b ++ [x])%list) d)))
    (x :: List.concat (map snd d)).
Proof.
  induction d as [|[k' v] d IH]; simpl; [discriminate|].
  destruct (Dict.opt_eqb k k'); simpl.
  - intros _. rewrite <- app_assoc. simpl.
    apply Permutation_sym, Permutation_middle.
  - intros H. rewrite (IH H). apply Permutation_sym, Permutation_middle.
Qed.

Lemma concat_set_new (k : option string) (d : CategoryIndex) :
  get k d = None ->
  List.concat (map snd (set k [] d)) = List.concat (map snd d)
  /\ get k (set k [] d) = Some [].
Proof.
  induction d as [|[k' v] d IH]; simpl.
  - intros _. split; [reflexivity | now rewrite opt_eqb_refl].
  - destruct (Dict.opt_eqb k k') eqn:E; [discriminate|]. simpl.
    intros H. destruct (IH H) as [IH1 IH2]. now rewrite E, IH1.
Qed.

Lemma concat_organize_step (acc : CategoryIndex) (name : string)
  (m : FailureMode) :
  Permutation (List.concat (map snd (organize_step acc (name, m))))
    (name :: List.concat (map snd acc)).
Proof.
  unfold organize_step, Dict.mem.
  destruct (get (category m) acc) as [b|] eqn:Hcat.
  - now apply concat_update with (b := b).
  - destruct (concat_set_new (category m) acc Hcat) as [Hsame Hnew].
    rewrite <- Hsame. now apply concat_update with (b := []).
Qed.

Lemma concat_fold (fm : Taxonomy) (acc : CategoryIndex) :
  Permutation (List.concat (map snd (fold_left organize_step fm acc)))
    (List.concat (map snd acc) ++ Dict.keys fm).
Proof.
  revert acc; induction fm as [|[n m] fm IH]; intros acc; cbn [fold_left].
  - unfold Dict.keys. simpl. now rewrite app_nil_r.
  - rewrite IH, concat_organize_step. unfold Dict.keys. cbn [map fst app].
    apply Permutation_middle.
Qed.

Lemma first_seen_ext (s1 s2 l : list (option string)) :
  (forall x, In x s1 <-> In x s2) -> first_seen s1 l = first_seen s2 l.
Proof.
  revert s1 s2; induction l as [|x l IH]; intros s1 s2 H; simpl;
    [reflexivity|].
  destruct (in_dec category_dec x s1) as [H1|H1],
           (in_dec category_dec x s2) as [H2|H2].
  - now apply IH.
  - exfalso. apply H2, H, H1.
  - exfalso. apply H1, H, H2.
  - f_equal. apply IH. intros y. simpl. rewrite H. tauto.
Qed.

Lemma keys_fold (fm : Taxonomy) (acc : CategoryIndex) :
  Dict.keys (fold_left organize_step fm acc)
  = (Dict.keys acc
     ++ first_seen (Dict.keys acc) (map (fun item => category (snd item)) fm))%list.
Proof.
  revert acc; induction fm as [|[n m] fm IH]; intros acc;
    cbn [fold_left map snd first_seen].
  - now rewrite app_nil_r.
  - rewrite IH, keys_organize_step. unfold Dict.mem.
    destruct (get (category m) acc) eqn:Hget.
    + destruct (in_dec category_dec (category m) (Dict.keys acc)) as [_|Hn];
        [reflexivity|].
      apply IndexFacts.get_None_iff in Hn. congruence.
    + destruct (in_dec category_dec (category m) (Dict.keys acc)) as [Hi|_].
      * apply IndexFacts.get_None_iff in Hget. contradiction.
      * rewrite <- app_assoc. simpl. do 2 f_equal.
        apply first_seen_ext. intros x. rewrite in_app_iff. simpl. tauto.
Qed.

Lemma info_of_record (fm : Taxonomy) (name : string) (m : FailureMode) :
  NoDup (Dict.keys fm) -> In (name, m) fm -> info fm name = m.
Proof.
  unfold info. induction fm as [|[n' m'] fm IH]; simpl; [contradiction|].
  intros Hnd [Heq|Hin].
  - injection Heq as -> ->. now rewrite String.eqb_refl.
  - inversion Hnd as [|? ? Hnotin Hnd']; subst.
    destruct (String.eqb_spec name n') as [->|Hne].
    + exfalso. apply Hnotin. now apply (in_map fst) in Hin.
    + now apply IH.
Qed.

Lemma info_of_unknown (fm : Taxonomy) (name : string) :
  ~ In name (Dict.keys fm) -> info fm name = empty_info.
Proof.
  unfold info. induction fm as [|[n' m'] fm IH]; simpl; [reflexivity|].
  intros Hn. destruct (String.eqb_spec name n') as [->|Hne].
  - exfalso. apply Hn. now left.
  - apply IH. intros H. apply Hn. now right.
Qed.

End StoreFacts.

(* ------------------------------------------------------------------ *)
(** ** Store theorems *)

Module Store.

Import Agent Documents IndexSpec IndexFacts FirstSeen StoreFacts AgentFacts.

Local Arguments String.append : simpl never.

(** X1. [get_failure_modes_in_category] returns the empty list, and no
    error, exactly for a category that no record of the taxonomy has. *)
Theorem modes_of_unseen_category (fm : Taxonomy) (r : Rng)
  (c : option string) :
  result (get_failure_modes_in_category c) (init fm r) = Return []
  <-> (forall name m, In (name, m) fm -> category m <> c).
Proof.
  unfold result, get_failure_modes_in_category, gets, init.
  cbn [fst categories]. fold (modes_in (_organize_categories fm) c).
  rewrite modes_in_organize, <- members_nil_iff.
  split; [intros [= H]; exact H | intros ->; reflexivity].
Qed.

(** X2. The buckets of the category index partition the identifiers of the
    taxonomy: put end to end they are a rearrangement of the identifiers,
    and no bucket is empty. *)
Theorem index_partitions_identifiers (fm : Taxonomy) :
  Permutation (List.concat (map snd (_organize_categories fm))) (Dict.keys fm)
  /\ Forall (fun bucket : option string * list string => snd bucket <> [])
       (_organize_categories fm).
Proof.
  split.
  - apply (concat_fold fm []).
  - apply Forall_forall. intros [c b] Hin. cbn [snd].
    apply (index_get_In _ _ _ (NoDup_categories fm)) in Hin.
    unfold _organize_categories in Hin. rewrite get_fold in Hin.
    cbn [Dict.get get_or app] in Hin.
    destruct (members c fm); [discriminate|]. injection Hin as <-. discriminate.
Qed.

(** X3. [get_all_categories] lists the categories in the order in which
    the taxonomy first mentions them. *)
Theorem categories_in_first_occurrence_order (fm : Taxonomy) (r : Rng) :
  result get_all_categories (init fm r)
  = Return (first_seen [] (map (fun item => category (snd item)) fm)).
Proof.
  unfold result, get_all_categories, gets, init. cbn [fst categories].
  f_equal. apply (keys_fold fm []).
Qed.

(** X4. In a taxonomy with distinct identifiers the accessors read the
    record stored under the name: [get_failure_mode_info] returns it,
    [analyze_failure_mode] its analysis and [get_solutions] its two lists,
    with the placeholder or the empty list for a missing field (and [None]
    for a field that holds [null]). *)
Theorem accessors_read_the_stored_record (self : State) (name : string)
  (m : FailureMode) :
  NoDup (Dict.keys (failure_modes self)) -> In (name, m) (failure_modes self) ->
  get_failure_mode_info name self = (Return m, self)
  /\ analyze_failure_mode name self
     = (Return (get_default (phd_level_analysis m)
                  ("No analysis available for " ++ name ++ ".")), self)
  /\ get_solutions name self
     = (Return {| tactical := get_default (tactical_solutions m) [];
                  structural := get_default (structural_solutions m) [] |},
        self).
Proof.
  intros Hnd Hin. pose proof (info_of_record _ _ _ Hnd Hin) as Hinfo.
  unfold info in Hinfo.
  unfold analyze_failure_mode, get_solutions, get_failure_mode_info, bind,
    gets, ret.
  now rewrite Hinfo.
Qed.

Lemma accessors_read_the_stored_record_witness :
  get_failure_mode_info "Inter-Agent Misalignment"
    (init Examples.taxonomy Examples.counting)
  = (Return Examples.misalignment, init Examples.taxonomy Examples.counting).
Proof.
  apply (accessors_read_the_stored_record
           (init Examples.taxonomy Examples.counting)
           "Inter-Agent Misalignment" Examples.misalignment).
  - repeat constructor; simpl; intuition discriminate.
  - right; left; reflexivity.
Defined.

(** X5. For a name that is not an identifier of the taxonomy every
    accessor degrades instead of failing: the record is the empty one, the
    demonstration and the analysis are the placeholders that quote the
    name, both solution lists are empty, nothing is drawn from the random
    generator, and the failure-mode document is made of placeholders
    under the heading "(Category: None)". *)
Theorem unknown_mode_degrades (self : State) (name : string) :
  ~ In name (Dict.keys (failure_modes self)) ->
  get_failure_mode_info name self = (Return empty_info, self)
  /\ demonstrate_failure_mode name self
     = (Return ("No demonstration scenarios available for " ++ name ++ "."),
        self)
  /\ analyze_failure_mode name self
     = (Return (Some ("No analysis available for " ++ name ++ ".")), self)
  /\ get_solutions name self
     = (Return {| tactical := Some []; structural := Some [] |}, self)
  /\ _generate_failure_mode_response name self
     = (Return ("# " ++ name ++ " (Category: None)" ++ nl ++ nl
                ++ "## Definition" ++ nl ++ "No description available."
                ++ nl ++ nl ++ "## Demonstration" ++ nl
                ++ "No demonstration scenarios available for " ++ name ++ "."
                ++ nl ++ nl ++ "## PhD-Level Analysis" ++ nl
                ++ "No analysis available for " ++ name ++ "."
                ++ nl ++ nl ++ "## Solutions" ++ nl
                ++ nl ++ "### Tactical Solutions" ++ nl
                ++ nl ++ "### Structural Solutions" ++ nl), self).
Proof.
  intros Hn. pose proof (info_of_unknown _ _ Hn) as Hinfo.
  assert (Hsc : scenarios_of (failure_modes self) name = []).
  { unfold scenarios_of. now rewrite Hinfo. }
  repeat split.
  - unfold get_failure_mode_info, gets. unfold info in Hinfo. now rewrite Hinfo.
  - now apply demonstrate_placeholder.
  - unfold analyze_failure_mode, get_failure_mode_info, bind, gets, ret.
    unfold info in Hinfo. now rewrite Hinfo.
  - unfold get_solutions, get_failure_mode_info, bind, gets, ret.
    unfold info in Hinfo. now rewrite Hinfo.
  - rewrite failure_mode_response_eq.
    unfold after_demonstration, demonstration_of. rewrite Hsc.
    unfold failure_mode_outcome, tactical_of, structural_of,
      failure_mode_document, failure_mode_sections, analysis_of,
      description_of, tactical_heading, structural_heading, bullets,
      no_demonstration.
    rewrite Hinfo. cbn [empty_info category description phd_level_analysis
                          tactical_solutions structural_solutions get_default
                          py_str map join].
    now rewrite ?TextFacts.append_assoc, ?TextFacts.append_nil_r.
Qed.

Lemma unknown_mode_degrades_witness :
  analyze_failure_mode "Groupthink" (init Examples.taxonomy Examples.counting)
  = (Return (Some "No analysis available for Groupthink."),
     init Examples.taxonomy Examples.counting).
Proof.
  apply (unknown_mode_degrades (init Examples.taxonomy Examples.counting)
           "Groupthink").
  simpl. intuition discriminate.
Defined.

(** X6. When the record of a mode has scenarios, [demonstrate_failure_mode]
    returns one of them, takes exactly one value from the random generator
    and leaves the store as it is; with a single scenario it returns that
    scenario whatever the generator holds. *)
Theorem demonstration_is_a_scenario (self : State) (name : string) :
  scenarios_of (failure_modes self) name <> [] ->
  exists scenario,
    demonstrate_failure_mode name self = (Return scenario, advance self)
    /\ In scenario (scenarios_of (failure_modes self) name)
    /\ (forall only, scenarios_of (failure_modes self) name = [only] ->
                     scenario = only).
Proof.
  intros Hne. exists (drawn (rng self) (scenarios_of (failure_modes self) name)).
  rewrite demonstrate_eq. unfold demonstration_of, after_demonstration.
  destruct (scenarios_of (failure_modes self) name) as [|s seq] eqn:Hseq;
    [contradiction|].
  repeat split.
  - unfold drawn. apply nth_In. apply Nat.mod_upper_bound. discriminate.
  - intros only [= -> ->]. unfold drawn. cbn [List.length].
    now rewrite Nat.mod_1_r.
Qed.

Lemma demonstration_is_a_scenario_witness :
  exists scenario,
    demonstrate_failure_mode "Information Withholding"
      (init Examples.taxonomy (Examples.constant 7))
    = (Return scenario, advance (init Examples.taxonomy (Examples.constant 7)))
    /\ In scenario
         (scenarios_of Examples.taxonomy "Information Withholding")
    /\ (forall only,
           scenarios_of Examples.taxonomy "Information Withholding" = [only] ->
           scenario = only).
Proof.
  apply (demonstration_is_a_scenario
           (init Examples.taxonomy (Examples.constant 7))
           "Information Withholding").
  discriminate.
Defined.

End Store.

(* ------------------------------------------------------------------ *)
(** ** Documents over the derived index *)

Module DocumentFacts.

Import Agent Documents IndexSpec IndexFacts FirstSeen StoreFacts AgentFacts.

Local Arguments String.append : simpl never.

Lemma members_records (c : option string) (fm : Taxonomy) :
  members c fm = map fst (records_of c fm).
Proof. reflexivity. Qed.

Lemma mode_bullets_members (c : option string) (fm : Taxonomy) :
  NoDup (Dict.keys fm) ->
  mode_bullets fm (members c fm) = join (map record_bullet (records_of c fm)).
Proof.
  intros Hnd. unfold mode_bullets. rewrite members_records, map_map.
  f_equal. apply map_ext_in. intros [n m] Hin. unfold record_bullet.
  cbn [fst snd]. f_equal. apply info_of_record; [exact Hnd|].
  unfold records_of in Hin. apply filter_In in Hin. tauto.
Qed.

Lemma index_shape (fm : Taxonomy) :
  _organize_categories fm
  = map (fun c => (c, members c fm)) (Dict.keys (_organize_categories fm)).
Proof.
  assert (H : forall c b, In (c, b) (_organize_categories fm) ->
                          b = members c fm).
  { intros c b Hin.
    apply (index_get_In _ _ _ (NoDup_categories fm)) in Hin.
    unfold _organize_categories in Hin. rewrite get_fold in Hin.
    cbn [Dict.get get_or app] in Hin.
    destruct (members c fm); [discriminate | now injection Hin as <-]. }
  induction (_organize_categories fm) as [|[c b] d IH]; simpl; [reflexivity|].
  rewrite (H c b) by now left. f_equal. apply IH.
  intros c' b' Hin. apply H. now right.
Qed.

End DocumentFacts.

(* ------------------------------------------------------------------ *)
(** ** Document theorems *)

Module Listing.

Import Agent Documents IndexSpec IndexFacts FirstSeen StoreFacts AgentFacts
  DocumentFacts.

Local Arguments String.append : simpl never.

(** X7. On a taxonomy with distinct identifiers the category document of
    [c] shows, under its heading and explanation, one bullet for each
    record of category [c] and for no other, in taxonomy order, each with
    the record's own short description or the placeholder. *)
Theorem category_document_lists_its_records (fm : Taxonomy) (r : Rng)
  (c : option string) :
  NoDup (Dict.keys fm) ->
  _generate_category_response c (init fm r)
  = (Return ("# " ++ py_str c ++ nl ++ nl ++ explain_category c ++ nl ++ nl
             ++ "## Failure Modes in this Category:" ++ nl
             ++ join (map record_bullet (records_of c fm))),
     init fm r).
Proof.
  intros Hnd. rewrite category_response_eq. unfold category_document.
  cbn [init failure_modes categories].
  now rewrite modes_in_organize, (mode_bullets_members _ _ Hnd).
Qed.

Lemma category_document_lists_its_records_witness :
  _generate_category_response (Some "Communication Failures")
    (init Examples.taxonomy Examples.counting)
  = (Return ("# Communication Failures" ++ nl ++ nl
             ++ explain_category (Some "Communication Failures") ++ nl ++ nl
             ++ "## Failure Modes in this Category:" ++ nl
             ++ "- **Information Withholding**: Agents keep facts to themselves."
             ++ nl
             ++ "- **Decision Paralysis**: No description available." ++ nl),
     init Examples.taxonomy Examples.counting).
Proof.
  apply (category_document_lists_its_records Examples.taxonomy
           Examples.counting (Some "Communication Failures")).
  repeat constructor; simpl; intuition discriminate.
Defined.

(** X8. On a taxonomy with distinct identifiers the all-modes document
    has one section per category, in the order in which the taxonomy first
    mentions the categories, and each section has one bullet per record of
    that category in taxonomy order. *)
Theorem all_modes_document_by_category (fm : Taxonomy) (r : Rng) :
  NoDup (Dict.keys fm) ->
  _generate_all_failure_modes_response (init fm r)
  = (Return ("# All Failure Modes" ++ nl ++ nl
             ++ join (map (fun c =>
                             "## " ++ py_str c ++ nl
                             ++ join (map record_bullet (records_of c fm)) ++ nl)
                        (first_seen [] (map (fun item => category (snd item)) fm)))),
     init fm r).
Proof.
  intros Hnd. rewrite all_failure_modes_response_eq. unfold all_modes_document.
  cbn [init failure_modes categories].
  rewrite (index_shape fm) at 1. rewrite map_map.
  unfold _organize_categories at 1. rewrite (keys_fold fm []).
  cbn [Dict.keys map app fst snd].
  do 5 f_equal. apply (f_equal join). apply map_ext. intros c.
  now rewrite (mode_bullets_members _ _ Hnd).
Qed.

Lemma all_modes_document_by_category_witness :
  _generate_all_failure_modes_response (init Examples.taxonomy Examples.counting)
  = (Return ("# All Failure Modes" ++ nl ++ nl
             ++ "## Communication Failures" ++ nl
             ++ "- **Information Withholding**: Agents keep facts to themselves."
             ++ nl
             ++ "- **Decision Paralysis**: No description available." ++ nl
             ++ nl
             ++ "## Alignment Failures" ++ nl
             ++ "- **Inter-Agent Misalignment**: Agents pull in different directions."
             ++ nl ++ nl),
     init Examples.taxonomy Examples.counting).
Proof.
  apply (all_modes_document_by_category Examples.taxonomy Examples.counting).
  repeat constructor; simpl; intuition discriminate.
Defined.

(** X27. The all-categories document has one section per category, in the
    order in which the taxonomy first mentions them, a record without
    category giving a section headed "None". A section carries the fixed
    explanation when the category is one of the three names of the table,
    spelled exactly so, and otherwise the placeholder that quotes the
    category. *)
Theorem all_categories_document_by_category (fm : Taxonomy) (r : Rng) :
  _generate_all_categories_response (init fm r)
  = (Return ("# All Failure Mode Categories" ++ nl ++ nl
             ++ join (map (fun c => "## " ++ py_str c ++ nl
                                    ++ explain_category c ++ nl ++ nl)
                        (first_seen [] (map (fun item => category (snd item)) fm)))),
     init fm r)
  /\ (forall c,
         ~ In c [Some "Communication Failures"; Some "Alignment Failures";
                 Some "Decision/Coordination Failures"] ->
         explain_category c
         = "No description available for " ++ py_str c ++ ".")
  /\ (forall c,
         In c [Some "Communication Failures"; Some "Alignment Failures";
               Some "Decision/Coordination Failures"] ->
         explain_category c
         <> "No description available for " ++ py_str c ++ ".").
Proof.
  split; [|split].
  - rewrite all_categories_response_eq. unfold all_categories_document.
    cbn [init categories]. unfold _organize_categories.
    now rewrite (keys_fold fm []).
  - intros c Hc. unfold explain_category, category_descriptions.
    cbn [Dict.get].
    destruct (Dict.opt_eqb c (Some "Communication Failures")) eqn:E1;
      [apply opt_eqb_eq in E1; subst; exfalso; apply Hc; simpl; tauto|].
    destruct (Dict.opt_eqb c (Some "Alignment Failures")) eqn:E2;
      [apply opt_eqb_eq in E2; subst; exfalso; apply Hc; simpl; tauto|].
    destruct (Dict.opt_eqb c (Some "Decision/Coordination Failures")) eqn:E3;
      [apply opt_eqb_eq in E3; subst; exfalso; apply Hc; simpl; tauto|].
    reflexivity.
  - intros c Hc. simpl in Hc.
    destruct Hc as [<-|[<-|[<-|[]]]]; vm_compute; discriminate.
Qed.

End Listing.

(* ------------------------------------------------------------------ *)
(** ** More on the SQL operators and the tables *)

Module TableFacts.

Import Database LogSpec SqlFacts LogFacts.

Local Open Scope Z_scope.

Section Ordering.

Context {A : Type}.
Variable key : A -> Z.

(** Sorting rows that already come in descending key order changes
    nothing: rows with equal keys are not reordered. *)
Lemma order_by_desc_sorted_input (rows : list A) :
  StronglySorted (fun a b => key b <= key a) rows ->
  order_by_desc key rows = rows.
Proof.
  unfold order_by_desc.
  assert (Hins : forall x acc,
             Forall (fun y => key x <= key y) acc ->
             insert_desc key x acc = (acc ++ [x])%list).
  { intros x acc. induction 1 as [|y acc Hy _ IH]; simpl; [reflexivity|].
    destruct (key y <? key x) eqn:E; [apply Z.ltb_lt in E; lia|].
    now rewrite IH. }
  assert (H : forall acc,
             StronglySorted (fun a b => key b <= key a) rows ->
             (forall y x, In y acc -> In x rows -> key x <= key y) ->
             fold_left (fun sorted x => insert_desc key x sorted) rows acc
             = (acc ++ rows)%list).
  { induction rows as [|x rows IH]; intros acc Hrows Hacc; simpl.
    - now rewrite app_nil_r.
    - inversion Hrows as [|? ? Hrows' Hx]; subst. rewrite Forall_forall in Hx.
      rewrite Hins.
      + rewrite IH; [now rewrite <- app_assoc | exact Hrows' |].
        intros y x' Hy Hx'. apply in_app_iff in Hy.
        destruct Hy as [Hy|[<-|[]]].
        * apply Hacc; [exact Hy | now right].
        * now apply Hx.
      + apply Forall_forall. intros y Hy. apply Hacc; [exact Hy | now left]. }
  intros Hrows. apply (H [] Hrows). intros y x [].
Qed.

(** Sorting rows whose keys grow along the scan reverses them. *)
Lemma order_by_desc_increasing_input (rows : list A) :
  StronglySorted (fun a b => key a < key b) rows ->
  order_by_desc key rows = rev rows.
Proof.
  unfold order_by_desc.
  assert (Hins : forall x acc,
             Forall (fun y => key y < key x) acc ->
             insert_desc key x acc = x :: acc).
  { intros x acc Hacc. destruct Hacc as [|y acc Hy _]; simpl; [reflexivity|].
    apply Z.ltb_lt in Hy. now rewrite Hy. }
  assert (H : forall acc,
             StronglySorted (fun a b => key a < key b) rows ->
             (forall y x, In y acc -> In x rows -> key y < key x) ->
             fold_left (fun sorted x => insert_desc key x sorted) rows acc
             = (rev rows ++ acc)%list).
  { induction rows as [|x rows IH]; intros acc Hrows Hacc; simpl.
    - reflexivity.
    - inversion Hrows as [|? ? Hrows' Hx]; subst. rewrite Forall_forall in Hx.
      rewrite Hins.
      + rewrite IH; [now rewrite <- app_assoc | exact Hrows' |].
        intros y x' [<-|Hy] Hx'; [now apply Hx|].
        apply Hacc; [exact Hy | now right].
      + apply Forall_forall. intros y Hy. apply Hacc; [exact Hy | now left]. }
  intros Hrows. rewrite (H [] Hrows); [now rewrite app_nil_r|]. intros y x [].
Qed.

End Ordering.

Section Grouping.

Context {A : Type}.
Variable key : A -> string.

Lemma concat_add_to_group (k : string) (x : A)
  (groups : list (string * list A)) :
  Permutation (List.concat (map snd (add_to_group k x groups)))
    (x :: List.concat (map snd groups)).
Proof.
  induction groups as [|[k' xs] groups IH]; simpl.
  - reflexivity.
  - destruct (String.eqb k k'); simpl.
    + rewrite <- app_assoc. simpl. apply Permutation_sym, Permutation_middle.
    + rewrite IH. apply Permutation_sym, Permutation_middle.
Qed.

(** Every row of the scan falls in exactly one group. *)
Lemma concat_group_by (rows : list A) :
  Permutation (List.concat (map snd (group_by key rows))) rows.
Proof.
  unfold group_by.
  assert (H : forall acc,
             Permutation
               (List.concat
                  (map snd (fold_left (fun groups x => add_to_group (key x) x groups)
                              rows acc)))
               (List.concat (map snd acc) ++ rows)).
  { induction rows as [|x rows IH]; intros acc; simpl.
    - now rewrite app_nil_r.
    - rewrite IH, concat_add_to_group. simpl. apply Permutation_middle. }
  apply (H []).
Qed.

Lemma length_concat_sum (ls : list (list A)) :
  Z.of_nat (List.length (List.concat ls))
  = sum_Z (map (fun l => Z.of_nat (List.length l)) ls).
Proof.
  induction ls as [|l ls IH]; simpl; [reflexivity|].
  rewrite length_app, Nat2Z.inj_add, IH. reflexivity.
Qed.

(** The sizes of the groups add up to the number of rows. *)
Lemma group_sizes_total (rows : list A) :
  sum_Z (map (fun g : string * list A => Z.of_nat (List.length (snd g)))
           (group_by key rows))
  = Z.of_nat (List.length rows).
Proof.
  rewrite <- (Permutation_length (concat_group_by rows)), length_concat_sum.
  now rewrite map_map.
Qed.

End Grouping.

Lemma sum_Z_perm (l l' : list Z) : Permutation l l' -> sum_Z l = sum_Z l'.
Proof.
  induction 1; simpl; lia.
Qed.

Lemma sql_group_sizes_total {A} (key : A -> string) (descending : bool)
  (rows : list A) :
  sum_Z (map (fun g : string * list A => Z.of_nat (List.length (snd g)))
           (sql_group_by descending key rows))
  = Z.of_nat (List.length rows).
Proof.
  rewrite (sum_Z_perm _ _
             (Permutation_map _ (SqlFacts.sql_group_by_perm key descending rows))).
  apply group_sizes_total.
Qed.

(** Sequential rowids. *)
Lemma next_rowid_count_from (n : nat) :
  next_rowid (map (fun i => 1 + Z.of_nat i) (seq 0 n)) = 1 + Z.of_nat n.
Proof.
  unfold next_rowid. f_equal.
  induction n as [|n IH]; [reflexivity|].
  rewrite seq_S, map_app, fold_right_app. cbn [map fold_right plus].
  assert (H : forall m l,
             0 <= m ->
             fold_right Z.max m l = Z.max m (fold_right Z.max 0 l)).
  { intros m l Hm. induction l as [|z l IHl]; simpl; lia. }
  rewrite H by lia. rewrite IH. lia.
Qed.

End TableFacts.

(* ------------------------------------------------------------------ *)
(** ** Table theorems *)

Module Tables.

Import Database LogSpec SqlFacts LogFacts TableFacts Rowid.

Local Open Scope Z_scope.

Lemma rowids_S (n : nat) :
  rowids (S n) = (rowids n ++ [1 + Z.of_nat n])%list.
Proof. unfold rowids. now rewrite seq_S, map_app. Qed.

Lemma perform_numbered (c : Call) (db : State) :
  numbered db -> numbered (final (perform c) db).
Proof.
  intros [Hq [Hv Hf]].
  destruct c as [now query | now name | now m t s r cm];
    unfold numbered, final; cbn [perform snd log_user_query
      log_viewed_failure_mode log_solution_feedback user_queries
      viewed_failure_modes solution_feedback];
    repeat split; try assumption;
    rewrite map_app, length_app, Nat.add_1_r, rowids_S; cbn [map q_id v_id f_id];
    f_equal; try assumption; f_equal.
  - rewrite Hq. apply next_rowid_count_from.
  - rewrite Hv. apply next_rowid_count_from.
  - rewrite Hf. apply next_rowid_count_from.
Qed.

Lemma run_numbered (calls : list Call) (db : State) :
  numbered db -> numbered (run calls db).
Proof.
  revert db; induction calls as [|c calls IH]; intros db Hdb; simpl.
  - exact Hdb.
  - apply IH. now apply perform_numbered.
Qed.

Lemma run_lengths (calls : list Call) :
  let db := run calls _create_tables in
  List.length (user_queries db) = List.length (queries_of calls)
  /\ List.length (viewed_failure_modes db) = List.length (views_of calls)
  /\ List.length (solution_feedback db) = List.length (feedback_of calls).
Proof.
  intros db. repeat split.
  - destruct (run_user_queries calls _create_tables) as [_ H]; [constructor|].
    fold db in H. apply (f_equal (@List.length _)) in H.
    now rewrite length_map in H.
  - pose proof (run_viewed calls _create_tables) as H. fold db in H.
    apply (f_equal (@List.length _)) in H. now rewrite length_map in H.
  - pose proof (run_feedback calls _create_tables) as H. fold db in H.
    apply (f_equal (@List.length _)) in H. now rewrite length_map in H.
Qed.

(** X9. In a session that starts on empty tables each table numbers its
    rows 1, 2, 3, ... in call order, whatever calls on the other tables
    come in between, and every logging call returns the number of rows its
    table holds once the call is done. *)
Theorem rowids_count_up (calls : list Call) :
  let db := run calls _create_tables in
  map q_id (user_queries db) = rowids (List.length (queries_of calls))
  /\ map v_id (viewed_failure_modes db) = rowids (List.length (views_of calls))
  /\ map f_id (solution_feedback db) = rowids (List.length (feedback_of calls))
  /\ forall c, result (perform c) db = Return (Z.of_nat (S (rows_before c calls))).
Proof.
  intros db.
  assert (Hnum : numbered db).
  { apply run_numbered. repeat split. }
  destruct (run_lengths calls) as [Lq [Lv Lf]]. fold db in Lq, Lv, Lf.
  destruct Hnum as [Hq [Hv Hf]]. rewrite Lq in Hq. rewrite Lv in Hv.
  rewrite Lf in Hf. repeat split; try assumption.
  intros c. destruct c as [now query | now name | now m t s r cm];
    unfold result; cbn [perform fst log_user_query log_viewed_failure_mode
      log_solution_feedback rows_before]; f_equal.
  - rewrite Hq. unfold rowids. rewrite next_rowid_count_from. lia.
  - rewrite Hv. unfold rowids. rewrite next_rowid_count_from. lia.
  - rewrite Hf. unfold rowids. rewrite next_rowid_count_from. lia.
Qed.

(** X10. The log is append-only: whatever the tables hold when a session
    starts, they hold the same rows in the same places afterwards, followed
    by one new row per call, in call order, with the text that was logged. *)
Theorem tables_only_grow (calls : list Call) (db : State) :
  exists queries views feedback,
    user_queries (run calls db) = (user_queries db ++ queries)%list
    /\ viewed_failure_modes (run calls db)
       = (viewed_failure_modes db ++ views)%list
    /\ solution_feedback (run calls db) = (solution_feedback db ++ feedback)%list
    /\ map query_row queries = queries_of calls
    /\ map v_failure_mode views = views_of calls
    /\ map feedback_row feedback = feedback_of calls.
Proof.
  revert db; induction calls as [|c calls IH]; intros db.
  - exists [], [], []. simpl. now rewrite !app_nil_r.
  - destruct (IH (final (perform c) db)) as [q [v [f [Hq [Hv [Hf [Mq [Mv Mf]]]]]]]].
    cbn [run]. rewrite Hq, Hv, Hf.
    destruct c as [now query | now name | now m t s r cm];
      unfold final; cbn [perform snd log_user_query log_viewed_failure_mode
        log_solution_feedback user_queries viewed_failure_modes
        solution_feedback].
    + exists ({| q_id := next_rowid (map q_id (user_queries db));
                 q_query := query; q_timestamp := now |} :: q), v, f.
      rewrite <- app_assoc. cbn [queries_of views_of feedback_of flat_map app map].
      unfold query_row at 1. cbn [q_timestamp q_query].
      fold (queries_of calls) (views_of calls) (feedback_of calls).
      rewrite Mq, Mv, Mf. repeat split.
    + exists q, ({| v_id := next_rowid (map v_id (viewed_failure_modes db));
                    v_failure_mode := name; v_timestamp := now |} :: v), f.
      rewrite <- app_assoc. cbn [queries_of views_of feedback_of flat_map app map].
      cbn [v_failure_mode].
      fold (queries_of calls) (views_of calls) (feedback_of calls).
      rewrite Mq, Mv, Mf. repeat split.
    + exists q, v,
        ({| f_id := next_rowid (map f_id (solution_feedback db));
            f_failure_mode := m; f_solution_type := t; f_solution_text := s;
            f_rating := r; f_comment := cm; f_timestamp := now |} :: f).
      rewrite <- app_assoc. cbn [queries_of views_of feedback_of flat_map app map].
      unfold feedback_row at 1.
      cbn [f_failure_mode f_solution_type f_rating].
      fold (queries_of calls) (views_of calls) (feedback_of calls).
      rewrite Mq, Mv, Mf. repeat split.
Qed.

Lemma StronglySorted_map_key {A} (key : A -> Z) (R : Z -> Z -> Prop)
  (rows : list A) :
  StronglySorted R (map key rows) ->
  StronglySorted (fun a b => R (key a) (key b)) rows.
Proof.
  induction rows as [|x rows IH]; simpl; intros H; [constructor|].
  inversion H as [|? ? Hs Hall]; subst. constructor; [now apply IH|].
  rewrite Forall_forall in *. intros y Hy. apply Hall. now apply in_map.
Qed.

Lemma session_timestamps (calls : list Call) :
  map q_timestamp (user_queries (run calls _create_tables))
  = map fst (queries_of calls).
Proof.
  destruct (run_user_queries calls _create_tables) as [_ H]; [constructor|].
  cbn [_create_tables user_queries map app] in H.
  rewrite <- H, map_map. reflexivity.
Qed.

(** X11. When the clock has advanced between any two logged queries,
    [get_recent_queries(limit)] is the table read backwards and cut at
    [limit]: the last query logged comes first. *)
Theorem recent_queries_with_advancing_clock (calls : list Call)
  (limit : nat) :
  StronglySorted Z.lt (map fst (queries_of calls)) ->
  let db := run calls _create_tables in
  result (get_recent_queries limit) db
  = Return (firstn limit (rev (user_queries db))).
Proof.
  intros Hclock db. unfold result, get_recent_queries, gets, limit_rows.
  cbn [fst]. rewrite order_by_desc_increasing_input; [reflexivity|].
  apply (StronglySorted_map_key q_timestamp Z.lt).
  unfold db. now rewrite session_timestamps.
Qed.

Lemma recent_queries_with_advancing_clock_witness :
  result (get_recent_queries 2)
    (run [LogQuery 10 "one"; LogView 11 "X"; LogQuery 12 "two";
          LogQuery 15 "three"] _create_tables)
  = Return [ {| q_id := 3; q_query := "three"; q_timestamp := 15 |};
             {| q_id := 2; q_query := "two"; q_timestamp := 12 |} ].
Proof.
  apply (recent_queries_with_advancing_clock
           [LogQuery 10 "one"; LogView 11 "X"; LogQuery 12 "two";
            LogQuery 15 "three"] 2).
  repeat constructor.
Defined.

(** X12. When no query is logged at a later time than the one before it,
    as when all are logged within the same second, [get_recent_queries(limit)]
    is the beginning of the table: it returns the oldest [limit] queries,
    oldest first, and leaves out the latest ones. *)
Theorem recent_queries_within_one_second (calls : list Call) (limit : nat) :
  StronglySorted Z.ge (map fst (queries_of calls)) ->
  let db := run calls _create_tables in
  result (get_recent_queries limit) db
  = Return (firstn limit (user_queries db)).
Proof.
  intros Hclock db. unfold result, get_recent_queries, gets, limit_rows.
  cbn [fst]. rewrite order_by_desc_sorted_input; [reflexivity|].
  assert (H : StronglySorted (fun a b => q_timestamp a >= q_timestamp b)
                (user_queries db)).
  { apply (StronglySorted_map_key q_timestamp Z.ge).
    unfold db. now rewrite session_timestamps. }
  clear Hclock. induction H as [|x l Hl IH Hx]; constructor; [exact IH|].
  eapply Forall_impl; [|exact Hx]. cbn beta. intros y Hy. lia.
Qed.

Lemma recent_queries_within_one_second_witness :
  result (get_recent_queries 2)
    (run [LogQuery 10 "one"; LogQuery 10 "two"; LogQuery 10 "three"]
       _create_tables)
  = Return [ {| q_id := 1; q_query := "one"; q_timestamp := 10 |};
             {| q_id := 2; q_query := "two"; q_timestamp := 10 |} ].
Proof.
  apply (recent_queries_within_one_second
           [LogQuery 10 "one"; LogQuery 10 "two"; LogQuery 10 "three"] 2).
  repeat constructor; discriminate.
Defined.

(** X13. [get_recent_queries(limit)] returns exactly the smaller of
    [limit] and the number of queries logged, each of them a row of the
    table; it is empty only for a limit of zero or an empty query table. *)
Theorem recent_queries_count (db : State) (limit : nat) :
  exists rows,
    result (get_recent_queries limit) db = Return rows
    /\ List.length rows = Nat.min limit (List.length (user_queries db))
    /\ (forall row, In row rows -> In row (user_queries db))
    /\ (rows = [] <-> limit = 0%nat \/ user_queries db = []).
Proof.
  exists (firstn limit (order_by_desc q_timestamp (user_queries db))).
  pose proof (order_by_desc_perm q_timestamp (user_queries db)) as Hperm.
  assert (Hlen : List.length
                   (firstn limit (order_by_desc q_timestamp (user_queries db)))
                 = Nat.min limit (List.length (user_queries db))).
  { now rewrite length_firstn, (Permutation_length Hperm). }
  repeat split.
  - exact Hlen.
  - intros row Hrow. apply firstn_In in Hrow.
    exact (Permutation_in _ Hperm Hrow).
  - intros Hnil. rewrite Hnil in Hlen. cbn [List.length] in Hlen.
    destruct limit as [|n]; [now left | right].
    destruct (user_queries db); [reflexivity | discriminate].
  - intros [-> | Hempty]; [reflexivity|].
    apply length_zero_iff_nil. rewrite Hlen, Hempty. cbn [List.length].
    apply Nat.min_0_r.
Qed.

(** The ranking behind [get_most_viewed_failure_modes], on any table. *)
Lemma most_viewed_ranking (db : State) (limit : nat) :
  let groups := group_by v_failure_mode (viewed_failure_modes db) in
  exists ranking,
    result (get_most_viewed_failure_modes limit) db
    = Return (firstn limit ranking)
    /\ Permutation ranking (map count_views groups).
Proof.
  intros groups.
  exists (order_by_desc view_count
            (map count_views
               (sql_group_by true v_failure_mode (viewed_failure_modes db)))).
  split; [reflexivity|].
  apply (perm_trans (order_by_desc_perm _ _)).
  apply Permutation_map. apply SqlFacts.sql_group_by_perm.
Qed.

(** X14. The counts that [get_most_viewed_failure_modes] ranks add up to
    the number of views logged, every ranked name has at least one view,
    and there is one entry per distinct viewed name; the result is the
    first [limit] entries of that ranking. *)
Theorem most_viewed_accounts_for_every_view (db : State) (limit : nat) :
  let viewed := map v_failure_mode (viewed_failure_modes db) in
  exists ranking,
    result (get_most_viewed_failure_modes limit) db
    = Return (firstn limit ranking)
    /\ sum_Z (map view_count ranking) = Z.of_nat (List.length viewed)
    /\ Forall (fun entry => 1 <= view_count entry) ranking
    /\ List.length ranking = List.length (nodup string_dec viewed).
Proof.
  intros viewed.
  destruct (most_viewed_ranking db limit) as [ranking [Hres Hperm]].
  set (groups := group_by v_failure_mode (viewed_failure_modes db)) in *.
  exists ranking. split; [exact Hres|]. split; [|split].
  - rewrite (sum_Z_perm _ _ (Permutation_map view_count Hperm)), map_map.
    unfold viewed. rewrite length_map.
    apply (group_sizes_total v_failure_mode).
  - apply Forall_forall. intros entry Hin.
    apply (Permutation_in _ Hperm) in Hin. apply in_map_iff in Hin.
    destruct Hin as [[k xs] [<- Hin]]. apply group_by_In in Hin.
    destruct Hin as [_ Hne]. unfold count_views. cbn [view_count snd].
    destruct xs; [contradiction|]. cbn [List.length]. lia.
  - rewrite (Permutation_length Hperm), length_map.
    rewrite <- (length_map fst groups).
    apply Permutation_length, NoDup_Permutation.
    + apply group_by_NoDup.
    + apply NoDup_nodup.
    + intros name. rewrite nodup_In. apply group_by_keys.
Qed.

(** Modes with equal counts are listed in descending order of their names,
    compared byte by byte, whatever the order in which they were viewed. *)
Example most_viewed_ties_by_descending_name :
  let session :=
    map (LogView 0) ["z"; "b"; "z"; "a"; "b"; "c"; "a"; "B"; "ab"; "a b"] in
  result (get_most_viewed_failure_modes 5) (run session _create_tables)
  = Return [ {| failure_mode := "z"; view_count := 2 |};
             {| failure_mode := "b"; view_count := 2 |};
             {| failure_mode := "a"; view_count := 2 |};
             {| failure_mode := "c"; view_count := 1 |};
             {| failure_mode := "ab"; view_count := 1 |} ]
  /\ result (get_most_viewed_failure_modes 2) (run session _create_tables)
     = Return [ {| failure_mode := "z"; view_count := 2 |};
                {| failure_mode := "b"; view_count := 2 |} ].
Proof. split; reflexivity. Qed.

(** The two mappings of the feedback statistics list their keys in
    ascending byte order. *)
Example feedback_stats_in_key_order :
  let session :=
    [ LogFeedback 1 "m2" "tactical" "s" (Some 4) None;
      LogFeedback 2 "m1" "structural" "s" None None;
      LogFeedback 3 "m3" "Tactical" "s" (Some 2) None;
      LogFeedback 4 "m1" "structural" "s" (Some 5) None;
      LogFeedback 5 "m0" "alpha" "s" (Some 1) None;
      LogFeedback 6 "m2" "tactical" "s" (Some 1) None ] in
  result get_solution_feedback_stats (run session _create_tables)
  = Return {| avg_ratings_by_type :=
                [ ("Tactical", Some (2 # 1)%Q); ("alpha", Some (1 # 1)%Q);
                  ("structural", Some (5 # 1)%Q);
                  ("tactical", Some (5 # 2)%Q) ];
              feedback_count_by_mode :=
                [ ("m0", 1); ("m1", 2); ("m2", 2); ("m3", 1) ] |}.
Proof. reflexivity. Qed.

Lemma sum_Z_bounds (lo hi : Z) (zs : list Z) :
  Forall (fun z => lo <= z <= hi) zs ->
  lo * Z.of_nat (List.length zs) <= sum_Z zs <= hi * Z.of_nat (List.length zs).
Proof.
  induction 1 as [|z zs Hz _ IH]; cbn [List.length sum_Z fold_right].
  - lia.
  - fold (sum_Z zs). rewrite Nat2Z.inj_succ. lia.
Qed.

Lemma mean_bounds (lo hi : Z) (zs : list Z) :
  zs <> [] -> Forall (fun z => lo <= z <= hi) zs ->
  (inject_Z lo <= mean zs /\ mean zs <= inject_Z hi)%Q.
Proof.
  intros Hne Hall. destruct (sum_Z_bounds lo hi zs Hall) as [Hlo Hhi].
  assert (Hn : (0 < inject_Z (Z.of_nat (List.length zs)))%Q).
  { rewrite <- (Zlt_Qlt 0). destruct zs; [contradiction|].
    cbn [List.length]. lia. }
  rewrite (mean_is_quotient zs). split.
  - apply Qle_shift_div_l; [exact Hn|].
    rewrite <- inject_Z_mult, <- Zle_Qle. exact Hlo.
  - apply Qle_shift_div_r; [exact Hn|].
    rewrite <- inject_Z_mult, <- Zle_Qle. exact Hhi.
Qed.

Lemma ratings_of_In (t : string) (rows : list FeedbackRow) (z : Z) :
  In z (ratings_of t (map feedback_row rows)) ->
  exists row, In row rows /\ f_rating row = Some z.
Proof.
  rewrite ratings_of_rows. unfold non_null, group_rows. intros Hin.
  apply in_flat_map in Hin. destruct Hin as [v [Hv Hz]].
  apply in_map_iff in Hv. destruct Hv as [row [<- Hrow]].
  apply filter_In in Hrow. destruct Hrow as [Hrow _].
  exists row. split; [exact Hrow|].
  destruct (f_rating row) as [z'|]; [|contradiction].
  destruct Hz as [->|[]]. reflexivity.
Qed.

(** X15. Every average that [get_solution_feedback_stats] reports lies
    between the smallest and the largest rating in the table: when all
    ratings are between [lo] and [hi], so is the average of each solution
    type, and no reported average is NULL. *)
Theorem average_within_rating_bounds (db : State) (lo hi : Z)
  (stats : FeedbackStats) (t : string) (avg : option Q) :
  (forall row rating,
      In row (solution_feedback db) -> f_rating row = Some rating ->
      lo <= rating <= hi) ->
  result get_solution_feedback_stats db = Return stats ->
  Dict.get String.eqb t (avg_ratings_by_type stats) = Some avg ->
  exists q, avg = Some q /\ (inject_Z lo <= q /\ q <= inject_Z hi)%Q.
Proof.
  intros Hrange Hstats Hget.
  destruct (feedback_stats_eq db) as [stats' [Hrun [Havg _]]].
  unfold result in Hstats. rewrite Hrun in Hstats. cbn [fst] in Hstats.
  injection Hstats as ->. rewrite Havg in Hget.
  destruct (ratings_of t (map feedback_row (solution_feedback db)))
    as [|z zs] eqn:Hr; [discriminate|].
  injection Hget as <-. exists (mean (z :: zs)). split; [reflexivity|].
  apply mean_bounds; [discriminate|].
  apply Forall_forall. intros z' Hz'. rewrite <- Hr in Hz'.
  apply ratings_of_In in Hz'. destruct Hz' as [row [Hrow Hrating]].
  now apply (Hrange row).
Qed.

Lemma average_within_rating_bounds_witness :
  exists q,
    Some (5 # 2)%Q = Some q /\ (inject_Z 1 <= q /\ q <= inject_Z 5)%Q.
Proof.
  apply (average_within_rating_bounds
           (run [LogFeedback 1 "A" "tactical" "s" (Some 1) None;
                 LogFeedback 2 "B" "tactical" "s" (Some 4) None;
                 LogFeedback 3 "B" "structural" "s" None None] _create_tables)
           1 5
           {| avg_ratings_by_type := [("tactical", Some (5 # 2)%Q)];
              feedback_count_by_mode := [("A", 1); ("B", 2)] |}
           "tactical" (Some (5 # 2)%Q)).
  - intros row rating Hin Hr. simpl in Hin.
    destruct Hin as [<-|[<-|[<-|[]]]]; simpl in Hr;
      try discriminate; injection Hr as <-; lia.
  - reflexivity.
  - reflexivity.
Defined.

(** X16. The feedback counts per failure mode add up to the number of
    feedback entries, rated or not, and every mode listed has at least one
    entry. *)
Theorem feedback_counts_account_for_every_entry (db : State) :
  exists stats,
    result get_solution_feedback_stats db = Return stats
    /\ sum_Z (map snd (feedback_count_by_mode stats))
       = Z.of_nat (List.length (solution_feedback db))
    /\ Forall (fun entry : string * Z => 1 <= snd entry)
         (feedback_count_by_mode stats).
Proof.
  unfold result, get_solution_feedback_stats, bind, gets, ret.
  cbv beta iota zeta. eexists. split; [reflexivity|].
  cbn [feedback_count_by_mode fst]. split.
  - rewrite map_map. cbn [snd].
    apply (sql_group_sizes_total f_failure_mode false).
  - apply Forall_forall. intros [m n] Hin. apply in_map_iff in Hin.
    destruct Hin as [[k xs] [Heq Hin]]. cbn [fst snd] in Heq.
    injection Heq as <- <-. apply SqlFacts.sql_group_by_In in Hin.
    destruct Hin as [_ Hne].
    cbn [snd]. destruct xs; [contradiction|]. cbn [List.length]. lia.
Qed.

End Tables.

(* ------------------------------------------------------------------ *)
(** ** More routing theorems *)

Module Requests.

Import Agent Documents RouterSpec TextFacts AgentFacts RouterFacts Loader.

Local Arguments String.append : simpl never.

Lemma lower_ascii_idempotent (c : ascii) :
  lower_ascii (lower_ascii c) = lower_ascii c.
Proof. destruct c as [[] [] [] [] [] [] [] []]; reflexivity. Qed.

Lemma lower_idempotent (s : string) : Text.lower (Text.lower s) = Text.lower s.
Proof.
  induction s as [|c s IH]; simpl; [reflexivity|].
  now rewrite lower_ascii_idempotent, IH.
Qed.

Lemma find_of_match {A} (f : A -> bool) (l : list A) (x : A) :
  In x l -> f x = true -> exists y, find f l = Some y.
Proof.
  intros Hin Hx. destruct (find f l) as [y|] eqn:Hfind; [now exists y|].
  rewrite (find_none f l Hfind x Hin) in Hx. discriminate.
Qed.

(** X17. When the taxonomy file cannot be read the agent starts on the
    empty taxonomy: it has no category, and it answers every request
    without raising: with the bare heading of the all-modes or of the
    all-categories document for the two listing commands, with the help
    document for anything else. *)
Theorem degraded_store_still_answers (lower : string -> string) (r : Rng)
  (request : string) :
  let self := new_agent None r in
  result get_all_categories self = Return []
  /\ process_user_request lower request self
     = (Return (if asks_all_modes lower request
                then "# All Failure Modes" ++ nl ++ nl
                else if asks_all_categories lower request
                     then "# All Failure Mode Categories" ++ nl ++ nl
                     else help_document),
        self).
Proof.
  intros self. split; [reflexivity|].
  rewrite process_user_request_eq. cbn [self new_agent _load_failure_modes
    _create_default_failure_modes init failure_modes categories
    _organize_categories fold_left Dict.keys map find scan_categories].
  rewrite general_requests_eq.
  destruct (asks_all_modes lower request);
    [now rewrite all_failure_modes_response_eq|].
  destruct (asks_all_categories lower request);
    [now rewrite all_categories_response_eq | now rewrite help_response_eq].
Qed.

(** X18. A request whose lower-cased text contains the lower-cased text of
    any identifier of the taxonomy is answered by the failure-mode
    generator, for an identifier that occurs in the request: never with a
    category document, a listing or the help text, and never with the
    [AttributeError] of the category loop, whatever buckets the index has.
    The answer is the failure-mode document of that identifier when its
    record holds a list, or nothing, for both solution fields, and
    [TypeError] when it holds [null] for one of them. *)
Theorem named_mode_is_answered (lower : string -> string) (self : State)
  (request name pre post : string) :
  In name (Dict.keys (failure_modes self)) ->
  lower request = pre ++ lower name ++ post ->
  exists chosen,
    In chosen (Dict.keys (failure_modes self))
    /\ (exists pre' post', lower request = pre' ++ lower chosen ++ post')
    /\ final (process_user_request lower request) self
       = after_demonstration self chosen
    /\ (forall tactical structural,
           get_default
             (tactical_solutions (info (failure_modes self) chosen)) []
           = Some tactical ->
           get_default
             (structural_solutions (info (failure_modes self) chosen)) []
           = Some structural ->
           result (process_user_request lower request) self
           = Return (failure_mode_document (failure_modes self) chosen
                       (demonstration_of (failure_modes self) (rng self)
                          chosen)
                       tactical structural))
    /\ (tactical_solutions (info (failure_modes self) chosen) = Null
        \/ structural_solutions (info (failure_modes self) chosen) = Null ->
        result (process_user_request lower request) self = Raise TypeError).
Proof.
  intros Hin Hreq.
  assert (Hname : names_mode lower request name = true).
  { unfold names_mode. apply contains_iff. now exists pre, post. }
  destruct (find_of_match _ _ _ Hin Hname) as [chosen Hfind].
  exists chosen. destruct (find_some _ _ Hfind) as [Hc Hm].
  split; [exact Hc|]. split.
  - unfold names_mode in Hm. now apply contains_iff in Hm.
  - unfold final, result.
    rewrite (process_user_request_mode _ _ _ _ Hfind). cbn [fst snd].
    split; [reflexivity | split].
    + intros tactical structural Ht Hs.
      now apply failure_mode_outcome_lists.
    + apply failure_mode_outcome_null.
Qed.

Lemma named_mode_is_answered_witness :
  exists chosen,
    In chosen (Dict.keys Examples.with_null)
    /\ (exists pre' post',
           Text.lower "Tell me about VALUE MISALIGNMENT"
           = pre' ++ Text.lower chosen ++ post')
    /\ final (process_user_request Text.lower
                "Tell me about VALUE MISALIGNMENT")
         (init Examples.with_null Examples.counting)
       = after_demonstration (init Examples.with_null Examples.counting)
           chosen
    /\ (forall tactical structural,
           get_default
             (tactical_solutions (info Examples.with_null chosen)) []
           = Some tactical ->
           get_default
             (structural_solutions (info Examples.with_null chosen)) []
           = Some structural ->
           result (process_user_request Text.lower
                     "Tell me about VALUE MISALIGNMENT")
             (init Examples.with_null Examples.counting)
           = Return (failure_mode_document Examples.with_null chosen
                       (demonstration_of Examples.with_null Examples.counting
                          chosen)
                       tactical structural))
    /\ (tactical_solutions (info Examples.with_null chosen) = Null
        \/ structural_solutions (info Examples.with_null chosen) = Null ->
        result (process_user_request Text.lower
                  "Tell me about VALUE MISALIGNMENT")
          (init Examples.with_null Examples.counting)
        = Raise TypeError).
Proof.
  apply (named_mode_is_answered Text.lower
           (init Examples.with_null Examples.counting)
           "Tell me about VALUE MISALIGNMENT" "Value Misalignment"
           "tell me about " EmptyString).
  - right; left; reflexivity.
  - reflexivity.
Defined.

(** The two outcomes of X18 on sample taxonomies: the document of a record
    without fields in a store with a [None] bucket, and the [TypeError] of
    a record whose tactical list is [null]. *)
Example named_mode_answers :
  result (process_user_request Text.lower "What is SIGNAL DISTORTION?")
    (init Examples.uncategorised Examples.counting)
  = Return ("# Signal Distortion (Category: None)" ++ nl ++ nl
            ++ "## Definition" ++ nl ++ "No description available."
            ++ nl ++ nl ++ "## Demonstration" ++ nl
            ++ "No demonstration scenarios available for Signal Distortion."
            ++ nl ++ nl ++ "## PhD-Level Analysis" ++ nl
            ++ "No analysis available for Signal Distortion."
            ++ nl ++ nl ++ "## Solutions" ++ nl
            ++ nl ++ "### Tactical Solutions" ++ nl
            ++ nl ++ "### Structural Solutions" ++ nl)
  /\ result (process_user_request Text.lower
               "Tell me about VALUE MISALIGNMENT")
       (init Examples.with_null Examples.counting)
     = Raise TypeError.
Proof. split; reflexivity. Qed.

(** X19. Routing does not look at letter case: two requests with the same
    lower-cased text get the same answer and leave the agent in the same
    state, and with ASCII case folding a request is answered like its
    lower-cased form. *)
Theorem route_ignores_letter_case (self : State) (request : string) :
  (forall (lower : string -> string) (other : string),
      lower other = lower request ->
      process_user_request lower other self
      = process_user_request lower request self)
  /\ process_user_request Text.lower (Text.lower request) self
     = process_user_request Text.lower request self.
Proof.
  assert (H : forall (lower : string -> string) (other : string),
             lower other = lower request ->
             process_user_request lower other self
             = process_user_request lower request self).
  { intros lower other Heq. unfold process_user_request. now rewrite Heq. }
  split; [exact H|]. apply H. apply lower_idempotent.
Qed.

Lemma route_ignores_letter_case_witness :
  process_user_request Text.lower "LIST ALL Failure Modes"
    (init Examples.taxonomy Examples.counting)
  = process_user_request Text.lower "list all failure modes"
      (init Examples.taxonomy Examples.counting).
Proof.
  apply (proj1 (route_ignores_letter_case
                  (init Examples.taxonomy Examples.counting)
                  "list all failure modes") Text.lower "LIST ALL Failure Modes").
  reflexivity.
Defined.

End Requests.

(* ------------------------------------------------------------------ *)
(** ** The query handler *)

Module QueryHandler.

Import Agent Documents RouterSpec TextFacts AgentFacts RouterFacts.

Local Arguments String.append : simpl never.

Lemma lstrip_blank (s : string) : Window.blank s = true -> lstrip s = EmptyString.
Proof.
  induction s as [|c s IH]; simpl; [reflexivity|].
  destruct (is_space c); [exact IH | discriminate].
Qed.

Lemma strip_blank (s : string) :
  Window.blank s = true -> Text.strip s = EmptyString.
Proof. intros H. unfold Text.strip. now rewrite (lstrip_blank s H). Qed.

(** X20. An entry made of white space only is ignored: [_process_query]
    returns at once, logs nothing, routes nothing and leaves the response
    area and the entry as they are. *)
Theorem blank_query_is_ignored (lower : string -> string) (now : Z)
  (self : App.State) :
  Window.blank (App.query_entry self) = true ->
  App._process_query lower Text.strip now self = (Return tt, self).
Proof.
  intros H. unfold App._process_query, bind at 1, gets at 1.
  now rewrite (strip_blank _ H).
Qed.

Lemma blank_query_is_ignored_witness :
  let self :=
    {| App.agent := init Examples.taxonomy Examples.counting;
       App.db := Database._create_tables;
       App.query_entry := "   ";
       App.response_text := "earlier answer" |} in
  App._process_query Text.lower Text.strip 5 self = (Return tt, self).
Proof.
  apply (blank_query_is_ignored Text.lower 5). reflexivity.
Defined.

(** X21. A query that is not blank is logged, stripped, before it is
    routed. When the router returns, the response area shows the document
    and the entry is cleared. When the router raises, the handler raises
    too: the query stays logged, and the response area and the entry keep
    what they held. *)
Theorem query_is_logged_then_routed (lower strip : string -> string)
  (now : Z) (self : App.State) (c : ascii) (q : string) :
  strip (App.query_entry self) = String c q ->
  let query := String c q in
  let logged := final (Database.log_user_query now query) (App.db self) in
  App._process_query lower strip now self
  = match process_user_request lower query (App.agent self) with
    | (Return doc, agent') =>
        (Return tt,
         {| App.agent := agent'; App.db := logged;
            App.query_entry := EmptyString; App.response_text := doc |})
    | (Raise e, agent') =>
        (Raise e,
         {| App.agent := agent'; App.db := logged;
            App.query_entry := App.query_entry self;
            App.response_text := App.response_text self |})
    end.
Proof.
  intros Hq query logged.
  unfold App._process_query, bind at 1, gets at 1. rewrite Hq.
  unfold bind, App.on_db, App.on_agent, App.set_response_text,
    App.clear_query_entry, modify, final, Database.log_user_query.
  cbn [App.agent App.db App.query_entry App.response_text snd fst].
  fold query.
  destruct (process_user_request lower query (App.agent self)) as [[doc|e] agent'];
    reflexivity.
Qed.

Lemma query_is_logged_then_routed_witness :
  App._process_query Text.lower Text.strip 7
    {| App.agent := init Examples.uncategorised Examples.counting;
       App.db := Database._create_tables;
       App.query_entry := " hello ";
       App.response_text := "earlier answer" |}
  = (Raise AttributeError,
     {| App.agent := init Examples.uncategorised Examples.counting;
        App.db :=
          {| Database.user_queries :=
               [ {| Database.q_id := 1; Database.q_query := "hello";
                    Database.q_timestamp := 7 |} ];
             Database.viewed_failure_modes := [];
             Database.solution_feedback := [] |};
        App.query_entry := " hello ";
        App.response_text := "earlier answer" |}).
Proof.
  exact (query_is_logged_then_routed Text.lower Text.strip 7
           {| App.agent := init Examples.uncategorised Examples.counting;
              App.db := Database._create_tables;
              App.query_entry := " hello ";
              App.response_text := "earlier answer" |}
           "h" "ello" eq_refl).
Defined.

Lemma contains_append_l (a b hay : string) :
  contains (a ++ b) hay = true -> contains a hay = true.
Proof.
  rewrite !contains_iff. intros [pre [post H]].
  exists pre, (b ++ post). rewrite H. f_equal. apply append_assoc.
Qed.

(** X22. The example button "List all failure categories" does not list
    the categories: its text carries neither listing command, so unless it
    happens to contain an identifier of the taxonomy, the router answers
    it, on an index whose buckets have names, with the help document. *)
Theorem example_list_categories_gets_help (self : State) :
  In "List all failure categories" Window.examples
  /\ ((forall m, In m (Dict.keys (failure_modes self)) ->
                 names_mode Text.lower "List all failure categories" m = false) ->
      categories_named (categories self) ->
      process_user_request Text.lower "List all failure categories" self
      = (Return help_document, self)).
Proof.
  split; [simpl; tauto|]. intros Hmodes Hnamed.
  rewrite (process_user_request_named _ _ _ Hnamed). unfold choose.
  destruct (find _ (Dict.keys (failure_modes self))) as [m|] eqn:Hfind.
  - apply find_some in Hfind. destruct Hfind as [Hin Hm].
    rewrite (Hmodes m Hin) in Hm. discriminate.
  - destruct (find _ (category_names (categories self))) as [c|] eqn:Hcat.
    + apply find_some in Hcat. destruct Hcat as [_ Hc].
      unfold asks_category in Hc. apply orb_true_iff in Hc.
      destruct Hc as [Hc|Hc]; apply contains_append_l in Hc;
        vm_compute in Hc; discriminate.
    + reflexivity.
Qed.

Lemma example_list_categories_gets_help_witness :
  process_user_request Text.lower "List all failure categories"
    (init Examples.taxonomy Examples.counting)
  = (Return help_document, init Examples.taxonomy Examples.counting).
Proof.
  apply (proj2 (example_list_categories_gets_help
                  (init Examples.taxonomy Examples.counting))).
  - intros m Hin. simpl in Hin.
    destruct Hin as [<-|[<-|[<-|[]]]]; reflexivity.
  - repeat constructor; discriminate.
Defined.

End QueryHandler.

(* ------------------------------------------------------------------ *)
(** ** The handlers of the window *)

Module WindowFacts.

Import Agent Documents AgentFacts Window TextFacts MonadFacts Frames.

Local Arguments String.append : simpl never.

(** Reduction of the projections of the window and of the application. *)
Ltac projections :=
  cbn [app App.db App.agent App.query_entry App.response_text texts vars
       category_listbox category_selection mode_values has_description_text
       fst snd].

(** *** Composition of what computations keep *)

Section Keeps.

Context {St : Type}.
Variable R : St -> St -> Prop.
Hypothesis R_refl : forall s, R s s.
Hypothesis R_trans : forall s1 s2 s3, R s1 s2 -> R s2 s3 -> R s1 s3.

Lemma keeps_ret {A} (a : A) : keeps R (ret a).
Proof. intros s. apply R_refl. Qed.

Lemma keeps_gets {A} (f : St -> A) : keeps R (gets f).
Proof. intros s. apply R_refl. Qed.

Lemma keeps_bind {A B} (m : M St A) (k : A -> M St B) :
  keeps R m -> (forall a, keeps R (k a)) -> keeps R (bind m k).
Proof.
  intros Hm Hk s. unfold bind. specialize (Hm s).
  destruct (m s) as [[a|e] s1]; cbn [snd] in *.
  - eapply R_trans; [exact Hm | apply Hk].
  - exact Hm.
Qed.

Lemma keeps_for_each {A B} (xs : list A) (acc : B) (body : B -> A -> M St B) :
  (forall acc x, keeps R (body acc x)) -> keeps R (for_each xs acc body).
Proof.
  intros Hbody. revert acc. induction xs as [|x xs IH]; intros acc; simpl.
  - apply keeps_ret.
  - apply keeps_bind; [apply Hbody | intros acc'; apply IH].
Qed.

End Keeps.

Lemma same_store_refl (a : Agent.State) : same_store a a.
Proof. now split. Qed.

Lemma same_store_trans (a1 a2 a3 : Agent.State) :
  same_store a1 a2 -> same_store a2 a3 -> same_store a1 a3.
Proof. intros [H1 H2] [H3 H4]. split; congruence. Qed.

Lemma log_grows_refl (d : Database.State) : log_grows d d.
Proof.
  repeat split; exists []; now rewrite app_nil_r.
Qed.

Lemma log_grows_trans (d1 d2 d3 : Database.State) :
  log_grows d1 d2 -> log_grows d2 d3 -> log_grows d1 d3.
Proof.
  intros [F1 [[q1 Q1] [v1 V1]]] [F2 [[q2 Q2] [v2 V2]]]. repeat split.
  - congruence.
  - exists (q1 ++ q2)%list. now rewrite Q2, Q1, <- app_assoc.
  - exists (v1 ++ v2)%list. now rewrite V2, V1, <- app_assoc.
Qed.

Lemma app_step_refl (s : App.State) : app_step s s.
Proof. split; [apply same_store_refl | apply log_grows_refl]. Qed.

Lemma app_step_trans (s1 s2 s3 : App.State) :
  app_step s1 s2 -> app_step s2 s3 -> app_step s1 s3.
Proof.
  intros [A1 D1] [A2 D2].
  split; [eapply same_store_trans | eapply log_grows_trans]; eassumption.
Qed.

Lemma window_step_refl (s : Window.State) : window_step s s.
Proof. apply app_step_refl. Qed.

Lemma window_step_trans (s1 s2 s3 : Window.State) :
  window_step s1 s2 -> window_step s2 s3 -> window_step s1 s3.
Proof. apply app_step_trans. Qed.

Lemma keeps_on_agent {A} (m : M Agent.State A) :
  keeps same_store m -> keeps app_step (App.on_agent m).
Proof.
  intros Hm s. unfold App.on_agent. specialize (Hm (App.agent s)).
  destruct (m (App.agent s)) as [r a']. cbn [snd] in *.
  split; [exact Hm | apply log_grows_refl].
Qed.

Lemma keeps_on_db {A} (m : M Database.State A) :
  keeps log_grows m -> keeps app_step (App.on_db m).
Proof.
  intros Hm s. unfold App.on_db. specialize (Hm (App.db s)).
  destruct (m (App.db s)) as [r d']. cbn [snd] in *.
  split; [apply same_store_refl | exact Hm].
Qed.

Lemma keeps_on_app {A} (m : M App.State A) :
  keeps app_step m -> keeps window_step (on_app m).
Proof.
  intros Hm s. unfold on_app, window_step. specialize (Hm (app s)).
  destruct (m (app s)) as [r a']. exact Hm.
Qed.

Lemma keeps_log_user_query (now : Z) (query : string) :
  keeps log_grows (Database.log_user_query now query).
Proof.
  intros d. unfold Database.log_user_query. cbn [snd]. repeat split.
  - eexists. reflexivity.
  - exists []. cbn [Database.viewed_failure_modes]. now rewrite app_nil_r.
Qed.

Lemma keeps_log_viewed (now : Z) (name : string) :
  keeps log_grows (Database.log_viewed_failure_mode now name).
Proof.
  intros d. unfold Database.log_viewed_failure_mode. cbn [snd]. repeat split.
  - exists []. cbn [Database.user_queries]. now rewrite app_nil_r.
  - eexists. reflexivity.
Qed.

Lemma keeps_demonstrate (mode : string) :
  keeps same_store (demonstrate_failure_mode mode).
Proof.
  intros a. rewrite demonstrate_eq. apply after_demonstration_store.
Qed.

Lemma keeps_category_response (c : option string) :
  keeps same_store (_generate_category_response c).
Proof. intros a. rewrite category_response_eq. apply same_store_refl. Qed.

Lemma keeps_process_user_request (lower : string -> string) (request : string) :
  keeps same_store (process_user_request lower request).
Proof.
  intros a. rewrite RouterFacts.process_user_request_state.
  destruct (find _ _); [apply after_demonstration_store | apply same_store_refl].
Qed.

(** *** Text areas *)

Lemma text_area_eqb_eq (a b : TextArea) : text_area_eqb a b = true -> a = b.
Proof. destruct a, b; (reflexivity || discriminate). Qed.

(** A loop of inserts appends the pieces, in order, to one text area. *)
Lemma for_each_insert (area : TextArea) (piece : string -> string)
  (items : list string) (st : Window.State) :
  exists st',
    for_each items tt (fun _ item => insert area (Some (piece item))) st
    = (Return tt, st')
    /\ app st' = app st
    /\ vars st' = vars st
    /\ mode_values st' = mode_values st
    /\ (forall a,
           texts st' a
           = if text_area_eqb a area
             then texts st a ++ join (map piece items)
             else texts st a).
Proof.
  revert st. induction items as [|x items IH]; intros st; cbn [for_each].
  - exists st. unfold ret. repeat split. intros a. cbn [map join].
    destruct (text_area_eqb a area); [now rewrite append_nil_r | reflexivity].
  - unfold bind. cbn [insert]. unfold set_text, modify. cbv beta iota.
    match goal with
    | |- context [for_each items tt _ ?s] =>
        destruct (IH s) as [st' [E [Happ [Hvars [Hvalues Htexts]]]]]
    end.
    exists st'. split; [exact E|].
    cbn [app vars mode_values] in Happ, Hvars, Hvalues.
    repeat split; try assumption.
    intros a. rewrite Htexts. cbn [texts map join].
    destruct (text_area_eqb a area) eqn:Ha; [|reflexivity].
    apply text_area_eqb_eq in Ha. subst a. now rewrite append_assoc.
Qed.

(** *** The panes of the failure-mode tab *)

Lemma pane_step_refl (s : Window.State) : pane_step s s.
Proof. repeat split. Qed.

Lemma pane_step_trans (s1 s2 s3 : Window.State) :
  pane_step s1 s2 -> pane_step s2 s3 -> pane_step s1 s3.
Proof.
  intros [A1 [D1 [V1 [M1 [C1 S1]]]]] [A2 [D2 [V2 [M2 [C2 S2]]]]].
  split; [eapply same_store_trans; eassumption|].
  repeat split; congruence.
Qed.

Lemma pane_step_on_agent {A} (m : M Agent.State A) :
  keeps same_store m -> keeps pane_step (on_app (App.on_agent m)).
Proof.
  intros Hm s. unfold on_app, App.on_agent. specialize (Hm (App.agent (app s))).
  destruct (m (App.agent (app s))) as [r a']. cbn [snd] in *.
  unfold pane_step. projections. repeat split; apply Hm.
Qed.

Lemma pane_step_set_text (area : TextArea) (text : string) :
  is_pane area -> keeps pane_step (set_text area text).
Proof.
  intros [-> | [-> | [-> | ->]]] s; unfold set_text, modify, pane_step;
    projections; cbn [text_area_eqb]; repeat split.
Qed.

Lemma pane_step_delete (area : TextArea) :
  is_pane area -> keeps pane_step (delete area).
Proof. apply pane_step_set_text. Qed.

Lemma pane_step_insert (area : TextArea) (chars : option string) :
  is_pane area -> keeps pane_step (insert area chars).
Proof.
  intros Harea. destruct chars as [text|]; cbn [insert].
  - intros s. apply (pane_step_set_text area _ Harea s).
  - intros s. apply pane_step_refl.
Qed.

Lemma keeps_iter {St A} (R : St -> St -> Prop) (xs : option (list A)) :
  (forall s, R s s) -> keeps R (iter xs).
Proof. intros Hrefl s. destruct xs; apply Hrefl. Qed.

Lemma keeps_analyze (mode : string) :
  keeps same_store (analyze_failure_mode mode).
Proof. intros a. apply same_store_refl. Qed.

Lemma keeps_get_solutions (mode : string) :
  keeps same_store (get_solutions mode).
Proof. intros a. apply same_store_refl. Qed.

Lemma keeps_get_info (mode : string) :
  keeps same_store (get_failure_mode_info mode).
Proof. intros a. apply same_store_refl. Qed.

End WindowFacts.

(* ------------------------------------------------------------------ *)
(** ** Handler theorems *)

Module Handlers.

Import Agent Documents AgentFacts Window TextFacts MonadFacts Frames
  WindowFacts.

Local Arguments String.append : simpl never.

Ltac pane_auto :=
  repeat first
    [ apply keeps_bind; [apply pane_step_trans | | intros ?]
    | apply keeps_for_each;
      [apply pane_step_refl | apply pane_step_trans | intros ? ?]
    | apply keeps_ret; apply pane_step_refl
    | apply keeps_iter; apply pane_step_refl
    | apply pane_step_delete; unfold is_pane; tauto
    | apply pane_step_insert; unfold is_pane; tauto
    | apply pane_step_on_agent;
      first [ apply keeps_demonstrate | apply keeps_analyze
            | apply keeps_get_solutions | apply keeps_get_info ] ].

Lemma mode_select_frame (now : Z) (st : Window.State) (c : ascii)
  (m : string) :
  vars st mode_var = String c m ->
  let st' := final (_on_failure_mode_select now) st in
  App.db (app st')
  = final (Database.log_viewed_failure_mode now (String c m)) (App.db (app st))
  /\ same_store (App.agent (app st)) (App.agent (app st'))
  /\ vars st' = vars st
  /\ mode_values st' = mode_values st
  /\ texts st' category_details_text = texts st category_details_text
  /\ texts st' stats_text = texts st stats_text.
Proof.
  intros Hm st'. unfold st', final.
  destruct (_on_failure_mode_select now st) as [o out] eqn:E. cbn [snd].
  revert E. unfold _on_failure_mode_select.
  unfold bind at 1. unfold gets at 1. cbv beta iota. rewrite Hm.
  unfold bind at 1. unfold on_app at 1. unfold App.on_db at 1.
  unfold Database.log_viewed_failure_mode at 1. cbv beta iota zeta.
  match goal with
  | |- ?rest ?s1 = _ -> _ =>
      assert (Hrest : keeps pane_step rest) by pane_auto;
      pose proof (Hrest s1) as Hstep
  end.
  intros E. rewrite E in Hstep. cbn [snd] in Hstep. clear E Hrest.
  destruct Hstep as [Hagent [Hdb [Hvars [Hvalues [Hdetails Hstats]]]]].
  cbn [app App.agent App.db vars mode_values texts]
    in Hagent, Hdb, Hvars, Hvalues, Hdetails, Hstats.
  rewrite Hdb, Hvars, Hvalues, Hdetails, Hstats.
  repeat split; try reflexivity; apply Hagent.
Qed.

Lemma mode_select_panes (now : Z) (st : Window.State) (c : ascii)
  (m : string) (d a : string) (t s : list string) :
  vars st mode_var = String c m ->
  let mode := String c m in
  let fm := failure_modes (App.agent (app st)) in
  let st' := final (_on_failure_mode_select now) st in
  description_of fm mode = Some d ->
  analysis_of fm mode = Some a ->
  tactical_of fm mode = Some t ->
  structural_of fm mode = Some s ->
  result (_on_failure_mode_select now) st = Return tt
  /\ texts st' description_text = d
  /\ texts st' demo_text = demonstration_of fm (rng (App.agent (app st))) mode
  /\ texts st' analysis_text = a
  /\ texts st' solutions_text
     = "# Tactical Solutions" ++ nl ++ nl ++ bullets t
       ++ nl ++ "# Structural Solutions" ++ nl ++ nl ++ bullets s.
Proof.
  intros Hm mode fm st' Hd Ha Ht Hs. unfold st', result, final.
  destruct (_on_failure_mode_select now st) as [o out] eqn:E. cbn [fst snd].
  revert E. unfold _on_failure_mode_select.
  unfold bind at 1. unfold gets at 1. cbv beta iota. rewrite Hm.
  destruct (after_demonstration_store (App.agent (app st)) (String c m))
    as [Hfm _].
  unfold description_of in Hd. unfold analysis_of in Ha.
  unfold tactical_of in Ht. unfold structural_of in Hs.
  unfold info, fm, mode in Hd, Ha, Ht, Hs.
  unfold bind, on_app, App.on_db, App.on_agent, delete, set_text, modify,
    gets, ret, Database.log_viewed_failure_mode.
  projections. unfold get_failure_mode_info at 1. unfold gets. projections.
  rewrite Hd. cbn [insert]. unfold set_text, modify.
  projections. cbn [text_area_eqb].
  rewrite demonstrate_eq. projections. cbn [text_area_eqb].
  unfold analyze_failure_mode, get_solutions, get_failure_mode_info, bind,
    gets, ret.
  projections. rewrite Hfm, Ha. cbn [insert]. unfold set_text, modify.
  projections. cbn [text_area_eqb tactical structural].
  rewrite Hfm, Ht, Hs. cbn [iter]. unfold ret.
  match goal with
  | |- context [for_each t tt ?body ?s0] =>
      destruct (for_each_insert solutions_text
                  (fun solution => "- " ++ solution ++ nl) t s0)
        as [st1 [E1 [_ [_ [_ Htexts1]]]]];
      change (for_each t tt body s0)
        with (for_each t tt
                (fun _ item =>
                   insert solutions_text (Some ("- " ++ item ++ nl))) s0);
      rewrite E1
  end.
  match goal with
  | |- context [for_each s tt ?body ?s0] =>
      destruct (for_each_insert solutions_text
                  (fun solution => "- " ++ solution ++ nl) s s0)
        as [st2 [E2 [_ [_ [_ Htexts2]]]]];
      change (for_each s tt body s0)
        with (for_each s tt
                (fun _ item =>
                   insert solutions_text (Some ("- " ++ item ++ nl))) s0);
      rewrite E2
  end.
  intros [= <- <-].
  rewrite !Htexts2. cbn [texts text_area_eqb]. rewrite !Htexts1.
  cbn [texts text_area_eqb].
  unfold bullets. rewrite ?append_assoc. repeat split.
Qed.

(** How [_on_failure_mode_select] ends for a mode name that is not empty. *)
Lemma mode_select_result (now : Z) (st : Window.State) (c : ascii)
  (m : string) :
  vars st mode_var = String c m ->
  let mode := String c m in
  let fm := failure_modes (App.agent (app st)) in
  result (_on_failure_mode_select now) st
  = match description_of fm mode, analysis_of fm mode with
    | Some _, Some _ =>
        match tactical_of fm mode, structural_of fm mode with
        | Some _, Some _ => Return tt
        | _, _ => Raise TypeError
        end
    | _, _ => Raise TclError
    end.
Proof.
  intros Hm mode fm. unfold result.
  destruct (_on_failure_mode_select now st) as [o out] eqn:E. cbn [fst].
  revert E. unfold _on_failure_mode_select.
  unfold bind at 1. unfold gets at 1. cbv beta iota. rewrite Hm.
  destruct (after_demonstration_store (App.agent (app st)) (String c m))
    as [Hfm _].
  unfold description_of, analysis_of, tactical_of, structural_of, info, fm,
    mode.
  unfold bind, on_app, App.on_db, App.on_agent, delete, set_text, modify,
    gets, ret, raise, Database.log_viewed_failure_mode.
  projections. unfold get_failure_mode_info at 1. unfold gets. projections.
  destruct (get_default (description _) _) as [d|];
    [|cbn [insert]; unfold raise; now intros [= <- _]].
  cbn [insert]. unfold set_text, modify.
  projections. cbn [text_area_eqb].
  rewrite demonstrate_eq. projections. cbn [text_area_eqb].
  unfold analyze_failure_mode, get_solutions, get_failure_mode_info, bind,
    gets, ret.
  projections. rewrite Hfm.
  destruct (get_default (phd_level_analysis _) _) as [a|];
    [|cbn [insert]; unfold raise; now intros [= <- _]].
  cbn [insert]. unfold set_text, modify.
  projections. cbn [text_area_eqb tactical structural].
  rewrite Hfm.
  destruct (get_default (tactical_solutions _) _) as [t|];
    [|cbn [iter]; unfold raise; now intros [= <- _]].
  cbn [iter]. unfold ret.
  match goal with
  | |- context [for_each t tt ?body ?s0] =>
      destruct (for_each_insert solutions_text
                  (fun solution => "- " ++ solution ++ nl) t s0)
        as [st1 [E1 _]];
      change (for_each t tt body s0)
        with (for_each t tt
                (fun _ item =>
                   insert solutions_text (Some ("- " ++ item ++ nl))) s0);
      rewrite E1
  end.
  destruct (get_default (structural_solutions _) _) as [s|];
    [|cbn [iter]; unfold raise; now intros [= <- _]].
  cbn [iter]. unfold ret.
  match goal with
  | |- context [for_each s tt ?body ?s0] =>
      destruct (for_each_insert solutions_text
                  (fun solution => "- " ++ solution ++ nl) s s0)
        as [st2 [E2 _]];
      change (for_each s tt body s0)
        with (for_each s tt
                (fun _ item =>
                   insert solutions_text (Some ("- " ++ item ++ nl))) s0);
      rewrite E2
  end.
  now intros [= <- _].
Qed.

(** X23. [_on_failure_mode_select] does nothing for an empty selection.
    For any other name, known to the taxonomy or not, it first appends one
    view of that name to the log, and this view stays whatever happens
    next; the two other tables and the taxonomy store are left alone.
    When the record read under that name holds no [null] (fields may be
    missing, and an unknown name reads as the empty record) the handler
    returns and fills the four panes: the description or "No description
    available.", the demonstration, the analysis or its placeholder, and
    the solutions pane, which holds the line [# Tactical Solutions], a
    blank line, one line "- solution" per tactical solution in list order,
    a blank line, the line [# Structural Solutions], a blank line, and one
    line "- solution" per structural solution in list order. With [null]
    for the description or the analysis the handler stops with [TclError],
    and otherwise with [null] for a solution list it stops with
    [TypeError]. *)
Theorem mode_selection_logs_a_view (now : Z) (st : Window.State) :
  match vars st mode_var with
  | EmptyString => _on_failure_mode_select now st = (Return tt, st)
  | String _ _ as mode =>
      let fm := failure_modes (App.agent (app st)) in
      let record := info fm mode in
      let db := App.db (app st) in
      let st' := final (_on_failure_mode_select now) st in
      Database.viewed_failure_modes (App.db (app st'))
      = (Database.viewed_failure_modes db
         ++ [ {| Database.v_id :=
                   Database.next_rowid
                     (map Database.v_id (Database.viewed_failure_modes db));
                 Database.v_failure_mode := mode;
                 Database.v_timestamp := now |} ])%list
      /\ Database.user_queries (App.db (app st')) = Database.user_queries db
      /\ Database.solution_feedback (App.db (app st'))
         = Database.solution_feedback db
      /\ same_store (App.agent (app st)) (App.agent (app st'))
      /\ (forall d a tactical structural,
             get_default (description record) "No description available."
             = Some d ->
             get_default (phd_level_analysis record)
               ("No analysis available for " ++ mode ++ ".")
             = Some a ->
             get_default (tactical_solutions record) [] = Some tactical ->
             get_default (structural_solutions record) [] = Some structural ->
             result (_on_failure_mode_select now) st = Return tt
             /\ texts st' description_text = d
             /\ texts st' demo_text
                = demonstration_of fm (rng (App.agent (app st))) mode
             /\ texts st' analysis_text = a
             /\ texts st' solutions_text
                = "# Tactical Solutions" ++ nl ++ nl
                  ++ join (map (fun solution => "- " ++ solution ++ nl)
                             tactical)
                  ++ nl ++ "# Structural Solutions" ++ nl ++ nl
                  ++ join (map (fun solution => "- " ++ solution ++ nl)
                             structural))
      /\ (description record = Null \/ phd_level_analysis record = Null ->
          result (_on_failure_mode_select now) st = Raise TclError)
      /\ (description record <> Null ->
          phd_level_analysis record <> Null ->
          tactical_solutions record = Null
          \/ structural_solutions record = Null ->
          result (_on_failure_mode_select now) st = Raise TypeError)
  end.
Proof.
  destruct (vars st mode_var) as [|c m] eqn:Hm.
  - unfold _on_failure_mode_select, bind, gets. now rewrite Hm.
  - destruct (mode_select_frame now st c m Hm) as [Hdb [Hagent _]].
    pose proof (mode_select_result now st c m Hm) as Hres.
    cbv zeta in *. rewrite Hdb.
    split; [reflexivity|]. split; [reflexivity|]. split; [reflexivity|].
    split; [exact Hagent|]. split; [|split].
    + intros d a tactical structural Hd Ha Ht Hs.
      apply (mode_select_panes now st c m d a tactical structural Hm);
        assumption.
    + rewrite Hres. unfold description_of, analysis_of.
      intros [-> | ->]; cbn [get_default]; [reflexivity|].
      destruct (get_default (description _) _); reflexivity.
    + intros Hd Ha Hnull. rewrite Hres.
      unfold description_of, analysis_of, tactical_of, structural_of.
      destruct (get_default_not_null _ "No description available." Hd)
        as [d ->].
      destruct (get_default_not_null _
                  ("No analysis available for " ++ String c m ++ ".") Ha)
        as [a ->].
      destruct Hnull as [-> | ->]; cbn [get_default]; [reflexivity|].
      destruct (get_default (tactical_solutions _) []); reflexivity.
Qed.

Lemma mode_selection_logs_a_view_witness :
  let st :=
    {| app := {| App.agent := init Examples.taxonomy (Examples.constant 1);
                 App.db := Database._create_tables;
                 App.query_entry := EmptyString;
                 App.response_text := EmptyString |};
       texts := fun _ => "old text";
       vars := fun v => match v with
                        | category_var => "Communication Failures"
                        | mode_var => "Information Withholding"
                        end;
       category_listbox := [];
       category_selection := None;
       mode_values := [];
       has_description_text := true |} in
  let st' := final (_on_failure_mode_select 7) st in
  result (_on_failure_mode_select 7) st = Return tt
  /\ texts st' description_text
     = "An agent does not pass on what the others need."
  /\ texts st' demo_text = "A tester hides a failing test."
  /\ texts st' analysis_text = "Sharing has a cost and no reward."
  /\ texts st' solutions_text
     = "# Tactical Solutions" ++ nl ++ nl
       ++ "- Require status reports." ++ nl
       ++ "- Log every message." ++ nl
       ++ nl ++ "# Structural Solutions" ++ nl ++ nl.
Proof.
  intros st st'.
  pose proof (mode_selection_logs_a_view 7 st) as H.
  cbn [vars st] in H.
  destruct H as [_ [_ [_ [_ [Hpanes _]]]]].
  exact (Hpanes "An agent does not pass on what the others need."
           "Sharing has a cost and no reward."
           ["Require status reports."; "Log every message."] []
           eq_refl eq_refl eq_refl eq_refl).
Defined.

(** A record with [null] fields on a sample window: the view is logged and
    the description pane emptied before the handler stops. *)
Example mode_selection_with_null_description :
  let st :=
    {| app := {| App.agent := init Examples.with_null Examples.counting;
                 App.db := Database._create_tables;
                 App.query_entry := EmptyString;
                 App.response_text := EmptyString |};
       texts := fun _ => "old text";
       vars := fun _ => "Value Misalignment";
       category_listbox := [];
       category_selection := None;
       mode_values := [];
       has_description_text := true |} in
  let st' := final (_on_failure_mode_select 7) st in
  result (_on_failure_mode_select 7) st = Raise TclError
  /\ Database.viewed_failure_modes (App.db (app st'))
     = [ {| Database.v_id := 1;
            Database.v_failure_mode := "Value Misalignment";
            Database.v_timestamp := 7 |} ]
  /\ texts st' description_text = EmptyString
  /\ texts st' demo_text = "old text".
Proof. repeat split. Qed.

(** X24. Choosing a category in the dropdown fills the failure-mode
    dropdown with the identifiers of that category. When there are some
    and the panes exist, the first identifier becomes the selected mode
    and a view of it is logged, although the user has not picked it. When
    the category has no identifier the dropdown is emptied and nothing
    else happens: the selected mode and the log stay as they are. *)
Theorem category_choice_views_first_mode (now : Z) (st : Window.State)
  (c : ascii) (cat : string) :
  vars st category_var = String c cat ->
  let modes := modes_in (categories (App.agent (app st))) (Some (String c cat)) in
  let st' := final (_on_category_dropdown_select now) st in
  mode_values st' = modes
  /\ (modes = [] -> vars st' = vars st /\ app st' = app st /\ texts st' = texts st)
  /\ (forall c' first rest,
         modes = String c' first :: rest ->
         has_description_text st = true ->
         vars st' mode_var = String c' first
         /\ App.db (app st')
            = final (Database.log_viewed_failure_mode now (String c' first))
                (App.db (app st))).
Proof.
  intros Hcat modes st'. unfold st', final.
  destruct (_on_category_dropdown_select now st) as [o out] eqn:E.
  cbn [snd]. revert E.
  unfold _on_category_dropdown_select, _update_failure_mode_dropdown.
  unfold bind at 1. unfold gets at 1. cbv beta iota. rewrite Hcat.
  unfold bind at 1. unfold on_app at 1, App.on_agent at 1,
    get_failure_modes_in_category at 1, gets at 1.
  cbn [fst snd]. fold (modes_in (categories (App.agent (app st)))
                         (Some (String c cat))). fold modes.
  unfold bind at 1. unfold set_mode_values at 1, modify at 1. cbv beta iota.
  destruct modes as [|first rest] eqn:Hmodes.
  - unfold ret. intros [= <- <-]. projections.
    split; [reflexivity|]. split.
    + intros _. repeat split. destruct (app st); reflexivity.
    + intros c' f r' H. discriminate H.
  - unfold bind at 1. unfold set_var at 1, modify at 1. cbv beta iota.
    unfold bind at 1. unfold gets at 1. cbv beta iota. projections.
    destruct (has_description_text st) eqn:Hcreated.
    + match goal with
      | |- _on_failure_mode_select now ?s = _ -> _ => set (st2 := s)
      end.
      intros E. assert (Hout : out = final (_on_failure_mode_select now) st2).
      { unfold final. now rewrite E. }
      clear E. subst out.
      destruct first as [|c' f].
      * unfold final, _on_failure_mode_select, bind, gets. cbn [snd].
        split; [reflexivity|]. split; [intros H; discriminate H|].
        intros c'' f r' H. discriminate H.
      * assert (H2 : vars st2 mode_var = String c' f) by reflexivity.
        destruct (mode_select_frame now st2 c' f H2)
          as [Hdb [_ [Hvars [Hvalues _]]]].
        rewrite Hvalues, Hvars, Hdb.
        split; [reflexivity|]. split; [intros H; discriminate H|].
        intros c'' f' r' [= -> -> ->] _. split; reflexivity.
    + unfold ret. intros [= <- <-]. projections.
      split; [reflexivity|]. split.
      * intros H. discriminate H.
      * intros c' f r' _ H. discriminate H.
Qed.

Lemma category_choice_views_first_mode_witness :
  let st :=
    {| app := {| App.agent := init Examples.taxonomy Examples.counting;
                 App.db := Database._create_tables;
                 App.query_entry := EmptyString;
                 App.response_text := EmptyString |};
       texts := fun _ => EmptyString;
       vars := fun v => match v with
                        | category_var => "Communication Failures"
                        | mode_var => EmptyString
                        end;
       category_listbox := [];
       category_selection := None;
       mode_values := [];
       has_description_text := true |} in
  let st' := final (_on_category_dropdown_select 42) st in
  vars st' mode_var = "Information Withholding"
  /\ App.db (app st')
     = final (Database.log_viewed_failure_mode 42 "Information Withholding")
         (App.db (app st)).
Proof.
  intros st st'.
  exact (proj2 (proj2 (category_choice_views_first_mode 42 st
                         "C" "ommunication Failures" eq_refl))
           "I"%char "nformation Withholding" ["Decision Paralysis"]
           eq_refl eq_refl).
Defined.

(** X25. [_update_stats] rewrites the statistics pane and nothing else. The
    pane shows the line [Most Viewed Failure Modes:], then one line
    "• name (viewed n times)" for each of the five most viewed modes at
    most, or the line "No failure modes have been viewed yet."; a blank
    line; the line [Recent User Queries:], then one line "• query" for each
    of the five most recent queries at most, or the line "No queries have
    been made yet.". The feedback statistics it fetches are not shown. *)
Theorem stats_pane_shows_views_and_queries (st : Window.State) :
  let db := App.db (app st) in
  let st' := final _update_stats st in
  exists most_viewed recent,
    result (Database.get_most_viewed_failure_modes 5) db = Return most_viewed
    /\ result (Database.get_recent_queries 5) db = Return recent
    /\ (List.length most_viewed <= 5)%nat
    /\ (List.length recent <= 5)%nat
    /\ texts st' stats_text
       = "Most Viewed Failure Modes:" ++ nl
         ++ match most_viewed with
            | [] => "No failure modes have been viewed yet." ++ nl
            | _ :: _ =>
                join (map (fun item =>
                             "• " ++ Database.failure_mode item
                             ++ " (viewed "
                             ++ NilZero.string_of_int
                                  (Z.to_int (Database.view_count item))
                             ++ " times)" ++ nl) most_viewed)
            end
         ++ nl ++ "Recent User Queries:" ++ nl
         ++ match recent with
            | [] => "No queries have been made yet." ++ nl
            | _ :: _ =>
                join (map (fun query => "• " ++ Database.q_query query ++ nl)
                        recent)
            end
    /\ result _update_stats st = Return tt
    /\ app st' = app st
    /\ vars st' = vars st
    /\ (forall area, area <> stats_text -> texts st' area = texts st area).
Proof.
  intros db st'.
  exists (Database.limit_rows 5
            (Database.order_by_desc Database.view_count
               (map Database.count_views
                  (Database.sql_group_by true Database.v_failure_mode
                     (Database.viewed_failure_modes db))))),
    (Database.limit_rows 5
       (Database.order_by_desc Database.q_timestamp (Database.user_queries db))).
  split; [reflexivity|]. split; [reflexivity|].
  split; [apply firstn_le_length|]. split; [apply firstn_le_length|].
  unfold st', result, final, _update_stats.
  unfold bind, on_app, App.on_db, Database.get_most_viewed_failure_modes,
    Database.get_recent_queries, Database.get_solution_feedback_stats, gets, ret,
    bind, set_text, modify, py_int.
  cbn [app App.db App.agent fst snd]. fold db.
  set (mv := Database.limit_rows 5 _).
  set (rq := Database.limit_rows 5 _).
  destruct mv as [|v mv']; destruct rq as [|q rq'];
    rewrite ?(for_each_pure
                (fun (_ : Window.State) acc item =>
                   acc ++ ("• " ++ Database.failure_mode item
                           ++ " (viewed "
                           ++ NilZero.string_of_int
                                (Z.to_int (Database.view_count item))
                           ++ " times)" ++ nl)))
      by reflexivity;
    rewrite ?(for_each_pure
                (fun (_ : Window.State) acc query =>
                   acc ++ ("• " ++ Database.q_query query ++ nl)))
      by reflexivity;
    rewrite ?fold_left_append;
    cbn [fst snd texts app vars text_area_eqb];
    repeat split;
    first
      [ now rewrite ?append_assoc
      | subst db; destruct (app st) as [a d qe r]; reflexivity
      | intros area Harea; destruct area; try reflexivity; contradiction ].
Qed.

(** The pane after five views and three queries: modes with equal counts
    come in descending order of their names, queries logged in the same
    second in the order in which they were made. *)
Lemma stats_pane_shows_views_and_queries_witness :
  let session :=
    [ Database.LogView 1 "Decision Paralysis";
      Database.LogView 2 "Information Withholding";
      Database.LogView 3 "Miscommunication";
      Database.LogView 4 "Information Withholding";
      Database.LogView 5 "Decision Paralysis";
      Database.LogQuery 10 "hello";
      Database.LogQuery 10 "list all categories";
      Database.LogQuery 12 "explain alignment failures" ] in
  let st :=
    {| app := {| App.agent := init Examples.taxonomy Examples.counting;
                 App.db := Database.run session Database._create_tables;
                 App.query_entry := EmptyString;
                 App.response_text := EmptyString |};
       texts := fun _ => "old text";
       vars := fun _ => EmptyString;
       category_listbox := [];
       category_selection := None;
       mode_values := [];
       has_description_text := true |} in
  texts (final _update_stats st) stats_text
  = "Most Viewed Failure Modes:" ++ nl
    ++ "• Information Withholding (viewed 2 times)" ++ nl
    ++ "• Decision Paralysis (viewed 2 times)" ++ nl
    ++ "• Miscommunication (viewed 1 times)" ++ nl
    ++ nl ++ "Recent User Queries:" ++ nl
    ++ "• explain alignment failures" ++ nl
    ++ "• hello" ++ nl
    ++ "• list all categories" ++ nl.
Proof.
  intros session st.
  destruct (stats_pane_shows_views_and_queries st)
    as [most_viewed [recent [Hviews [Hqueries [_ [_ [Hpane _]]]]]]].
  vm_compute in Hviews. injection Hviews as <-.
  vm_compute in Hqueries. injection Hqueries as <-.
  exact Hpane.
Defined.

(** The pane of an application that has logged nothing. *)
Example stats_pane_of_an_empty_log :
  let st :=
    {| app := {| App.agent := init Examples.taxonomy Examples.counting;
                 App.db := Database._create_tables;
                 App.query_entry := EmptyString;
                 App.response_text := EmptyString |};
       texts := fun _ => "old text";
       vars := fun _ => EmptyString;
       category_listbox := [];
       category_selection := None;
       mode_values := [];
       has_description_text := true |} in
  texts (final _update_stats st) stats_text
  = "Most Viewed Failure Modes:" ++ nl
    ++ "No failure modes have been viewed yet." ++ nl
    ++ nl ++ "Recent User Queries:" ++ nl
    ++ "No queries have been made yet." ++ nl.
Proof. reflexivity. Qed.

Ltac keeps_step :=
  first
    [ apply keeps_bind; [apply window_step_trans | | intros ?]
    | apply keeps_ret; apply window_step_refl
    | apply keeps_gets; apply window_step_refl
    | apply keeps_for_each;
      [apply window_step_refl | apply window_step_trans | intros ? ?]
    | apply keeps_on_app ].

Lemma keeps_setter (f : Window.State -> Window.State) :
  (forall s, app (f s) = app s) -> keeps window_step (modify f).
Proof.
  intros Hf s. unfold modify, window_step. cbn [snd]. rewrite Hf.
  apply app_step_refl.
Qed.

Lemma keeps_process_query (lower strip : string -> string) (now : Z) :
  keeps app_step (App._process_query lower strip now).
Proof.
  unfold App._process_query.
  apply keeps_bind;
    [apply app_step_trans | apply keeps_gets; apply app_step_refl
    | intros entry].
  destruct (strip entry) as [|c q]; [apply keeps_ret; apply app_step_refl|].
  apply keeps_bind;
    [apply app_step_trans | apply keeps_on_db; apply keeps_log_user_query
    | intros _].
  apply keeps_bind;
    [apply app_step_trans
    | apply keeps_on_agent; apply keeps_process_user_request | intros doc].
  apply keeps_bind; [apply app_step_trans | | intros _];
    intros s; (split; [apply same_store_refl | apply log_grows_refl]).
Qed.

Lemma keeps_set_query_entry (text : string) :
  keeps app_step (set_query_entry text).
Proof.
  intros s. split; [apply same_store_refl | apply log_grows_refl].
Qed.

Lemma keeps_read_agent {A} (f : Agent.State -> A) :
  keeps window_step (on_app (App.on_agent (gets f))).
Proof.
  apply keeps_on_app, keeps_on_agent. intros s. apply same_store_refl.
Qed.

Lemma keeps_read_db {A} (f : Database.State -> A) :
  keeps window_step (on_app (App.on_db (gets f))).
Proof.
  apply keeps_on_app, keeps_on_db. intros s. apply log_grows_refl.
Qed.

Lemma keeps_delete (area : TextArea) : keeps window_step (delete area).
Proof. apply keeps_setter. reflexivity. Qed.

Lemma keeps_insert (area : TextArea) (chars : option string) :
  keeps window_step (insert area chars).
Proof.
  destruct chars as [text|]; intros s; cbn [insert].
  - apply (keeps_setter _ (fun _ => eq_refl) s).
  - apply window_step_refl.
Qed.

Ltac keeps_leaf :=
  first
    [ apply keeps_setter; reflexivity
    | apply keeps_delete
    | apply keeps_insert
    | apply keeps_iter; apply window_step_refl
    | apply keeps_set_query_entry
    | apply keeps_process_query
    | apply keeps_on_agent;
      first [ apply keeps_demonstrate
            | apply keeps_category_response
            | apply keeps_process_user_request
            | intros ?; apply same_store_refl ]
    | apply keeps_on_db;
      first [ apply keeps_log_viewed
            | apply keeps_log_user_query
            | intros ?; apply log_grows_refl ]
    | match goal with
      | |- keeps _ (match ?x with _ => _ end) => destruct x
      | |- keeps _ (if ?x then _ else _) => destruct x
      end ].

Ltac keeps_auto := repeat first [ keeps_step | keeps_leaf ].

Lemma keeps_mode_select (now : Z) :
  keeps window_step (_on_failure_mode_select now).
Proof. unfold _on_failure_mode_select. keeps_auto. Qed.

Lemma keeps_handle (lower strip : string -> string) (e : Event) :
  keeps window_step (handle lower strip e).
Proof.
  destruct e as [now typed | now example | index | now category | now mode | ];
    cbn [handle];
    unfold _set_example_query, _on_category_select,
      _on_category_dropdown_select, _update_failure_mode_dropdown,
      _update_stats;
    repeat first [ apply keeps_mode_select | keeps_step | keeps_leaf ].
Qed.

(** X26. Whatever the user does in a session, no handler changes the
    taxonomy store, none writes the feedback table, and the query and view
    tables only gain rows at their end. An application started on an empty
    feedback table therefore always computes empty feedback statistics. *)
Theorem session_keeps_store_and_feedback (lower strip : string -> string)
  (events : list Event) (st : Window.State) :
  let st' := play lower strip events st in
  same_store (App.agent (app st)) (App.agent (app st'))
  /\ log_grows (App.db (app st)) (App.db (app st'))
  /\ (Database.solution_feedback (App.db (app st)) = [] ->
      result Database.get_solution_feedback_stats (App.db (app st'))
      = Return {| Database.avg_ratings_by_type := [];
                  Database.feedback_count_by_mode := [] |}).
Proof.
  intros st'.
  assert (H : forall s, window_step s (play lower strip events s)).
  { induction events as [|e events IH]; intros s; cbn [play].
    - apply window_step_refl.
    - eapply window_step_trans; [apply (keeps_handle lower strip e) | apply IH]. }
  destruct (H st) as [Hstore Hlog]. fold st' in Hstore, Hlog. split; [exact Hstore|]. split; [exact Hlog|].
  intros Hempty. destruct Hlog as [Hfb _]. rewrite Hempty in Hfb.
  unfold result, Database.get_solution_feedback_stats, bind, gets, ret.
  cbv beta iota zeta. cbn [fst]. now rewrite Hfb.
Qed.

Lemma session_keeps_store_and_feedback_witness :
  let st :=
    {| app := {| App.agent := init Examples.taxonomy Examples.counting;
                 App.db := Database._create_tables;
                 App.query_entry := EmptyString;
                 App.response_text := EmptyString |};
       texts := fun _ => EmptyString;
       vars := fun _ => EmptyString;
       category_listbox := ["Communication Failures"; "Alignment Failures"];
       category_selection := None;
       mode_values := [];
       has_description_text := true |} in
  result Database.get_solution_feedback_stats
    (App.db (app (play Text.lower Text.strip
                    [ Submit 1 "explain alignment failures";
                      ChooseCategory 2 "Communication Failures";
                      ChooseMode 3 "Decision Paralysis";
                      SelectCategory (Some 1%nat);
                      PressExample 4 "List all failure categories";
                      RefreshStats ] st)))
  = Return {| Database.avg_ratings_by_type := [];
              Database.feedback_count_by_mode := [] |}.
Proof.
  intros st.
  exact (proj2 (proj2 (session_keeps_store_and_feedback Text.lower Text.strip
                         [ Submit 1 "explain alignment failures";
                           ChooseCategory 2 "Communication Failures";
                           ChooseMode 3 "Decision Paralysis";
                           SelectCategory (Some 1%nat);
                           PressExample 4 "List all failure categories";
                           RefreshStats ] st)) eq_refl).
Defined.

(** X28. [_on_category_select] does nothing without a selection. With one
    it shows the category document of the selected listbox item in the
    details pane and changes nothing else: unlike the dropdown it logs no
    view, and the agent is left as it was. *)
Theorem category_selection_shows_document (st : Window.State) :
  let st' := final _on_category_select st in
  match category_selection st with
  | None => _on_category_select st = (Return tt, st)
  | Some index =>
      let agent := App.agent (app st) in
      result _on_category_select st = Return tt
      /\ texts st' category_details_text
         = category_document (failure_modes agent) (categories agent)
             (Some (nth index (category_listbox st) EmptyString))
      /\ app st' = app st
      /\ vars st' = vars st
      /\ (forall area, area <> category_details_text ->
                       texts st' area = texts st area)
  end.
Proof.
  intros st'. destruct (category_selection st) as [index|] eqn:Hsel.
  - unfold st', result, final.
    destruct (_on_category_select st) as [o out] eqn:E. cbn [fst snd].
    revert E. unfold _on_category_select.
    unfold bind at 1. unfold gets at 1. cbv beta iota. rewrite Hsel.
    unfold bind, gets, on_app, App.on_agent, set_text, modify.
    cbv beta iota. rewrite category_response_eq. projections.
    intros [= <- <-]. cbn [texts app vars text_area_eqb].
    split; [reflexivity|]. split; [reflexivity|]. split.
    + destruct (app st); reflexivity.
    + split; [reflexivity|].
      intros area Harea. destruct area; try reflexivity. contradiction.
  - unfold _on_category_select, bind, gets. now rewrite Hsel.
Qed.

End Handlers.
